(** * The ngclient updater of TUF: orchestration and delegation walk

    A shallow embedding of [tuf/ngclient/updater.py]: the refresh steps
    ([_load_root], [_load_timestamp], [_load_snapshot], [_load_targets]),
    the preorder depth-first walk over target delegations, the delegation
    resolver ([_visit_child_role], [_get_filepath_hash]) and
    [updated_targets].

    Conventions.
    - A Python [str] is a [string] holding its UTF-8 bytes, so that
      [str.encode("utf-8")] reads the bytes off the representation.
    - Python [bytes] are [list byte]; Python [int] is [Z].
    - [dict] is a [gmap], [set] is a [gset], a Python [list] is a [list]
      in the same order (a list used as a stack has its top at the end).
    - Exceptions and mutation are threaded through a state-and-exception
      monad [M]; every call that leaves the module is logged in a trace. *)

From Stdlib Require Import ZArith Lia.
From Stdlib Require Import Strings.Ascii Strings.Byte.
From Stdlib Require Strings.String.
From stdpp Require Import base strings gmap list pretty.

(** ** SHA-256 (FIPS 180-4), as [hashlib] computes it

    [securesystemslib.hash.digest("sha256")] hands out a [hashlib]
    object; [update] followed by [hexdigest] is [hexdigest] below. *)
Module Sha256.
Local Open Scope Z_scope.

Definition w32 (x : Z) : Z := Z.land x 0xffffffff.
Definition add32 (x y : Z) : Z := w32 (x + y).
Definition rotr (n x : Z) : Z :=
  Z.lor (Z.shiftr x n) (w32 (Z.shiftl x (32 - n))).
Definition shr (n x : Z) : Z := Z.shiftr x n.
Definition not32 (x : Z) : Z := Z.lxor x 0xffffffff.

Definition Ch (x y z : Z) : Z := Z.lxor (Z.land x y) (Z.land (not32 x) z).
Definition Maj (x y z : Z) : Z :=
  Z.lxor (Z.lxor (Z.land x y) (Z.land x z)) (Z.land y z).
Definition Sigma0 (x : Z) : Z := Z.lxor (Z.lxor (rotr 2 x) (rotr 13 x)) (rotr 22 x).
Definition Sigma1 (x : Z) : Z := Z.lxor (Z.lxor (rotr 6 x) (rotr 11 x)) (rotr 25 x).
Definition sigma0 (x : Z) : Z := Z.lxor (Z.lxor (rotr 7 x) (rotr 18 x)) (shr 3 x).
Definition sigma1 (x : Z) : Z := Z.lxor (Z.lxor (rotr 17 x) (rotr 19 x)) (shr 10 x).

(** The constants, from their definition: the first 32 bits of the
    fractional parts of the cube roots (round constants) and of the
    square roots (initial hash value) of the first primes. *)
Definition is_prime (n : Z) : bool :=
  (1 <? n)
  && forallb (fun d => negb (n mod Z.of_nat d =? 0)) (seq 2 (Z.to_nat n - 2)).

Definition first_primes (count : nat) : list Z :=
  take count (filter (fun n => is_prime n = true) (map Z.of_nat (seq 2 400))).

(** The largest [r] with [lo <= r < hi] and [r ^ 3 <= n], by bisection. *)
Fixpoint cube_root_between (steps : nat) (lo hi n : Z) : Z :=
  match steps with
  | O => lo
  | S steps' =>
      let mid := (lo + hi) / 2 in
      if mid * mid * mid <=? n
      then cube_root_between steps' mid hi n
      else cube_root_between steps' lo mid n
  end.

Definition cube_root_bits (p : Z) : Z :=
  w32 (cube_root_between 40 0 (Z.shiftl 1 36) (Z.shiftl p 96)).

Definition square_root_bits (p : Z) : Z :=
  w32 (Z.sqrt (Z.shiftl p 64)).

Definition K : list Z := map cube_root_bits (first_primes 64).

Definition H0 : list Z := map square_root_bits (first_primes 8).

(** The padded message: the bytes, 0x80, zeros up to 56 mod 64, and the
    bit length as a 64-bit big-endian integer. *)
Definition be_bytes (n : nat) (x : Z) : list Z :=
  map (fun i => Z.land (Z.shiftr x (8 * Z.of_nat i)) 0xff) (rev (seq 0 n)).

Definition pad (msg : list Z) : list Z :=
  let len := Z.of_nat (length msg) in
  let zeros := Z.to_nat ((55 - len) mod 64) in
  msg ++ [0x80] ++ repeat 0 zeros ++ be_bytes 8 (8 * len).

Fixpoint be_words (fuel : nat) (bs : list Z) : list Z :=
  match fuel, bs with
  | S fuel', b0 :: b1 :: b2 :: b3 :: rest =>
      (b0 * 0x1000000 + b1 * 0x10000 + b2 * 0x100 + b3) :: be_words fuel' rest
  | _, _ => []
  end.

Fixpoint blocks (fuel : nat) (ws : list Z) : list (list Z) :=
  match fuel, ws with
  | S fuel', _ :: _ => firstn 16 ws :: blocks fuel' (skipn 16 ws)
  | _, _ => []
  end.

(** One round on the working variables [a..h], with round constant [k]
    and schedule word [w]. *)
Definition round (k w : Z) (v : list Z) : list Z :=
  match v with
  | [a; b; c; d; e; f; g; h] =>
      let t1 := add32 (add32 (add32 (add32 h (Sigma1 e)) (Ch e f g)) k) w in
      let t2 := add32 (Sigma0 a) (Maj a b c) in
      [add32 t1 t2; a; b; c; add32 d t1; e; f; g]
  | _ => v
  end.

(** The 64 rounds; [win] is the sliding window W[t..t+15] of the
    message schedule. *)
Fixpoint rounds (ks : list Z) (win : list Z) (v : list Z) : list Z :=
  match ks with
  | [] => v
  | k :: ks' =>
      let w := nth 0 win 0 in
      let next :=
        add32 (add32 (add32 (sigma1 (nth 14 win 0)) (nth 9 win 0))
                     (sigma0 (nth 1 win 0))) w in
      rounds ks' (tl win ++ [next]) (round k w v)
  end.

Definition compress (h : list Z) (block : list Z) : list Z :=
  map (fun p => add32 (fst p) (snd p)) (combine h (rounds K block h)).

Definition digest_words (msg : list Z) : list Z :=
  let p := pad msg in
  let ws := be_words (length p) p in
  fold_left compress (blocks (length ws) ws) H0.

Definition hex_digit (d : Z) : ascii :=
  if d <? 10 then ascii_of_N (Z.to_N (48 + d))
  else ascii_of_N (Z.to_N (87 + d)).

(** [n] lowercase hexadecimal digits of [x], most significant first. *)
Definition hex (n : nat) (x : Z) : string :=
  String.string_of_list_ascii
    (map (fun i => hex_digit (Z.land (Z.shiftr x (4 * Z.of_nat i)) 0xf))
         (rev (seq 0 n))).

Definition hexdigest (msg : list byte) : string :=
  String.concat "" (map (hex 8)
    (digest_words (map (fun b => Z.of_N (Byte.to_N b)) msg))).

End Sha256.

(** ** Exceptions

    An exception is represented by the class this module's handlers tell
    apart: subclasses of [RepositoryError] are [RepositoryError],
    [FileNotFoundError] and the like are [OSError]; everything no handler
    of this module names is [OtherError] with its class name. *)
Inductive exn : Type :=
| OSError
| RepositoryError
| LengthOrHashMismatchError
| FormatError
| FetcherHTTPError (status_code : Z)
| OtherError (cls : string).

Global Instance exn_eq_dec : EqDecision exn.
Proof. solve_decision. Defined.

(** The outcome of a call that touches no state. *)
Inductive Except (A : Type) : Type :=
| Val (a : A)
| Exc (e : exn).
Arguments Val {A} a.
Arguments Exc {A} e.

(** ** Metadata objects, as far as this module reads them *)

Record MetaFile := {
  mf_version : Z;
  mf_length : option Z
}.

(** [MetaFile] is declared in [tuf.api.metadata], outside this module;
    its constructor refuses a [length] that is not positive, so the
    [length] of a reference is absent or positive. *)
Definition valid_length (m : MetaFile) : Prop :=
  match mf_length m with
  | Some l => (0 < l)%Z
  | None => True
  end.

Record TargetFile := {
  tf_length : Z;
  tf_hashes : list (string * string)
}.

Record DelegatedRole := {
  name : string;
  terminating : bool;
  paths : option (list string);
  path_hash_prefixes : option (list string)
}.

Record Delegations := {
  roles : list DelegatedRole
}.

Record Targets := {
  targets : gmap string TargetFile;
  delegations : option Delegations
}.

(** ** String helpers of the Python standard library *)

(** [s.startswith(prefix)] *)
Definition startswith (s prefix : string) : bool := String.prefix prefix s.

(** [s.lstrip(chars)] *)
Fixpoint lstrip (s chars : string) : string :=
  match s with
  | EmptyString => EmptyString
  | String c s' =>
      if existsb (Ascii.eqb c) (String.list_ascii_of_string chars)
      then lstrip s' chars
      else s
  end.

(** A character of a lowercase hexadecimal string. *)
Definition is_lower_hex (c : ascii) : bool :=
  existsb (Ascii.eqb c) (String.list_ascii_of_string "0123456789abcdef").

Fixpoint all_lower_hex (s : string) : bool :=
  match s with
  | EmptyString => true
  | String c s' => is_lower_hex c && all_lower_hex s'
  end.

(** [os.sep] on POSIX *)
Definition os_sep : string := "/".

(** [s.endswith(suffix)] *)
Definition endswith (s suffix : string) : bool :=
  String.prefix
    (String.string_of_list_ascii (rev (String.list_ascii_of_string suffix)))
    (String.string_of_list_ascii (rev (String.list_ascii_of_string s))).

(** [os.path.join(a, b)] of [posixpath], for two components *)
Definition os_path_join (a b : string) : string :=
  if startswith b "/" then b
  else if String.eqb a "" || endswith a "/" then a +:+ b
       else a +:+ "/" +:+ b.

(** [_ensure_trailing_slash] *)
Definition _ensure_trailing_slash (url : string) : string :=
  if endswith url "/" then url else url +:+ "/".

(** ** The delegation resolver *)

(** [_get_filepath_hash] at its default [hash_function="sha256"], the
    only way this module calls it; the other algorithms of
    [securesystemslib] are not modelled. *)
Definition _get_filepath_hash (target_filepath : string) : string :=
  let encoded_target_filepath := String.list_byte_of_string target_filepath in
  let target_filepath_hash := Sha256.hexdigest encoded_target_filepath in
  target_filepath_hash.

(** The [for] loop over [path_hash_prefixes]: [Some] is the early
    [return], [None] is falling out of the loop. *)
Fixpoint visit_hash_prefixes (child_role_name : string)
    (target_filepath_hash : string) (prefixes : list string) : option string :=
  match prefixes with
  | [] => None
  | child_role_path_hash_prefix :: rest =>
      if negb (startswith target_filepath_hash child_role_path_hash_prefix)
      then visit_hash_prefixes child_role_name target_filepath_hash rest
      else Some child_role_name
  end.

Section Resolver.

(** [fnmatch.fnmatch(name, pat)] of the standard library. *)
Variable fnmatch : string -> string -> bool.

(** The [for] loop over [paths]. *)
Fixpoint visit_paths (child_role_name : string) (target_filepath : string)
    (child_role_paths : list string) : option string :=
  match child_role_paths with
  | [] => None
  | child_role_path :: rest =>
      if fnmatch (lstrip target_filepath os_sep) (lstrip child_role_path os_sep)
      then Some child_role_name
      else visit_paths child_role_name target_filepath rest
  end.

Definition _visit_child_role (child_role : DelegatedRole)
    (target_filepath : string) : Except (option string) :=
  let child_role_name := name child_role in
  let child_role_paths := paths child_role in
  let child_role_path_hash_prefixes := path_hash_prefixes child_role in
  match child_role_path_hash_prefixes with
  | Some prefixes =>
      let target_filepath_hash := _get_filepath_hash target_filepath in
      Val (visit_hash_prefixes child_role_name target_filepath_hash prefixes)
  | None =>
      match child_role_paths with
      | Some ps => Val (visit_paths child_role_name target_filepath ps)
      | None => Exc FormatError
      end
  end.

End Resolver.

(** ** Configuration and results *)

(** [UpdaterConfig], the options this module reads. *)
Record UpdaterConfig := {
  max_root_rotations : Z;
  max_delegations : Z;
  root_max_length : Z;
  timestamp_max_length : Z;
  snapshot_max_length : Z;
  targets_max_length : Z
}.

(** The attributes of an [Updater] that stay fixed after [__init__]; the
    trusted set and the fetcher live in the world below. *)
Record Updater := {
  _dir : string;
  _metadata_base_url : string;
  _target_base_url : option string;
  config : UpdaterConfig
}.

(** The dictionary [{"filepath": ..., "fileinfo": ...}]. *)
Record TargetInfo := {
  filepath : string;
  fileinfo : option TargetFile
}.

(** ** Calls that leave the module, and the trace *)

Inductive call : Type :=
| OpenRead (path : string)
| OpenWrite (path : string) (data : list byte)
| DownloadBytes (url : string) (length : Z)
| UpdateRoot (data : list byte)
| RootUpdateFinished
| UpdateTimestamp (data : list byte)
| UpdateSnapshot (data : list byte)
| UpdateDelegatedTargets (data : list byte) (role_name parent_name : string).

(** A call together with the exception it raised, if any. *)
Record event := Event {
  ev_call : call;
  ev_exn : option exn
}.

Global Instance byte_eq_dec : EqDecision byte := Byte.byte_eq_dec.

Global Instance call_eq_dec : EqDecision call.
Proof. solve_decision. Defined.
Global Instance event_eq_dec : EqDecision event.
Proof. solve_decision. Defined.

(** ** The collaborators

    [W] is everything the updater does not own: the directory on disk,
    the remote repository behind the fetcher and the
    [TrustedMetadataSet] object. *)

(** The builtin [open]: reading leaves the world as it is. *)
Class LocalFiles (W : Type) := {
  open_read : string -> W -> Except (list byte);
  open_write : string -> list byte -> W -> Except unit * W
}.

(** [tuf.ngclient.fetcher.FetcherInterface] *)
Class FetcherInterface (W : Type) := {
  download_bytes : string -> Z -> W -> Except (list byte) * W
}.

(** [tuf.ngclient._internal.trusted_metadata_set.TrustedMetadataSet]:
    its five updates, and the attributes this module reads:
    [root.signed.version], [root.signed.consistent_snapshot],
    [timestamp.signed.meta[key]], [snapshot.signed.meta[key]] and
    [self[role_name].signed]. *)
Class TrustedMetadataSet (W : Type) := {
  update_root : list byte -> W -> Except unit * W;
  root_update_finished : W -> Except unit * W;
  update_timestamp : list byte -> W -> Except unit * W;
  update_snapshot : list byte -> W -> Except unit * W;
  update_delegated_targets : list byte -> string -> string -> W -> Except unit * W;
  root_version : W -> Z;
  root_consistent_snapshot : W -> bool;
  timestamp_meta : string -> W -> Except MetaFile;
  snapshot_meta : string -> W -> Except MetaFile;
  trusted_targets : string -> W -> Except Targets
}.

(** ** The state-and-exception monad *)

Record state (W : Type) := State {
  world : W;
  trace : list event
}.
Arguments State {W} world trace.
Arguments world {W} s.
Arguments trace {W} s.

Inductive Res (W A : Type) : Type :=
| Ok (a : A) (s : state W)
| Raise (e : exn) (s : state W).
Arguments Ok {W A} a s.
Arguments Raise {W A} e s.

Definition M (W A : Type) : Type := state W -> Res W A.

Definition ret {W A} (a : A) : M W A := fun s => Ok a s.

Definition raise {W A} (e : exn) : M W A := fun s => Raise e s.

Definition bind {W A B} (m : M W A) (k : A -> M W B) : M W B :=
  fun s =>
    match m s with
    | Ok a s' => k a s'
    | Raise e s' => Raise e s'
    end.

Notation "x <- m ;; k" := (bind m (fun x => k))
  (at level 100, m at next level, right associativity).
Notation "m ;; k" := (bind m (fun _ => k))
  (at level 100, right associativity).

(** [try: body except <classes>: handler] *)
Definition try_except {W A} (body : M W A) (classes : exn -> bool)
    (handler : exn -> M W A) : M W A :=
  fun s =>
    match body s with
    | Ok a s' => Ok a s'
    | Raise e s' => if classes e then handler e s' else Raise e s'
    end.

(** A call that may change the world; the trace gets the call and what
    it raised. *)
Definition perform {W A} (c : call) (op : W -> Except A * W) : M W A :=
  fun s =>
    match op (world s) with
    | (Val a, w) => Ok a (State w (trace s ++ [Event c None]))
    | (Exc e, w) => Raise e (State w (trace s ++ [Event c (Some e)]))
    end.

(** Reading an attribute of the trusted set: not logged. *)
Definition attribute {W A} (read : W -> Except A) : M W A :=
  fun s =>
    match read (world s) with
    | Val a => Ok a s
    | Exc e => Raise e s
    end.

(** An exception raised by a function that touches no state. *)
Definition lift {W A} (r : Except A) : M W A :=
  fun s =>
    match r with
    | Val a => Ok a s
    | Exc e => Raise e s
    end.

(** ** Small Python idioms *)

(** [x or default] for an optional integer: [None] and [0] are falsy. *)
Definition py_or (x : option Z) (default : Z) : Z :=
  match x with
  | Some v => if (v =? 0)%Z then default else v
  | None => default
  end.

(** [range(lo, hi)] *)
Definition range (lo hi : Z) : list Z :=
  map (fun i => (lo + Z.of_nat i)%Z) (seq 0 (Z.to_nat (hi - lo))).

(** [l.pop(-1)]: the list without its last element, and that element. *)
Definition pop {A} (l : list A) : option (list A * A) :=
  match last l with
  | Some x => Some (removelast l, x)
  | None => None
  end.

(** [except (OSError, exceptions.RepositoryError)] *)
Definition is_OSError_or_RepositoryError (e : exn) : bool :=
  match e with
  | OSError | RepositoryError => true
  | _ => false
  end.

(** [except exceptions.FetcherHTTPError] *)
Definition is_FetcherHTTPError (e : exn) : bool :=
  match e with
  | FetcherHTTPError _ => true
  | _ => false
  end.

(** [except (OSError, exceptions.LengthOrHashMismatchError)] *)
Definition is_OSError_or_LengthOrHashMismatchError (e : exn) : bool :=
  match e with
  | OSError | LengthOrHashMismatchError => true
  | _ => false
  end.

(** ** The walk's local variables *)
Record WalkState := {
  target : option TargetFile;
  role_names : list (string * string);
  visited_role_names : gset (string * string);
  number_of_delegations : Z
}.

(** ** The updater *)
Section Client.

Context {W : Type}.
Context `{!LocalFiles W, !FetcherInterface W, !TrustedMetadataSet W}.

(** [urllib.parse.urljoin] and [fnmatch.fnmatch] of the standard
    library, and [TargetFile.verify_length_and_hashes] applied to the
    contents of an open file. *)
Variable urljoin : string -> string -> string.
Variable fnmatch : string -> string -> bool.
Variable verify_length_and_hashes : TargetFile -> list byte -> Except unit.

Variable self : Updater.

Definition _download_metadata (rolename : string) (length : Z)
    (version : option Z) : M W (list byte) :=
  let filename :=
    match version with
    | None => rolename +:+ ".json"
    | Some v => pretty v +:+ "." +:+ rolename +:+ ".json"
    end in
  let url := urljoin (_metadata_base_url self) filename in
  perform (DownloadBytes url length) (download_bytes url length).

Definition _load_local_metadata (rolename : string) : M W (list byte) :=
  let path := os_path_join (_dir self) (rolename +:+ ".json") in
  perform (OpenRead path) (fun w => (open_read path w, w)).

Definition _persist_metadata (rolename : string) (data : list byte)
    : M W unit :=
  let path := os_path_join (_dir self) (rolename +:+ ".json") in
  perform (OpenWrite path data) (open_write path data).

(** One round of the [for] loop of [_load_root]: [true] is [break]. *)
Definition load_root_round (next_version : Z) : M W bool :=
  try_except
    (data <- _download_metadata "root" (root_max_length (config self))
               (Some next_version) ;;
     perform (UpdateRoot data) (update_root data) ;;
     _persist_metadata "root" data ;;
     ret false)
    is_FetcherHTTPError
    (fun exception =>
       match exception with
       | FetcherHTTPError status_code =>
           if negb ((status_code =? 403)%Z || (status_code =? 404)%Z)
           then raise exception
           else ret true
       | _ => raise exception
       end).

Fixpoint load_root_loop (versions : list Z) : M W unit :=
  match versions with
  | [] => ret tt
  | next_version :: rest =>
      stop <- load_root_round next_version ;;
      if (stop : bool) then ret tt else load_root_loop rest
  end.

Definition _load_root : M W unit :=
  fun s =>
    let lower_bound := (root_version (world s) + 1)%Z in
    let upper_bound := (lower_bound + max_root_rotations (config self))%Z in
    (load_root_loop (range lower_bound upper_bound) ;;
     perform RootUpdateFinished root_update_finished) s.

(** The body of the [try] of [_load_timestamp]. *)
Definition local_timestamp : M W unit :=
  data <- _load_local_metadata "timestamp" ;;
  perform (UpdateTimestamp data) (update_timestamp data).

Definition _load_timestamp : M W unit :=
  try_except local_timestamp is_OSError_or_RepositoryError
    (fun e => ret tt) ;;
  data <- _download_metadata "timestamp"
            (timestamp_max_length (config self)) None ;;
  perform (UpdateTimestamp data) (update_timestamp data) ;;
  _persist_metadata "timestamp" data.

(** The body of the [try] of [_load_snapshot]. *)
Definition local_snapshot : M W unit :=
  data <- _load_local_metadata "snapshot" ;;
  perform (UpdateSnapshot data) (update_snapshot data).

Definition _load_snapshot : M W unit :=
  try_except local_snapshot is_OSError_or_RepositoryError
    (fun e =>
       metainfo <- attribute (timestamp_meta "snapshot.json") ;;
       let length :=
         py_or (mf_length metainfo) (snapshot_max_length (config self)) in
       fun s =>
         let version :=
           if root_consistent_snapshot (world s)
           then Some (mf_version metainfo) else None in
         (data <- _download_metadata "snapshot" length version ;;
          perform (UpdateSnapshot data) (update_snapshot data) ;;
          _persist_metadata "snapshot" data) s).

Definition _load_targets (role parent_role : string) : M W unit :=
  try_except
    (data <- _load_local_metadata role ;;
     perform (UpdateDelegatedTargets data role parent_role)
             (update_delegated_targets data role parent_role))
    is_OSError_or_RepositoryError
    (fun e =>
       metainfo <- attribute (snapshot_meta (role +:+ ".json")) ;;
       let length :=
         py_or (mf_length metainfo) (targets_max_length (config self)) in
       fun s =>
         let version :=
           if root_consistent_snapshot (world s)
           then Some (mf_version metainfo) else None in
         (data <- _download_metadata role length version ;;
          perform (UpdateDelegatedTargets data role parent_role)
                  (update_delegated_targets data role parent_role) ;;
          _persist_metadata role data) s).

Definition refresh : M W unit :=
  _load_root ;;
  _load_timestamp ;;
  _load_snapshot ;;
  _load_targets "targets" "root".

(** The [for child_role in child_roles] loop of the walk.  It threads
    the two lists it assigns to, [role_names] and
    [child_roles_to_visit]; returning from the [terminating] branch is
    the [break]. *)
Fixpoint scan_child_roles (child_roles : list DelegatedRole)
    (target_filepath role_name : string)
    (role_names child_roles_to_visit : list (string * string))
    : Except (list (string * string) * list (string * string)) :=
  match child_roles with
  | [] => Val (role_names, child_roles_to_visit)
  | child_role :: rest =>
      match _visit_child_role fnmatch child_role target_filepath with
      | Exc e => Exc e
      | Val child_role_name =>
          match child_role_name with
          | Some child_name =>
              if terminating child_role
              then Val ([], child_roles_to_visit ++ [(child_name, role_name)])
              else scan_child_roles rest target_filepath role_name role_names
                     (child_roles_to_visit ++ [(child_name, role_name)])
          | None =>
              scan_child_roles rest target_filepath role_name role_names
                child_roles_to_visit
          end
      end
  end.

(** The condition of the [while]. *)
Definition walk_cond (st : WalkState) : bool :=
  match target st with
  | None =>
      (0 <? number_of_delegations st)%Z
      && (0 <? Z.of_nat (length (role_names st)))%Z
  | Some _ => false
  end.

(** One iteration of the [while]. *)
Definition walk_body (target_filepath : string) (st : WalkState)
    : M W WalkState :=
  match pop (role_names st) with
  | None => raise (OtherError "IndexError")
  | Some (role_names', (role_name, parent_role)) =>
      _load_targets role_name parent_role ;;
      if decide ((role_name, parent_role) ∈ visited_role_names st) then
        ret {| target := target st;
               role_names := role_names';
               visited_role_names := visited_role_names st;
               number_of_delegations := number_of_delegations st |}
      else
        role_metadata <- attribute (trusted_targets role_name) ;;
        let target' := targets role_metadata !! target_filepath in
        let visited' := visited_role_names st ∪ {[ (role_name, parent_role) ]} in
        let number' := (number_of_delegations st - 1)%Z in
        let child_roles :=
          match delegations role_metadata with
          | Some d => roles d
          | None => []
          end in
        match target' with
        | None =>
            stacks <- lift (scan_child_roles child_roles target_filepath
                             role_name role_names' []) ;;
            let '(role_names'', child_roles_to_visit) := stacks in
            ret {| target := None;
                   role_names := role_names'' ++ rev child_roles_to_visit;
                   visited_role_names := visited';
                   number_of_delegations := number' |}
        | Some _ =>
            ret {| target := target';
                   role_names := role_names';
                   visited_role_names := visited';
                   number_of_delegations := number' |}
        end
  end.

(** The [while] loop, run for at most [fuel] iterations; [None] when
    the fuel runs out first. *)
Fixpoint walk_loop (fuel : nat) (target_filepath : string)
    (st : WalkState) (s : state W) : option (Res W WalkState) :=
  if walk_cond st then
    match fuel with
    | O => None
    | S fuel' =>
        match walk_body target_filepath st s with
        | Ok st' s' => walk_loop fuel' target_filepath st' s'
        | Raise e s' => Some (Raise e s')
        end
    end
  else Some (Ok st s).

Definition walk_init : WalkState :=
  {| target := None;
     role_names := [("targets", "root")];
     visited_role_names := ∅;
     number_of_delegations := max_delegations (config self) |}.

(** The walk from given values of the local variables. *)
Definition walk_from (fuel : nat) (target_filepath : string)
    (st : WalkState) (s : state W) : option (Res W TargetInfo) :=
  match walk_loop fuel target_filepath st s with
  | None => None
  | Some (Ok st' s') =>
      Some (Ok {| filepath := target_filepath; fileinfo := target st' |} s')
  | Some (Raise e s') => Some (Raise e s')
  end.

Definition _preorder_depth_first_walk (fuel : nat)
    (target_filepath : string) : state W -> option (Res W TargetInfo) :=
  walk_from fuel target_filepath walk_init.

Definition get_one_valid_targetinfo (fuel : nat) (target_path : string)
    : state W -> option (Res W TargetInfo) :=
  _preorder_depth_first_walk fuel target_path.

(** [with open(target_filepath, "rb") as target_file:
      target_fileinfo.verify_length_and_hashes(target_file)];
    calling the method on [None] raises [AttributeError]. *)
Definition check_target_file (target_filepath : string)
    (target_fileinfo : option TargetFile) : M W unit :=
  target_file <- perform (OpenRead target_filepath)
                   (fun w => (open_read target_filepath w, w)) ;;
  match target_fileinfo with
  | Some fi => lift (verify_length_and_hashes fi target_file)
  | None => raise (OtherError "AttributeError")
  end.

(** The [for target in targets] loop of [updated_targets], threading
    the two lists it appends to. *)
Fixpoint updated_targets_loop (targets : list TargetInfo)
    (destination_directory : string)
    (updated : list TargetInfo) (updated_targetpaths : list string)
    : M W (list TargetInfo) :=
  match targets with
  | [] => ret updated
  | target :: rest =>
      let target_filepath :=
        os_path_join destination_directory (filepath target) in
      if decide (target_filepath ∈ updated_targetpaths) then
        updated_targets_loop rest destination_directory updated
          updated_targetpaths
      else
        changed <- try_except
                     (check_target_file target_filepath (fileinfo target) ;;
                      ret false)
                     is_OSError_or_LengthOrHashMismatchError
                     (fun e => ret true) ;;
        if (changed : bool) then
          updated_targets_loop rest destination_directory
            (updated ++ [target]) (updated_targetpaths ++ [target_filepath])
        else
          updated_targets_loop rest destination_directory updated
            updated_targetpaths
  end.

Definition updated_targets (targets : list TargetInfo)
    (destination_directory : string) : M W (list TargetInfo) :=
  updated_targets_loop targets destination_directory [] [].

End Client.

(** The state after [n] iterations of the [while] (fewer when the
    condition fails first): used to name the states a run goes through. *)
Fixpoint walk_steps {W : Type}
    `{!LocalFiles W, !FetcherInterface W, !TrustedMetadataSet W}
    (urljoin : string -> string -> string) (fnmatch : string -> string -> bool)
    (self : Updater) (n : nat) (target_filepath : string) (st : WalkState)
    : M W WalkState :=
  match n with
  | O => ret st
  | S n' =>
      if walk_cond st then
        st' <- walk_body urljoin fnmatch self target_filepath st ;;
        walk_steps urljoin fnmatch self n' target_filepath st'
      else ret st
  end.

(** The children a role's metadata declares ([child_roles] in the walk). *)
Definition child_roles_of (md : Targets) : list DelegatedRole :=
  match delegations md with
  | Some d => roles d
  | None => []
  end.

(** The pairs queued for those children of a list that are authorized
    for the target path, in declared order. *)
Definition authorized_pairs (fnmatch : string -> string -> bool)
    (target_filepath role_name : string) (children : list DelegatedRole)
    : list (string * string) :=
  omap (fun c => match _visit_child_role fnmatch c target_filepath with
                 | Val (Some child_name) => Some (child_name, role_name)
                 | _ => None
                 end) children.

(** A child the scan goes past: it is examined without error and is
    not both authorized and terminating. *)
Definition scan_passes (fnmatch : string -> string -> bool)
    (target_filepath : string) (c : DelegatedRole) : Prop :=
  match _visit_child_role fnmatch c target_filepath with
  | Val (Some _) => terminating c = false
  | Val None => True
  | Exc _ => False
  end.

(** The state a result carries, and the events a run added to a trace. *)
Definition res_state {W A} (r : Res W A) : state W :=
  match r with
  | Ok _ s => s
  | Raise _ s => s
  end.

(** The value a result carries, [d] when it is an exception. *)
Definition res_value {W A} (d : A) (r : Res W A) : A :=
  match r with
  | Ok a _ => a
  | Raise _ _ => d
  end.

(** The requests made to the fetcher, in order. *)
Definition downloads (evs : list event) : list (string * Z) :=
  omap (fun e => match ev_call e with
                 | DownloadBytes url len => Some (url, len)
                 | _ => None
                 end) evs.

(** ** What the rotation loop of [_load_root] is meant to do *)

(** The exceptions the handler of [_load_root] takes as the end of the
    rotation. *)
Definition not_found (e : exn) : Prop :=
  e = FetcherHTTPError 403 \/ e = FetcherHTTPError 404.

(** What becomes of a round in which a call raised [e]. *)
Definition round_after_exception {W : Type}
    `{!LocalFiles W, !FetcherInterface W, !TrustedMetadataSet W}
    (urljoin : string -> string -> string) (self : Updater)
    (v : Z) (s : state W) (e : exn) : Prop :=
  (not_found e /\ exists s', load_root_round urljoin self v s = Ok true s')
  \/ (~ not_found e
      /\ exists s', load_root_round urljoin self v s = Raise e s').

(** The events of the rotation loop over [versions]: the versions
    fetched are a prefix of [versions]; a call that raises is the last
    one, and the handler decides the outcome; an accepted root is
    written at once. *)
Definition rotation_spec {W : Type}
    `{!LocalFiles W, !FetcherInterface W, !TrustedMetadataSet W}
    (urljoin : string -> string -> string) (self : Updater)
    (versions : list Z) (s : state W) : Prop :=
  exists evs,
    trace (res_state (load_root_loop urljoin self versions s)) = trace s ++ evs
    /\ (exists k,
          k <= length versions
          /\ downloads evs
             = map (fun v =>
                      (urljoin (_metadata_base_url self)
                         (pretty v +:+ "." +:+ "root" +:+ ".json"),
                       root_max_length (config self)))
                   (take k versions))
    /\ (forall i c e,
          evs !! i = Some (Event c (Some e)) ->
          drop (S i) evs = []
          /\ (not_found e ->
              exists s', load_root_loop urljoin self versions s = Ok tt s')
          /\ (~ not_found e ->
              exists s', load_root_loop urljoin self versions s = Raise e s'))
    /\ (forall i d,
          evs !! i = Some (Event (UpdateRoot d) None) ->
          exists x,
            evs !! (S i)
            = Some (Event (OpenWrite (os_path_join (_dir self)
                                        ("root" +:+ ".json")) d) x))
    /\ Forall (fun e => ev_call e <> RootUpdateFinished) evs
    /\ ((forall i c e, evs !! i <> Some (Event c (Some e))) ->
        exists s', load_root_loop urljoin self versions s = Ok tt s').

(** The three calls of a round of [_load_root] in which the root [d]
    is fetched as version [v], accepted and written. *)
Definition accepted_round (urljoin : string -> string -> string)
    (self : Updater) (v : Z) (d : list byte) : list event :=
  [Event (DownloadBytes
            (urljoin (_metadata_base_url self)
               (pretty v +:+ "." +:+ "root" +:+ ".json"))
            (root_max_length (config self))) None;
   Event (UpdateRoot d) None;
   Event (OpenWrite (os_path_join (_dir self) ("root" +:+ ".json")) d) None].

(** The rounds that accept the roots [ds] as the versions [v], [v+1],
    ... one after the other. *)
Fixpoint accepted_rounds (urljoin : string -> string -> string)
    (self : Updater) (v : Z) (ds : list (list byte)) : list event :=
  match ds with
  | [] => []
  | d :: ds' =>
      accepted_round urljoin self v d
      ++ accepted_rounds urljoin self (v + 1) ds'
  end.

(** The calls of a round for version [v] in which a call raised [e]:
    the fetch; or [update_root] on the root fetched; or the write of
    the root accepted. *)
Definition stopped_round (urljoin : string -> string -> string)
    (self : Updater) (v : Z) (e : exn) (evs : list event) : Prop :=
  let request :=
    DownloadBytes
      (urljoin (_metadata_base_url self)
         (pretty v +:+ "." +:+ "root" +:+ ".json"))
      (root_max_length (config self)) in
  evs = [Event request (Some e)]
  \/ (exists d, evs = [Event request None; Event (UpdateRoot d) (Some e)])
  \/ (exists d,
        evs = [Event request None; Event (UpdateRoot d) None;
               Event (OpenWrite (os_path_join (_dir self) ("root" +:+ ".json")) d)
                 (Some e)]).

(** The roots [ds] are what the fetcher returns for the versions [v],
    [v+1], ... asked for one after the other from the world [w]: each
    one is accepted by [update_root] and written to the local directory
    before the next is asked for. *)
Fixpoint fetched_in_turn {W : Type}
    `{!LocalFiles W, !FetcherInterface W, !TrustedMetadataSet W}
    (urljoin : string -> string -> string) (self : Updater)
    (v : Z) (ds : list (list byte)) (w : W) : Prop :=
  match ds with
  | [] => True
  | d :: ds' =>
      exists w1 w2 w3,
        download_bytes
          (urljoin (_metadata_base_url self)
             (pretty v +:+ "." +:+ "root" +:+ ".json"))
          (root_max_length (config self)) w = (Val d, w1)
        /\ update_root d w1 = (Val tt, w2)
        /\ open_write (os_path_join (_dir self) ("root" +:+ ".json")) d w2
           = (Val tt, w3)
        /\ fetched_in_turn urljoin self (v + 1) ds' w3
  end.

(** ** What [updated_targets] is meant to return *)

(** The outcome of opening the file of [t] under the destination
    directory and checking it against the fileinfo of [t]. *)
Definition check_outcome {W : Type} `{!LocalFiles W}
    (verify_length_and_hashes : TargetFile -> list byte -> Except unit)
    (w : W) (destination_directory : string) (t : TargetInfo) : Except unit :=
  match open_read (os_path_join destination_directory (filepath t)) w with
  | Exc e => Exc e
  | Val data =>
      match fileinfo t with
      | Some fi => verify_length_and_hashes fi data
      | None => Exc (OtherError "AttributeError")
      end
  end.

(** The file is missing or unreadable, or fails the length-and-hashes
    check. *)
Definition needs_update {W : Type} `{!LocalFiles W}
    (verify_length_and_hashes : TargetFile -> list byte -> Except unit)
    (w : W) (destination_directory : string) (t : TargetInfo) : bool :=
  match check_outcome verify_length_and_hashes w destination_directory t with
  | Exc e => is_OSError_or_LengthOrHashMismatchError e
  | Val _ => false
  end.

(** The check of [t] raises nothing that [updated_targets] lets through. *)
Definition check_is_caught {W : Type} `{!LocalFiles W}
    (verify_length_and_hashes : TargetFile -> list byte -> Except unit)
    (w : W) (destination_directory : string) (t : TargetInfo) : Prop :=
  match check_outcome verify_length_and_hashes w destination_directory t with
  | Exc e => is_OSError_or_LengthOrHashMismatchError e = true
  | Val _ => True
  end.

Definition destination (destination_directory : string) (t : TargetInfo)
    : string :=
  os_path_join destination_directory (filepath t).

(** The first target at each destination path not in [seen]. *)
Fixpoint first_per_path (destination_directory : string) (seen : list string)
    (ts : list TargetInfo) : list TargetInfo :=
  match ts with
  | [] => []
  | t :: rest =>
      if decide (destination destination_directory t ∈ seen)
      then first_per_path destination_directory seen rest
      else t :: first_per_path destination_directory
                  (seen ++ [destination destination_directory t]) rest
  end.

(** The spec's [filter_updated]: the targets that need an update, one
    per destination path. *)
Definition filter_updated {W : Type} `{!LocalFiles W}
    (verify_length_and_hashes : TargetFile -> list byte -> Except unit)
    (w : W) (destination_directory : string) (targets : list TargetInfo)
    : list TargetInfo :=
  first_per_path destination_directory []
    (filter (fun t => needs_update verify_length_and_hashes w
                        destination_directory t = true) targets).

(** ** The rest of the module: [download_target] and [__init__] *)

(** The calls of [download_target] that leave the module:
    [FetcherInterface.download_file], whose temporary file is held by
    its contents, and [securesystemslib.util.persist_temp_file]. *)
Class TargetFiles (W : Type) := {
  download_file : string -> Z -> W -> Except (list byte) * W;
  persist_temp_file : list byte -> string -> W -> Except unit * W
}.

(** The constructor [TrustedMetadataSet(data)]. *)
Class TrustedSetFactory (W : Type) := {
  new_trusted_set : list byte -> W -> Except unit * W
}.

(** A call that may change the world and is not logged. *)
Definition effect {W A} (op : W -> Except A * W) : M W A :=
  fun s =>
    match op (world s) with
    | (Val a, w) => Ok a (State w (trace s))
    | (Exc e, w) => Raise e (State w (trace s))
    end.

(** [except exceptions.LengthOrHashMismatchError] *)
Definition is_LengthOrHashMismatchError (e : exn) : bool :=
  match e with
  | LengthOrHashMismatchError => true
  | _ => false
  end.

Section Construction.

Context {W : Type}.
Context `{!LocalFiles W, !TargetFiles W, !TrustedSetFactory W}.

Variable urljoin : string -> string -> string.
Variable verify_length_and_hashes : TargetFile -> list byte -> Except unit.

(** [UpdaterConfig()] with the defaults of [tuf.ngclient.config]. *)
Variable default_config : UpdaterConfig.

(** [Updater.__init__]; the choice of the fetcher stays in the world. *)
Definition __init__ (repository_dir metadata_base_url : string)
    (target_base_url : option string) (config : option UpdaterConfig)
    : M W Updater :=
  let self :=
    {| _dir := repository_dir;
       _metadata_base_url := _ensure_trailing_slash metadata_base_url;
       _target_base_url :=
         match target_base_url with
         | None => None
         | Some url => Some (_ensure_trailing_slash url)
         end;
       config :=
         match config with
         | Some c => c
         | None => default_config
         end |} in
  data <- _load_local_metadata self "root" ;;
  effect (new_trusted_set data) ;;
  ret self.

Definition download_target (self : Updater) (targetinfo : TargetInfo)
    (destination_directory : string) (target_base_url : option string)
    : M W unit :=
  base <- match target_base_url, _target_base_url self with
          | None, None => raise (OtherError "ValueError")
          | None, Some own => ret own
          | Some given, _ => ret (_ensure_trailing_slash given)
          end ;;
  let target_filepath := filepath targetinfo in
  let target_fileinfo := fileinfo targetinfo in
  let full_url := urljoin base target_filepath in
  match target_fileinfo with
  | None => raise (OtherError "AttributeError")
  | Some fi =>
      target_file <- effect (download_file full_url (tf_length fi)) ;;
      try_except (lift (verify_length_and_hashes fi target_file))
        is_LengthOrHashMismatchError
        (fun e => raise RepositoryError) ;;
      let filepath := os_path_join destination_directory target_filepath in
      effect (persist_temp_file target_file filepath)
  end.

End Construction.

(** ** Properties of traces *)

(** The call [c] accepted the bytes [d] as the metadata of [rolename]. *)
Definition accepted_as (c : call) (rolename : string) (d : list byte) : Prop :=
  match c with
  | UpdateRoot d' => rolename = "root" /\ d' = d
  | UpdateTimestamp d' => rolename = "timestamp" /\ d' = d
  | UpdateSnapshot d' => rolename = "snapshot" /\ d' = d
  | UpdateDelegatedTargets d' role _ => rolename = role /\ d' = d
  | _ => False
  end.

(** Every write to the local directory follows at once the call that
    accepted the same bytes, and goes to the file of that role. *)
Definition writes_follow_acceptance (dir : string) (evs : list event) : Prop :=
  forall i path d x,
    evs !! i = Some (Event (OpenWrite path d) x) ->
    exists j c rolename,
      i = S j
      /\ evs !! j = Some (Event c None)
      /\ accepted_as c rolename d
      /\ path = os_path_join dir (rolename +:+ ".json").

(** Every write to the local directory follows at once a call of
    [update_delegated_targets] that accepted the same bytes, and goes to
    the file of the role they were accepted for. *)
Definition writes_follow_targets_acceptance (dir : string)
    (evs : list event) : Prop :=
  forall i path d x,
    evs !! i = Some (Event (OpenWrite path d) x) ->
    exists j rolename parent,
      i = S j
      /\ evs !! j
         = Some (Event (UpdateDelegatedTargets d rolename parent) None)
      /\ path = os_path_join dir (rolename +:+ ".json").

(** What a computation adds to the trace satisfies [P]. *)
Definition emits {W A} (P : list event -> Prop) (m : M W A) : Prop :=
  forall s, exists evs, trace (res_state (m s)) = trace s ++ evs /\ P evs.


(** The calls [cs] returned without an exception, in this order,
    among the events [evs]. *)
Definition accepted_in_order (cs : list call) (evs : list event) : Prop :=
  ((fun c => Event c None) <$> cs) `sublist_of` evs.

(** At most [n] requests to the fetcher. *)
Definition at_most_fetches (n : nat) (evs : list event) : Prop :=
  length (downloads evs) <= n.

(** ** A small repository to run the updater on

    Documents are looked up in a table instead of being parsed and
    verified: [codec] says what a byte string means once its signatures
    are accepted.  The remote answers from a table as well; a URL it
    does not list is answered with HTTP 404. *)
Module Toy.

Inductive doc : Type :=
| RootDoc (version : Z) (consistent_snapshot : bool)
| TimestampDoc (snapshot_ref : MetaFile)
| SnapshotDoc (meta : list (string * MetaFile))
| TargetsDoc (t : Targets).

Record world := World {
  disk : list (string * list byte);
  remote : list (string * Except (list byte));
  codec : list (list byte * doc);
  t_root : Z * bool;
  t_timestamp : option MetaFile;
  t_snapshot : option (list (string * MetaFile));
  t_targets : list (string * Targets)
}.

Fixpoint assoc {A B} `{EqDecision A} (k : A) (l : list (A * B)) : option B :=
  match l with
  | [] => None
  | (k', v) :: rest => if decide (k = k') then Some v else assoc k rest
  end.

Definition bytes (s : string) : list byte := String.list_byte_of_string s.

Definition set_disk (d : list (string * list byte)) (w : world) : world :=
  World d (remote w) (codec w) (t_root w) (t_timestamp w) (t_snapshot w)
    (t_targets w).

Global Instance files : LocalFiles world := {
  open_read path w :=
    match assoc path (disk w) with
    | Some data => Val data
    | None => Exc OSError
    end;
  open_write path data w := (Val tt, set_disk ((path, data) :: disk w) w)
}.

Global Instance fetcher : FetcherInterface world := {
  download_bytes url len w :=
    match assoc url (remote w) with
    | Some (Val data) =>
        if (Z.of_nat (length data) <=? len)%Z then (Val data, w)
        else (Exc (OtherError "DownloadLengthMismatchError"), w)
    | Some (Exc e) => (Exc e, w)
    | None => (Exc (FetcherHTTPError 404), w)
    end
}.

Global Instance trusted : TrustedMetadataSet world := {
  update_root data w :=
    match assoc data (codec w) with
    | Some (RootDoc v cs) =>
        if (v =? fst (t_root w) + 1)%Z
        then (Val tt, World (disk w) (remote w) (codec w) (v, cs)
                        (t_timestamp w) (t_snapshot w) (t_targets w))
        else (Exc RepositoryError, w)
    | _ => (Exc RepositoryError, w)
    end;
  root_update_finished w := (Val tt, w);
  update_timestamp data w :=
    match assoc data (codec w) with
    | Some (TimestampDoc ref) =>
        (Val tt, World (disk w) (remote w) (codec w) (t_root w)
                   (Some ref) (t_snapshot w) (t_targets w))
    | _ => (Exc RepositoryError, w)
    end;
  update_snapshot data w :=
    match assoc data (codec w), t_timestamp w with
    | Some (SnapshotDoc meta), Some _ =>
        (Val tt, World (disk w) (remote w) (codec w) (t_root w)
                   (t_timestamp w) (Some meta) (t_targets w))
    | _, _ => (Exc RepositoryError, w)
    end;
  update_delegated_targets data role parent w :=
    match assoc data (codec w) with
    | Some (TargetsDoc t) =>
        (Val tt, World (disk w) (remote w) (codec w) (t_root w)
                   (t_timestamp w) (t_snapshot w) ((role, t) :: t_targets w))
    | _ => (Exc RepositoryError, w)
    end;
  root_version w := fst (t_root w);
  root_consistent_snapshot w := snd (t_root w);
  timestamp_meta key w :=
    match t_timestamp w with
    | Some ref =>
        if String.eqb key "snapshot.json" then Val ref
        else Exc (OtherError "KeyError")
    | None => Exc (OtherError "AttributeError")
    end;
  snapshot_meta key w :=
    match t_snapshot w with
    | Some meta =>
        match assoc key meta with
        | Some mf => Val mf
        | None => Exc (OtherError "KeyError")
        end
    | None => Exc (OtherError "AttributeError")
    end;
  trusted_targets role w :=
    match assoc role (t_targets w) with
    | Some t => Val t
    | None => Exc (OtherError "KeyError")
    end
}.

(** [urljoin] of a base that ends in a slash and a plain file name. *)
Definition urljoin (base filename : string) : string := base +:+ filename.

(** [fnmatch] for patterns made of literal characters, [*] and [?]. *)
Fixpoint glob (pat : string) : string -> bool :=
  match pat with
  | EmptyString => fun s => match s with EmptyString => true | _ => false end
  | String c pat' =>
      if Ascii.eqb c "*" then
        fix star (s : string) : bool :=
          glob pat' s
          || match s with
             | EmptyString => false
             | String _ s' => star s'
             end
      else if Ascii.eqb c "?" then
        fun s => match s with
                 | EmptyString => false
                 | String _ s' => glob pat' s'
                 end
      else
        fun s => match s with
                 | EmptyString => false
                 | String d s' => Ascii.eqb c d && glob pat' s'
                 end
  end.

Definition fnmatch (name pat : string) : bool := glob pat name.

(** Length first, then every listed hash; only sha256 is known. *)
Definition verify (fi : TargetFile) (data : list byte) : Except unit :=
  if negb (Z.of_nat (length data) =? tf_length fi)%Z
  then Exc LengthOrHashMismatchError
  else if forallb (fun h => String.eqb (fst h) "sha256"
                            && String.eqb (snd h) (Sha256.hexdigest data))
                  (tf_hashes fi)
       then Val tt
       else Exc LengthOrHashMismatchError.

Definition cfg : UpdaterConfig :=
  {| max_root_rotations := 32;
     max_delegations := 32;
     root_max_length := 512000;
     timestamp_max_length := 16384;
     snapshot_max_length := 2000000;
     targets_max_length := 5000000 |}.

Definition updater : Updater :=
  {| _dir := "/meta";
     _metadata_base_url := "https://repo/metadata/";
     _target_base_url := None;
     config := cfg |}.

Definition start (w : world) : state world := State w [].

End Toy.

(** ** Repositories used in examples *)
Module Scenario.
Import Toy.

Definition role_file (role : string) : string := "/meta/" +:+ role +:+ ".json".

(** Every listed role has a valid copy in the local directory; the file
    of role [r] holds the bytes of the name [r]. *)
Definition local_repo (docs : list (string * Targets)) : world :=
  World (map (fun d => (role_file (fst d), bytes (fst d))) docs)
        []
        (map (fun d => (bytes (fst d), TargetsDoc (snd d))) docs)
        (1%Z, false) None None [].

Definition delegated (role_name : string) (is_terminating : bool)
    (patterns : list string) : DelegatedRole :=
  {| name := role_name; terminating := is_terminating;
     paths := Some patterns; path_hash_prefixes := None |}.

Definition bin_role : DelegatedRole :=
  {| name := "bin-0"; terminating := false; paths := None;
     path_hash_prefixes := Some ["00"; "01"] |}.

Definition bare_role : DelegatedRole :=
  {| name := "bare"; terminating := false; paths := None;
     path_hash_prefixes := None |}.

Definition fi_abc : TargetFile :=
  {| tf_length := 3;
     tf_hashes :=
       [("sha256",
         "ba7816bf8f01cfea414140de5dae2223b00361a396177a9cb410ff61f20015ad")] |}.

Definition fi_other : TargetFile :=
  {| tf_length := 5;
     tf_hashes :=
       [("sha256",
         "e3b0c44298fc1c149afbf4c8996fb92427ae41e4649b934ca495991b7852b855")] |}.

Definition leaf (ts : gmap string TargetFile) : Targets :=
  {| targets := ts; delegations := None |}.

Definition delegating (ts : gmap string TargetFile)
    (children : list DelegatedRole) : Targets :=
  {| targets := ts; delegations := Some {| roles := children |} |}.

(** [targets] declares ["a.txt"] itself and delegates it to [B] too. *)
Definition priority : world :=
  local_repo
    [ ("targets", delegating {[ "a.txt" := fi_abc ]} [delegated "B" false ["a.txt"]]);
      ("B", leaf {[ "a.txt" := fi_other ]}) ].

(** [targets] delegates ["*.txt"] to the terminating [C], which claims
    nothing, and then to [D], which claims ["x.txt"]. *)
Definition truncated : world :=
  local_repo
    [ ("targets", delegating ∅ [delegated "C" true ["*.txt"];
                                delegated "D" false ["*.txt"]]);
      ("C", leaf ∅);
      ("D", leaf {[ "x.txt" := fi_abc ]}) ].

(** As [truncated], with a sibling [A] declared before [C] that is
    authorized as well and claims ["x.txt"]. *)
Definition earlier_sibling : world :=
  local_repo
    [ ("targets", delegating ∅ [delegated "A" false ["*.txt"];
                                delegated "C" true ["*.txt"];
                                delegated "D" false ["*.txt"]]);
      ("A", leaf {[ "x.txt" := fi_other ]});
      ("C", leaf ∅);
      ("D", leaf {[ "x.txt" := fi_abc ]}) ].

(** As [truncated], but the terminating [C] delegates ["*.txt"] to [E],
    which claims ["x.txt"]. *)
Definition terminator_delegates : world :=
  local_repo
    [ ("targets", delegating ∅ [delegated "C" true ["*.txt"];
                                delegated "D" false ["*.txt"]]);
      ("C", delegating ∅ [delegated "E" false ["*.txt"]]);
      ("D", leaf {[ "x.txt" := fi_abc ]});
      ("E", leaf {[ "x.txt" := fi_other ]}) ].

(** [targets] delegates to [P] and [Q], [Q] delegates to [P] again and
    [P] to [X]; nobody claims ["x.txt"].  The pair (X, P) is pushed
    twice. *)
Definition diamond : world :=
  local_repo
    [ ("targets", delegating ∅ [delegated "P" false ["*"];
                                delegated "Q" false ["*"]]);
      ("P", delegating ∅ [delegated "X" false ["*"]]);
      ("Q", delegating ∅ [delegated "P" false ["*"]]);
      ("X", leaf ∅) ].

(** The trusted root is version 1; the remote has versions 2 and 3 and
    answers 404 for version 4. *)
Definition rotating : world :=
  World [] [("https://repo/metadata/2.root.json", Val (bytes "root-v2"));
            ("https://repo/metadata/3.root.json", Val (bytes "root-v3"))]
        [(bytes "root-v2", RootDoc 2 false); (bytes "root-v3", RootDoc 3 true)]
        (1%Z, false) None None [].

(** The remote answers 500 for version 2. *)
Definition broken_remote : world :=
  World [] [("https://repo/metadata/2.root.json", Exc (FetcherHTTPError 500))]
        [] (1%Z, false) None None [].

(** A first run: no timestamp in the local directory, one on the remote. *)
Definition first_run : world :=
  World [] [("https://repo/metadata/timestamp.json", Val (bytes "ts-5"))]
        [(bytes "ts-5", TimestampDoc {| mf_version := 5; mf_length := None |})]
        (1%Z, false) None None [].

(** No local snapshot; the accepted timestamp refers to snapshot
    version 3 with the given length. *)
Definition snapshot_wanted (consistent : bool) (len : option Z) : world :=
  World [] [("https://repo/metadata/snapshot.json", Val (bytes "snap-3"));
            ("https://repo/metadata/3.snapshot.json", Val (bytes "snap-3"))]
        [(bytes "snap-3", SnapshotDoc [])]
        (1%Z, consistent)
        (Some {| mf_version := 3; mf_length := len |}) None [].

(** A valid snapshot in the local directory. *)
Definition snapshot_cached : world :=
  World [("/meta/snapshot.json", bytes "snap-3")]
        [("https://repo/metadata/snapshot.json", Val (bytes "snap-3"))]
        [(bytes "snap-3", SnapshotDoc [])]
        (1%Z, false)
        (Some {| mf_version := 3; mf_length := None |}) None [].

(** A destination directory that holds [a.txt] with contents ["abc"]. *)
Definition downloaded : world :=
  World [("/dest/a.txt", bytes "abc")] [] [] (1%Z, false) None None [].

Definition t_fresh : TargetInfo :=
  {| filepath := "a.txt"; fileinfo := Some fi_abc |}.
Definition t_missing : TargetInfo :=
  {| filepath := "b.txt"; fileinfo := Some fi_abc |}.
Definition t_changed : TargetInfo :=
  {| filepath := "a.txt"; fileinfo := Some fi_other |}.

(** The walk for ["x.txt"] in [diamond], stopped before its sixth pop,
    and that sixth iteration. *)
Definition diamond_five_pops : Res world WalkState :=
  walk_steps urljoin fnmatch updater 5 "x.txt" (walk_init updater)
    (start diamond).

Definition diamond_sixth_pop : Res world WalkState :=
  walk_body urljoin fnmatch updater "x.txt"
    (res_value (walk_init updater) diamond_five_pops)
    (res_state diamond_five_pops).

(** The first iteration of the walk for ["x.txt"] in [earlier_sibling]. *)
Definition earlier_sibling_first_pop : Res world WalkState :=
  walk_body urljoin fnmatch updater "x.txt" (walk_init updater)
    (start earlier_sibling).

(** Loading a role from the local directory of a repository. *)
Definition loaded (role parent : string) (s : state world) : state world :=
  res_state (_load_targets urljoin updater role parent s).

End Scenario.

(** ** The example repository, for [download_target] and [__init__] *)
Module ToyTargets.
Import Toy.

Global Instance target_files : TargetFiles world := {
  download_file url len w :=
    match assoc url (remote w) with
    | Some (Val data) =>
        if (Z.of_nat (length data) <=? len)%Z then (Val data, w)
        else (Exc (OtherError "DownloadLengthMismatchError"), w)
    | Some (Exc e) => (Exc e, w)
    | None => (Exc (FetcherHTTPError 404), w)
    end;
  persist_temp_file data path w := (Val tt, set_disk ((path, data) :: disk w) w)
}.

Global Instance factory : TrustedSetFactory world := {
  new_trusted_set data w :=
    match assoc data (codec w) with
    | Some (RootDoc v cs) =>
        (Val tt, World (disk w) (remote w) (codec w) (v, cs) None None [])
    | _ => (Exc RepositoryError, w)
    end
}.

(** An updater whose constructor was given a base URL for targets. *)
Definition updater : Updater :=
  {| _dir := "/meta";
     _metadata_base_url := "https://repo/metadata/";
     _target_base_url := Some "https://repo/targets/";
     config := cfg |}.

(** The remote serves [a.txt] with contents ["abc"] (and [b.txt] with
    other contents than its fileinfo says); nothing is downloaded yet. *)
Definition target_server : world :=
  World [] [("https://repo/targets/a.txt", Val (bytes "abc"));
            ("https://repo/targets/b.txt", Val (bytes "abd"))]
        [] (1%Z, false) None None [].

(** A local directory with a root the constructor accepts. *)
Definition installed : world :=
  World [("/meta/root.json", bytes "root-v1")] []
        [(bytes "root-v1", RootDoc 1 false)] (0%Z, false) None None [].

End ToyTargets.

(** ** More repositories used in examples *)
Module Deployment.
Import Toy Scenario.

(** Nothing is cached: [targets] and the delegated [B] are listed in
    the accepted snapshot and served by the remote; [B] claims
    ["a.txt"]. *)
Definition remote_repo : world :=
  World []
        [("https://repo/metadata/targets.json", Val (bytes "targets-1"));
         ("https://repo/metadata/B.json", Val (bytes "B-1"))]
        [(bytes "targets-1",
          TargetsDoc (delegating ∅ [delegated "B" false ["*.txt"]]));
         (bytes "B-1", TargetsDoc (leaf {[ "a.txt" := fi_abc ]}))]
        (1%Z, false)
        (Some {| mf_version := 1; mf_length := None |})
        (Some [("targets.json", {| mf_version := 1; mf_length := None |});
               ("B.json", {| mf_version := 1; mf_length := Some 100%Z |})])
        [].

Definition remote_walk : option (Res world TargetInfo) :=
  get_one_valid_targetinfo urljoin fnmatch updater 10 "a.txt"
    (start remote_repo).

(** The result of a walk, [d] when the fuel ran out. *)
Definition finished {A} (d : Res world A) (r : option (Res world A))
    : Res world A :=
  match r with
  | Some x => x
  | None => d
  end.

Definition out_of_fuel {A} (w : world) : Res world A := Raise OSError (start w).

(** An updater with a delegation budget of one. *)
Definition frugal : Updater :=
  {| _dir := "/meta";
     _metadata_base_url := "https://repo/metadata/";
     _target_base_url := None;
     config :=
       {| max_root_rotations := 32; max_delegations := 1;
          root_max_length := 512000; timestamp_max_length := 16384;
          snapshot_max_length := 2000000; targets_max_length := 5000000 |} |}.

(** An updater that advances the root by at most two versions. *)
Definition two_rotations : Updater :=
  {| _dir := "/meta";
     _metadata_base_url := "https://repo/metadata/";
     _target_base_url := None;
     config :=
       {| max_root_rotations := 2; max_delegations := 32;
          root_max_length := 512000; timestamp_max_length := 16384;
          snapshot_max_length := 2000000; targets_max_length := 5000000 |} |}.

(** The loop of the walk for ["x.txt"] in [diamond]. *)
Definition diamond_loop : Res world WalkState :=
  finished (out_of_fuel diamond)
    (walk_loop urljoin fnmatch updater 10 "x.txt" (walk_init updater)
       (start diamond)).

Definition t_unresolved : TargetInfo :=
  {| filepath := "b.txt"; fileinfo := None |}.

(** A first run against a remote that serves every role and the
    target ["a.txt"]: nothing is cached. *)
Definition whole_repo : world :=
  World []
        [("https://repo/metadata/timestamp.json", Val (bytes "ts-5"));
         ("https://repo/metadata/snapshot.json", Val (bytes "snap-3"));
         ("https://repo/metadata/targets.json", Val (bytes "targets-1"));
         ("https://repo/metadata/B.json", Val (bytes "B-1"));
         ("https://repo/targets/a.txt", Val (bytes "abc"))]
        [(bytes "ts-5", TimestampDoc {| mf_version := 3; mf_length := None |});
         (bytes "snap-3",
          SnapshotDoc
            [("targets.json", {| mf_version := 1; mf_length := None |});
             ("B.json", {| mf_version := 1; mf_length := None |})]);
         (bytes "targets-1",
          TargetsDoc (delegating ∅ [delegated "B" false ["*.txt"]]));
         (bytes "B-1", TargetsDoc (leaf {[ "a.txt" := fi_abc ]}))]
        (1%Z, false) None None [].

Definition refreshed : Res world unit :=
  refresh urljoin ToyTargets.updater (start whole_repo).

End Deployment.

Example sha256_empty :
  Sha256.hexdigest [] =
  "e3b0c44298fc1c149afbf4c8996fb92427ae41e4649b934ca495991b7852b855".
Proof. vm_compute. reflexivity. Qed.

Example sha256_abc :
  Sha256.hexdigest (String.list_byte_of_string "abc") =
  "ba7816bf8f01cfea414140de5dae2223b00361a396177a9cb410ff61f20015ad".
Proof. vm_compute. reflexivity. Qed.

Example sha256_two_blocks :
  Sha256.hexdigest
    (String.list_byte_of_string
       "abcdbcdecdefdefgefghfghighijhijkijkljklmklmnlmnomnopnopq") =
  "248d6a61d20638b8e5c026930c3e6039a33ce45964ff2167f6ecedd419db06c1".
Proof. vm_compute. reflexivity. Qed.

Example filepath_hash_file321 :
  _get_filepath_hash "file321.txt" =
  "00532d7c6b609b42a26adfa2b345e4aa8317462a1b1657bacf9430753ebdea67".
Proof. vm_compute. reflexivity. Qed.

Example sha256_utf8_path :
  _get_filepath_hash "pkg/é.tgz" =
  "3f3ebc4817cd37448e4df3944837f785c0ffd323145b00231d4720ba8f711a5f".
Proof. vm_compute. reflexivity. Qed.

Example os_path_join_relative : os_path_join "/dest" "a/b.txt" = "/dest/a/b.txt".
Proof. reflexivity. Qed.

Example os_path_join_slash : os_path_join "/dest/" "b.txt" = "/dest/b.txt".
Proof. reflexivity. Qed.

Example os_path_join_absolute : os_path_join "/dest" "/etc/b.txt" = "/etc/b.txt".
Proof. reflexivity. Qed.

Example lstrip_leading_separators : lstrip "//a/b" os_sep = "a/b".
Proof. reflexivity. Qed.

Example fnmatch_star : Toy.fnmatch "foo.tgz" "*.tgz" = true.
Proof. reflexivity. Qed.

Example pop_last_pair : pop [1; 2; 3] = Some ([1; 2], 3).
Proof. reflexivity. Qed.

Example range_three : range 2 5 = [2; 3; 4]%Z.
Proof. reflexivity. Qed.

Example versioned_filename : pretty 12%Z +:+ "." +:+ "root" +:+ ".json" = "12.root.json".
Proof. vm_compute. reflexivity. Qed.

(** * The digest *)

Module Sha256Facts.
Import Sha256.
Local Open Scope Z_scope.

Lemma hex_digit_lower (y : Z) : is_lower_hex (hex_digit (Z.land y 0xf)) = true.
Proof.
  change 0xf with (Z.ones 4). rewrite Z.land_ones by lia.
  pose proof (Z.mod_pos_bound y (2 ^ 4) ltac:(lia)) as Hb.
  set (d := y mod 2 ^ 4) in *.
  assert (d = 0 \/ d = 1 \/ d = 2 \/ d = 3 \/ d = 4 \/ d = 5 \/ d = 6 \/ d = 7
          \/ d = 8 \/ d = 9 \/ d = 10 \/ d = 11 \/ d = 12 \/ d = 13 \/ d = 14
          \/ d = 15) as Hd by lia.
  clearbody d.
  repeat (destruct Hd as [->|Hd]; [reflexivity|]). subst d. reflexivity.
Qed.

Lemma hex_word_lower (x : Z) :
  all_lower_hex (hex 8 x) = true /\ String.length (hex 8 x) = 8%nat.
Proof.
  unfold hex. cbn [seq rev app map String.string_of_list_ascii all_lower_hex
                   String.length].
  rewrite !hex_digit_lower. split; reflexivity.
Qed.

Lemma all_lower_hex_app (s1 s2 : string) :
  all_lower_hex (s1 +:+ s2) = all_lower_hex s1 && all_lower_hex s2.
Proof.
  induction s1 as [|c s1 IH]; simpl; [reflexivity|].
  rewrite IH. apply andb_assoc.
Qed.

Lemma length_app_string (s1 s2 : string) :
  String.length (s1 +:+ s2) = (String.length s1 + String.length s2)%nat.
Proof. induction s1 as [|c s1 IH]; simpl; [reflexivity|]. rewrite IH. reflexivity. Qed.

Lemma round_length (k w : Z) (v : list Z) : length (round k w v) = length v.
Proof.
  destruct v as [|a [|b [|c [|d [|e [|f [|g [|h [|i v]]]]]]]]]; reflexivity.
Qed.

Lemma rounds_length (ks win v : list Z) : length (rounds ks win v) = length v.
Proof.
  revert win v. induction ks as [|k ks IH]; intros win v; simpl; [reflexivity|].
  rewrite IH. apply round_length.
Qed.

Lemma compress_length (h block : list Z) : length (compress h block) = length h.
Proof.
  unfold compress.
  rewrite length_map, length_combine, rounds_length. lia.
Qed.

Lemma digest_words_length (msg : list Z) : length (digest_words msg) = 8%nat.
Proof.
  unfold digest_words. cbv zeta.
  generalize (blocks (length (be_words (length (pad msg)) (pad msg)))
                (be_words (length (pad msg)) (pad msg))).
  intros bs.
  assert (length H0 = 8%nat) as Hh by (vm_compute; reflexivity).
  revert Hh. generalize H0. induction bs as [|b bs IH]; intros h Hh; simpl.
  - assumption.
  - apply IH. rewrite compress_length. assumption.
Qed.

(** The digest is 64 lowercase hexadecimal characters. *)
Lemma hexdigest_lower_hex (msg : list byte) :
  all_lower_hex (hexdigest msg) = true
  /\ String.length (hexdigest msg) = 64%nat.
Proof.
  unfold hexdigest.
  pose proof (digest_words_length (map (fun b => Z.of_N (Byte.to_N b)) msg)) as Hl.
  destruct (digest_words (map (fun b => Z.of_N (Byte.to_N b)) msg))
    as [|a [|b [|c [|d [|e [|f [|g [|h [|i v]]]]]]]]]; try discriminate.
  cbn [map String.concat].
  rewrite !all_lower_hex_app, !length_app_string.
  destruct (hex_word_lower a) as [-> ->]. destruct (hex_word_lower b) as [-> ->].
  destruct (hex_word_lower c) as [-> ->]. destruct (hex_word_lower d) as [-> ->].
  destruct (hex_word_lower e) as [-> ->]. destruct (hex_word_lower f) as [-> ->].
  destruct (hex_word_lower g) as [-> ->]. destruct (hex_word_lower h) as [-> ->].
  split; reflexivity.
Qed.

End Sha256Facts.

(** * The delegation resolver *)

Section ResolverFacts.

Variable fnmatch : string -> string -> bool.

Lemma visit_hash_prefixes_Some child_role_name digest prefixes r :
  visit_hash_prefixes child_role_name digest prefixes = Some r ->
  r = child_role_name /\ exists p, p ∈ prefixes /\ startswith digest p = true.
Proof.
  induction prefixes as [|p rest IH]; simpl; [discriminate|].
  destruct (startswith digest p) eqn:Hp; simpl.
  - intros [= <-]. split; [reflexivity|]. exists p. split; [left|assumption].
  - intros H. destruct (IH H) as [-> (q & Hq & Hm)].
    split; [reflexivity|]. exists q. split; [right|]; assumption.
Qed.

Lemma visit_hash_prefixes_None child_role_name digest prefixes :
  visit_hash_prefixes child_role_name digest prefixes = None <->
  forall p, p ∈ prefixes -> startswith digest p = false.
Proof.
  induction prefixes as [|p rest IH]; simpl.
  - split; [|reflexivity]. intros _ q Hq. inversion Hq.
  - destruct (startswith digest p) eqn:Hp; simpl.
    + split; [discriminate|]. intros H.
      rewrite (H p) in Hp; [discriminate|left].
    + rewrite IH. split.
      * intros H q Hq. inversion Hq; subst; auto.
      * intros H q Hq. apply H. right. assumption.
Qed.

(** The first prefix that matches returns; the ones after it play no
    part. *)
Lemma visit_hash_prefixes_first child_role_name digest before p after :
  (forall q, q ∈ before -> startswith digest q = false) ->
  startswith digest p = true ->
  visit_hash_prefixes child_role_name digest (before ++ p :: after)
  = Some child_role_name.
Proof.
  induction before as [|b before IH]; simpl; intros Hb Hp.
  - rewrite Hp. reflexivity.
  - rewrite (Hb b) by left. simpl. apply IH; [|assumption].
    intros q Hq. apply Hb. right. assumption.
Qed.

(** C7. For a child role that declares [path_hash_prefixes],
    [_visit_child_role] returns the child's name exactly when the
    lowercase hexadecimal SHA-256 digest of the UTF-8 bytes of the
    target path starts with one of the declared prefixes, the first
    such prefix deciding whatever follows it; it returns [None]
    exactly when no declared prefix matches. *)
Theorem visit_child_role_hash_prefixes
    (child_role : DelegatedRole) (target_filepath : string)
    (prefixes : list string) :
  path_hash_prefixes child_role = Some prefixes ->
  let digest :=
    Sha256.hexdigest (String.list_byte_of_string target_filepath) in
  (_visit_child_role fnmatch child_role target_filepath
     = Val (Some (name child_role))
   <-> exists p, p ∈ prefixes /\ startswith digest p = true)
  /\ (_visit_child_role fnmatch child_role target_filepath = Val None
      <-> forall p, p ∈ prefixes -> startswith digest p = false)
  /\ (forall before p after,
        prefixes = before ++ p :: after ->
        (forall q, q ∈ before -> startswith digest q = false) ->
        startswith digest p = true ->
        _visit_child_role fnmatch child_role target_filepath
        = Val (Some (name child_role)))
  /\ (exists r, _visit_child_role fnmatch child_role target_filepath = Val r)
  /\ all_lower_hex digest = true
  /\ String.length digest = 64.
Proof.
  intros Hpre digest. unfold _visit_child_role. rewrite Hpre.
  unfold _get_filepath_hash. cbv zeta. fold digest.
  split; [|split; [|split; [|split]]].
  - split.
    + intros [= H]. apply visit_hash_prefixes_Some in H. tauto.
    + intros (p & Hin & Hp).
      destruct (visit_hash_prefixes (name child_role) digest prefixes) as [r|] eqn:E.
      * apply visit_hash_prefixes_Some in E. destruct E as [-> _]. reflexivity.
      * rewrite visit_hash_prefixes_None in E. rewrite (E p Hin) in Hp.
        discriminate.
  - rewrite <- visit_hash_prefixes_None. split.
    + intros [= H]. exact H.
    + intros ->. reflexivity.
  - intros before p after -> Hb Hp.
    rewrite visit_hash_prefixes_first by assumption. reflexivity.
  - eexists. reflexivity.
  - apply Sha256Facts.hexdigest_lower_hex.
Qed.

(** C8. A child role that declares neither [paths] nor
    [path_hash_prefixes] makes [_visit_child_role] raise a format
    error, whatever the target path. *)
Theorem visit_child_role_neither_field
    (child_role : DelegatedRole) (target_filepath : string) :
  paths child_role = None ->
  path_hash_prefixes child_role = None ->
  _visit_child_role fnmatch child_role target_filepath = Exc FormatError.
Proof.
  intros Hp Hh. unfold _visit_child_role. rewrite Hh, Hp. reflexivity.
Qed.

End ResolverFacts.

Example bin_role_authorized :
  _visit_child_role Toy.fnmatch Scenario.bin_role "file321.txt" = Val (Some "bin-0").
Proof. vm_compute. reflexivity. Qed.

Example bin_role_not_authorized :
  _visit_child_role Toy.fnmatch Scenario.bin_role "file273.txt" = Val None.
Proof. vm_compute. reflexivity. Qed.

Lemma visit_child_role_hash_prefixes_witness :
  _visit_child_role Toy.fnmatch Scenario.bin_role "file107.txt" = Val (Some "bin-0").
Proof.
  refine (proj1 (proj2 (proj2
    (visit_child_role_hash_prefixes Toy.fnmatch Scenario.bin_role "file107.txt"
       ["00"; "01"] eq_refl))) ["00"] "01" [] eq_refl _ _).
  - intros q Hq. apply list_elem_of_singleton in Hq. subst q.
    vm_compute. reflexivity.
  - vm_compute. reflexivity.
Defined.

Lemma visit_child_role_neither_field_witness :
  _visit_child_role Toy.fnmatch Scenario.bare_role "a.txt" = Exc FormatError.
Proof.
  exact (visit_child_role_neither_field Toy.fnmatch Scenario.bare_role "a.txt"
           eq_refl eq_refl).
Defined.

(** * The preorder depth-first walk *)

Lemma pop_app_singleton {A} (l : list A) (x : A) : pop (l ++ [x]) = Some (l, x).
Proof.
  unfold pop. rewrite last_snoc. rewrite removelast_last. reflexivity.
Qed.

Lemma pop_Some {A} (l init : list A) (x : A) :
  pop l = Some (init, x) -> l = init ++ [x].
Proof.
  destruct l as [|a l] using rev_ind; [discriminate|].
  rewrite pop_app_singleton. intros [= <- <-]. reflexivity.
Qed.

Lemma pop_None {A} (l : list A) : pop l = None -> l = [].
Proof.
  destruct l as [|a l] using rev_ind; [reflexivity|].
  rewrite pop_app_singleton. discriminate.
Qed.

Section WalkFacts.

Context {W : Type}.
Context `{!LocalFiles W, !FetcherInterface W, !TrustedMetadataSet W}.
Variable urljoin : string -> string -> string.
Variable fnmatch : string -> string -> bool.
Variable self : Updater.

Local Notation "'load_targets'" := (_load_targets urljoin self).
Local Notation "'body'" := (walk_body urljoin fnmatch self).
Local Notation "'loop'" := (walk_loop urljoin fnmatch self).
Local Notation "'scan'" := (scan_child_roles fnmatch).

(** What one iteration does, read off a successful run of it. *)
Lemma walk_body_Ok target_filepath st s st' s' :
  body target_filepath st s = Ok st' s' ->
  exists init role parent,
    role_names st = init ++ [(role, parent)]
    /\ load_targets role parent s = Ok tt s'
    /\ (((role, parent) ∈ visited_role_names st
         /\ st' = {| target := target st; role_names := init;
                     visited_role_names := visited_role_names st;
                     number_of_delegations := number_of_delegations st |})
        \/ (((role, parent) ∉ visited_role_names st)
            /\ exists md,
                 trusted_targets role (world s') = Val md
                 /\ target st' = targets md !! target_filepath
                 /\ visited_role_names st'
                    = visited_role_names st ∪ {[ (role, parent) ]}
                 /\ number_of_delegations st'
                    = (number_of_delegations st - 1)%Z
                 /\ match targets md !! target_filepath with
                    | Some _ => role_names st' = init
                    | None =>
                        exists rn crv,
                          scan (child_roles_of md) target_filepath role
                            init [] = Val (rn, crv)
                          /\ role_names st' = rn ++ rev crv
                    end)).
Proof.
  unfold walk_body. destruct (pop (role_names st)) as [[init [role parent]]|] eqn:Hpop;
    [|discriminate].
  apply pop_Some in Hpop. intros Hrun.
  exists init, role, parent. split; [assumption|].
  unfold bind in Hrun.
  destruct (load_targets role parent s) as [[] s1|e s1] eqn:Hload; [|discriminate].
  destruct (decide ((role, parent) ∈ visited_role_names st)) as [Hin|Hnin].
  - injection Hrun as <- <-. split; [reflexivity|]. left. split; [assumption|reflexivity].
  - unfold attribute in Hrun.
    destruct (trusted_targets role (world s1)) as [md|e] eqn:Hmd; [|discriminate].
    destruct (targets md !! target_filepath) as [fi|] eqn:Hfi.
    + injection Hrun as <- <-. split; [reflexivity|]. right.
      split; [assumption|]. exists md. rewrite Hfi. simpl. auto.
    + unfold bind, lift in Hrun. fold (child_roles_of md) in Hrun.
      destruct (scan (child_roles_of md) target_filepath role init [])
        as [[rn crv]|e] eqn:Hscan; [|discriminate].
      injection Hrun as <- <-. split; [reflexivity|]. right.
      split; [assumption|]. exists md. rewrite Hfi. simpl.
      repeat split; try reflexivity; try assumption.
      exists rn, crv. auto.
Qed.

Lemma walk_loop_mono fuel target_filepath st s r :
  loop fuel target_filepath st s = Some r ->
  forall fuel', fuel <= fuel' -> loop fuel' target_filepath st s = Some r.
Proof.
  revert st s. induction fuel as [|fuel IH]; intros st s Hrun fuel' Hle.
  - simpl in Hrun. destruct (walk_cond st) eqn:Hc; [discriminate|].
    destruct fuel'; simpl; rewrite Hc; assumption.
  - destruct fuel' as [|fuel']; [lia|].
    simpl in *. destruct (walk_cond st); [|assumption].
    destruct (body target_filepath st s) as [st' s'|e s']; [|assumption].
    apply IH; [assumption|lia].
Qed.

(** The loop ends: a visit charges the budget, a skipped pop only
    shortens the stack. *)
Lemma walk_loop_terminates target_filepath st s :
  exists fuel r, loop fuel target_filepath st s = Some r.
Proof.
  remember (Z.to_nat (number_of_delegations st)) as budget eqn:Hb.
  revert st s Hb.
  induction budget as [budget IHb] using lt_wf_ind. intros st.
  remember (length (role_names st)) as depth eqn:Hd.
  revert st Hd.
  induction depth as [depth IHd] using lt_wf_ind. intros st Hd s Hb.
  destruct (walk_cond st) eqn:Hc.
  - destruct (body target_filepath st s) as [st' s'|e s'] eqn:Hbody.
    + assert (exists fuel r, loop fuel target_filepath st' s' = Some r)
        as (fuel & r & Hr).
      { unfold walk_cond in Hc. destruct (target st); [discriminate|].
        apply andb_prop in Hc. destruct Hc as [Hn Hl].
        apply Z.ltb_lt in Hn.
        apply walk_body_Ok in Hbody.
        destruct Hbody as (init & role & parent & Hst & _ & [[_ ->]|[_ Hv]]).
        - eapply (IHd (length init)); [|reflexivity|]; simpl.
          + rewrite Hd, Hst, length_app. simpl. lia.
          + assumption.
        - destruct Hv as (md & _ & _ & _ & Hnum & _).
          eapply (IHb (Z.to_nat (number_of_delegations st'))); [|reflexivity].
          rewrite Hb, Hnum. lia. }
      exists (S fuel), r. simpl. rewrite Hc, Hbody. assumption.
    + exists 1, (Raise e s'). simpl. rewrite Hc, Hbody. reflexivity.
  - exists 0, (Ok st s). simpl. rewrite Hc. reflexivity.
Qed.

Lemma walk_loop_exit fuel target_filepath st s st' s' :
  loop fuel target_filepath st s = Some (Ok st' s') -> walk_cond st' = false.
Proof.
  revert st s. induction fuel as [|fuel IH]; intros st s; simpl;
    destruct (walk_cond st) eqn:Hc; try discriminate.
  - intros [= <- <-]. assumption.
  - destruct (body target_filepath st s) as [st1 s1|e s1]; [apply IH|discriminate].
  - intros [= <- <-]. assumption.
Qed.

(** An iteration that pops a pair seen before. *)
Lemma walk_body_skip target_filepath st s init role parent s1 :
  role_names st = init ++ [(role, parent)] ->
  (role, parent) ∈ visited_role_names st ->
  load_targets role parent s = Ok tt s1 ->
  body target_filepath st s
  = Ok {| target := target st; role_names := init;
          visited_role_names := visited_role_names st;
          number_of_delegations := number_of_delegations st |} s1.
Proof.
  intros Hst Hin Hload. unfold walk_body.
  rewrite Hst, pop_app_singleton. unfold bind. rewrite Hload.
  destruct (decide ((role, parent) ∈ visited_role_names st)); [reflexivity|contradiction].
Qed.

(** An iteration that pops a pair not seen before. *)
Lemma walk_body_visit target_filepath st s init role parent s1 md :
  role_names st = init ++ [(role, parent)] ->
  (role, parent) ∉ visited_role_names st ->
  load_targets role parent s = Ok tt s1 ->
  trusted_targets role (world s1) = Val md ->
  body target_filepath st s
  = match targets md !! target_filepath with
    | Some fi =>
        Ok {| target := Some fi; role_names := init;
              visited_role_names := visited_role_names st ∪ {[ (role, parent) ]};
              number_of_delegations := (number_of_delegations st - 1)%Z |} s1
    | None =>
        match scan (child_roles_of md) target_filepath role init [] with
        | Val (rn, crv) =>
            Ok {| target := None; role_names := rn ++ rev crv;
                  visited_role_names := visited_role_names st ∪ {[ (role, parent) ]};
                  number_of_delegations := (number_of_delegations st - 1)%Z |} s1
        | Exc e => Raise e s1
        end
    end.
Proof.
  intros Hst Hnin Hload Hmd. unfold walk_body.
  rewrite Hst, pop_app_singleton. unfold bind. rewrite Hload.
  destruct (decide ((role, parent) ∈ visited_role_names st)); [contradiction|].
  unfold attribute. rewrite Hmd.
  destruct (targets md !! target_filepath) as [fi|]; [reflexivity|].
  unfold lift. fold (child_roles_of md).
  destruct (scan (child_roles_of md) target_filepath role init [])
    as [[rn crv]|e]; reflexivity.
Qed.

(** The scan goes past children that do not stop it, collecting the
    authorized ones. *)
Lemma scan_child_roles_app target_filepath role rn before rest acc :
  Forall (scan_passes fnmatch target_filepath) before ->
  scan (before ++ rest) target_filepath role rn acc
  = scan rest target_filepath role rn
      (acc ++ authorized_pairs fnmatch target_filepath role before).
Proof.
  intros Hb. revert acc.
  induction Hb as [|c before Hc _ IH]; intros acc; simpl.
  - rewrite app_nil_r. reflexivity.
  - unfold scan_passes in Hc. unfold authorized_pairs. simpl.
    destruct (_visit_child_role fnmatch c target_filepath) as [[n|]|e];
      [|apply IH|contradiction].
    rewrite Hc. rewrite IH. simpl. rewrite <- app_assoc. reflexivity.
Qed.

Lemma scan_child_roles_none target_filepath role rn children acc :
  Forall (fun c => _visit_child_role fnmatch c target_filepath = Val None)
    children ->
  scan children target_filepath role rn acc = Val (rn, acc).
Proof.
  induction 1 as [|c children Hc _ IH]; simpl; [reflexivity|].
  rewrite Hc. assumption.
Qed.

Lemma authorized_pairs_none target_filepath role children :
  Forall (fun c => _visit_child_role fnmatch c target_filepath = Val None)
    children ->
  authorized_pairs fnmatch target_filepath role children = []
  /\ Forall (scan_passes fnmatch target_filepath) children.
Proof.
  induction 1 as [|c children Hc _ [IH1 IH2]]; [split; [reflexivity|constructor]|].
  split.
  - unfold authorized_pairs in *. simpl. rewrite Hc. assumption.
  - constructor; [|assumption]. unfold scan_passes. rewrite Hc. exact I.
Qed.

(** C2. A visited role's own targets mapping is looked up before any of
    its children is examined: when the popped role, not seen before,
    lists the target path, the iteration keeps that entry, pushes
    nothing and the walk ends with it in the state the load left,
    whatever the role delegates.  In particular a top-level [targets]
    that declares the path resolves to its own entry and no child is
    examined or loaded. *)
Theorem found_in_visited_role_ends_walk (target_filepath : string) :
  (forall st s init role parent s1 md fi fuel,
      walk_cond st = true ->
      role_names st = init ++ [(role, parent)] ->
      (role, parent) ∉ visited_role_names st ->
      load_targets role parent s = Ok tt s1 ->
      trusted_targets role (world s1) = Val md ->
      targets md !! target_filepath = Some fi ->
      body target_filepath st s
      = Ok {| target := Some fi; role_names := init;
              visited_role_names := visited_role_names st ∪ {[ (role, parent) ]};
              number_of_delegations := (number_of_delegations st - 1)%Z |} s1
      /\ walk_from urljoin fnmatch self (S fuel) target_filepath st s
         = Some (Ok {| filepath := target_filepath; fileinfo := Some fi |} s1))
  /\ (forall s s1 md fi fuel,
        (0 < max_delegations (config self))%Z ->
        load_targets "targets" "root" s = Ok tt s1 ->
        trusted_targets "targets" (world s1) = Val md ->
        targets md !! target_filepath = Some fi ->
        get_one_valid_targetinfo urljoin fnmatch self (S fuel) target_filepath s
        = Some (Ok {| filepath := target_filepath; fileinfo := Some fi |} s1)).
Proof.
  assert (forall st s init role parent s1 md fi fuel,
      walk_cond st = true ->
      role_names st = init ++ [(role, parent)] ->
      (role, parent) ∉ visited_role_names st ->
      load_targets role parent s = Ok tt s1 ->
      trusted_targets role (world s1) = Val md ->
      targets md !! target_filepath = Some fi ->
      body target_filepath st s
      = Ok {| target := Some fi; role_names := init;
              visited_role_names := visited_role_names st ∪ {[ (role, parent) ]};
              number_of_delegations := (number_of_delegations st - 1)%Z |} s1
      /\ walk_from urljoin fnmatch self (S fuel) target_filepath st s
         = Some (Ok {| filepath := target_filepath; fileinfo := Some fi |} s1))
    as General.
  { intros st s init role parent s1 md fi fuel Hc Hst Hnin Hload Hmd Hfi.
    pose proof (walk_body_visit target_filepath st s init role parent s1 md
                  Hst Hnin Hload Hmd) as Hbody.
    rewrite Hfi in Hbody. split; [assumption|].
    unfold walk_from. simpl. rewrite Hc, Hbody.
    destruct fuel; reflexivity. }
  split; [exact General|].
  intros s s1 md fi fuel Hmax Hload Hmd Hfi.
  unfold get_one_valid_targetinfo, _preorder_depth_first_walk.
  refine (proj2 (General (walk_init self) s [] "targets" "root" s1 md fi fuel
                   _ eq_refl _ Hload Hmd Hfi)).
  - unfold walk_cond, walk_init. simpl.
    apply andb_true_intro. split; [apply Z.ltb_lt; assumption|reflexivity].
  - simpl. set_solver.
Qed.

(** C3, as the code has it.  Every iteration pops one pair and loads
    its metadata.  A pair not seen before is then added to the visited
    set and charged one unit of the budget; a pair seen before is
    skipped, and the budget, the visited set and the target stay as they
    were. *)
Theorem budget_charged_on_first_visit_only
    (target_filepath : string) (st : WalkState) (s : state W)
    (st' : WalkState) (s' : state W) :
  body target_filepath st s = Ok st' s' ->
  exists init role parent,
    role_names st = init ++ [(role, parent)]
    /\ load_targets role parent s = Ok tt s'
    /\ if decide ((role, parent) ∈ visited_role_names st)
       then number_of_delegations st' = number_of_delegations st
            /\ visited_role_names st' = visited_role_names st
            /\ role_names st' = init
            /\ target st' = target st
       else number_of_delegations st' = (number_of_delegations st - 1)%Z
            /\ visited_role_names st'
               = visited_role_names st ∪ {[ (role, parent) ]}.
Proof.
  intros Hbody. apply walk_body_Ok in Hbody.
  destruct Hbody as (init & role & parent & Hst & Hload & Hcase).
  exists init, role, parent. split; [assumption|]. split; [assumption|].
  destruct Hcase as [[Hin ->]|[Hnin (md & _ & _ & Hv & Hn & _)]].
  - destruct (decide ((role, parent) ∈ visited_role_names st));
      [simpl; auto|contradiction].
  - destruct (decide ((role, parent) ∈ visited_role_names st));
      [contradiction|auto].
Qed.

(** Over any number of iterations, the budget spent is the number of
    pairs added to the visited set, not the number of pops. *)
Lemma walk_steps_budget n target_filepath st s st' s' :
  walk_steps urljoin fnmatch self n target_filepath st s = Ok st' s' ->
  (number_of_delegations st' + Z.of_nat (size (visited_role_names st'))
   = number_of_delegations st + Z.of_nat (size (visited_role_names st)))%Z.
Proof.
  revert st s. induction n as [|n IH]; intros st s; simpl.
  - intros [= <- <-]. reflexivity.
  - destruct (walk_cond st); [|intros [= <- <-]; reflexivity].
    unfold bind.
    destruct (walk_body urljoin fnmatch self target_filepath st s)
      as [st1 s1|e s1] eqn:Hbody; [|discriminate].
    intros Hrun. rewrite (IH _ _ Hrun).
    apply walk_body_Ok in Hbody.
    destruct Hbody as (init & role & parent & _ & _ & [[_ ->]|[Hnin Hv]]);
      [reflexivity|].
    destruct Hv as (md & _ & _ & -> & -> & _).
    rewrite size_union by set_solver. rewrite size_singleton. lia.
Qed.
(** C1, as the code has it.  When the scan of a role's children reaches
    an authorized child marked terminating, it stops there (the children
    declared after it are not examined), the stack built so far is
    dropped, and the new stack holds that child beneath the authorized
    children declared before it.  So, when the terminating child [C] is
    the first authorized child of [targets], does not list the target
    and has no authorized child of its own, the walk loads at most
    [targets] and [C] and returns no fileinfo, whatever the budget: a
    sibling declared after [C] is never visited. *)
Theorem terminating_child_truncates_walk (target_filepath : string) :
  (forall before C after role rn child_name,
      Forall (scan_passes fnmatch target_filepath) before ->
      _visit_child_role fnmatch C target_filepath = Val (Some child_name) ->
      terminating C = true ->
      scan (before ++ C :: after) target_filepath role rn []
      = Val ([], authorized_pairs fnmatch target_filepath role before
                 ++ [(child_name, role)]))
  /\ (forall st s init role parent s1 md before C after child_name,
        role_names st = init ++ [(role, parent)] ->
        (role, parent) ∉ visited_role_names st ->
        load_targets role parent s = Ok tt s1 ->
        trusted_targets role (world s1) = Val md ->
        targets md !! target_filepath = None ->
        child_roles_of md = before ++ C :: after ->
        Forall (scan_passes fnmatch target_filepath) before ->
        _visit_child_role fnmatch C target_filepath = Val (Some child_name) ->
        terminating C = true ->
        body target_filepath st s
        = Ok {| target := None;
                role_names :=
                  (child_name, role)
                  :: rev (authorized_pairs fnmatch target_filepath role before);
                visited_role_names :=
                  visited_role_names st ∪ {[ (role, parent) ]};
                number_of_delegations := (number_of_delegations st - 1)%Z |} s1)
  /\ (forall s s1 s2 md mc before C after child_name fuel,
        load_targets "targets" "root" s = Ok tt s1 ->
        trusted_targets "targets" (world s1) = Val md ->
        targets md !! target_filepath = None ->
        child_roles_of md = before ++ C :: after ->
        Forall (fun c => _visit_child_role fnmatch c target_filepath = Val None)
          before ->
        _visit_child_role fnmatch C target_filepath = Val (Some child_name) ->
        terminating C = true ->
        load_targets child_name "targets" s1 = Ok tt s2 ->
        trusted_targets child_name (world s2) = Val mc ->
        targets mc !! target_filepath = None ->
        Forall (fun c => _visit_child_role fnmatch c target_filepath = Val None)
          (child_roles_of mc) ->
        2 <= fuel ->
        get_one_valid_targetinfo urljoin fnmatch self fuel target_filepath s
        = Some (Ok {| filepath := target_filepath; fileinfo := None |}
                  (if (max_delegations (config self) <=? 0)%Z then s
                   else if (max_delegations (config self) =? 1)%Z then s1
                        else s2))
        /\ ((1 < max_delegations (config self))%Z ->
            loop fuel target_filepath (walk_init self) s
            = Some (Ok {| target := None; role_names := [];
                          visited_role_names :=
                            ∅ ∪ {[ ("targets", "root") ]}
                              ∪ {[ (child_name, "targets") ]};
                          number_of_delegations :=
                            (max_delegations (config self) - 1 - 1)%Z |} s2)
            /\ (forall D, D ∈ after -> name D <> child_name ->
                  (name D, "targets")
                  ∉ (∅ ∪ {[ ("targets", "root") ]}
                       ∪ {[ (child_name, "targets") ]}
                     : gset (string * string))))).
Proof.
  assert (forall before C after role rn child_name,
      Forall (scan_passes fnmatch target_filepath) before ->
      _visit_child_role fnmatch C target_filepath = Val (Some child_name) ->
      terminating C = true ->
      scan (before ++ C :: after) target_filepath role rn []
      = Val ([], authorized_pairs fnmatch target_filepath role before
                 ++ [(child_name, role)])) as Scan.
  { intros before C after role rn child_name Hb HC Ht.
    rewrite scan_child_roles_app by assumption. simpl.
    rewrite HC, Ht. reflexivity. }
  assert (forall st s init role parent s1 md before C after child_name,
        role_names st = init ++ [(role, parent)] ->
        (role, parent) ∉ visited_role_names st ->
        load_targets role parent s = Ok tt s1 ->
        trusted_targets role (world s1) = Val md ->
        targets md !! target_filepath = None ->
        child_roles_of md = before ++ C :: after ->
        Forall (scan_passes fnmatch target_filepath) before ->
        _visit_child_role fnmatch C target_filepath = Val (Some child_name) ->
        terminating C = true ->
        body target_filepath st s
        = Ok {| target := None;
                role_names :=
                  (child_name, role)
                  :: rev (authorized_pairs fnmatch target_filepath role before);
                visited_role_names :=
                  visited_role_names st ∪ {[ (role, parent) ]};
                number_of_delegations := (number_of_delegations st - 1)%Z |} s1)
    as Body.
  { intros st s init role parent s1 md before C after child_name
      Hst Hnin Hload Hmd Hfi Hch Hb HC Ht.
    rewrite (walk_body_visit target_filepath st s init role parent s1 md)
      by assumption.
    rewrite Hfi, Hch, (Scan before C after role init child_name) by assumption.
    simpl. rewrite rev_app_distr. reflexivity. }
  split; [exact Scan|]. split; [exact Body|].
  intros s s1 s2 md mc before C after child_name fuel
    Hload1 Hmd Hfi Hch Hb HC Ht Hload2 Hmc Hfc Hcc Hfuel.
  destruct (authorized_pairs_none target_filepath "targets" before Hb)
    as [Hnone Hpass].
  pose proof (Body (walk_init self) s [] "targets" "root" s1 md before C after
                child_name eq_refl ltac:(simpl; set_solver) Hload1 Hmd Hfi Hch
                Hpass HC Ht) as Hfirst.
  rewrite Hnone in Hfirst. simpl rev in Hfirst.
  (* no budget: the loop does not run *)
  assert ((max_delegations (config self) <= 0)%Z ->
          loop 2 target_filepath (walk_init self) s
          = Some (Ok (walk_init self) s)) as Hzero.
  { intros Hle. cbn [walk_loop].
    replace (walk_cond (walk_init self)) with false; [reflexivity|].
    symmetry. unfold walk_cond, walk_init. simpl.
    apply andb_false_iff. left. apply Z.ltb_ge. assumption. }
  (* a budget of one: [targets] is visited and the budget is spent *)
  assert (max_delegations (config self) = 1%Z ->
          exists st1, target st1 = None
                      /\ loop 2 target_filepath (walk_init self) s
                         = Some (Ok st1 s1)) as Hone.
  { intros Heq. eexists. split; [|cbn [walk_loop]].
    2:{ replace (walk_cond (walk_init self)) with true
          by (symmetry; unfold walk_cond, walk_init; simpl;
              apply andb_true_intro; split; [apply Z.ltb_lt; lia|reflexivity]).
        rewrite Hfirst.
        match goal with |- context [walk_cond ?st] => set (st1 := st) end.
        replace (walk_cond st1) with false; [reflexivity|].
        symmetry. unfold walk_cond, st1, walk_init. simpl.
        apply andb_false_iff. left. apply Z.ltb_ge. lia. }
    reflexivity. }
  (* a larger budget: [targets], then the terminating child, then nothing *)
  assert ((1 < max_delegations (config self))%Z ->
          loop 2 target_filepath (walk_init self) s
          = Some (Ok {| target := None; role_names := [];
                        visited_role_names :=
                          ∅ ∪ {[ ("targets", "root") ]}
                            ∪ {[ (child_name, "targets") ]};
                        number_of_delegations :=
                          (max_delegations (config self) - 1 - 1)%Z |} s2))
    as Hrun.
  { intros Hmax. cbn [walk_loop].
    replace (walk_cond (walk_init self)) with true
      by (symmetry; unfold walk_cond, walk_init; simpl;
          apply andb_true_intro; split; [apply Z.ltb_lt; lia|reflexivity]).
    rewrite Hfirst.
    match goal with |- context [walk_cond ?st] => set (st1 := st) end.
    replace (walk_cond st1) with true
      by (symmetry; unfold walk_cond, st1, walk_init; simpl;
          apply andb_true_intro; split; [apply Z.ltb_lt; lia|reflexivity]).
    rewrite (walk_body_visit target_filepath st1 s1 [] child_name "targets" s2 mc
               eq_refl).
    - rewrite Hfc.
      rewrite (scan_child_roles_none target_filepath child_name [] _ [] Hcc).
      simpl. unfold walk_cond. simpl. rewrite andb_false_r. reflexivity.
    - unfold st1, walk_init. simpl.
      intros Hin. apply elem_of_union in Hin. destruct Hin as [Hin|Hin].
      + set_solver.
      + apply elem_of_singleton in Hin. discriminate.
    - assumption.
    - assumption. }
  split.
  - unfold get_one_valid_targetinfo, _preorder_depth_first_walk, walk_from.
    destruct (max_delegations (config self) <=? 0)%Z eqn:E0.
    + apply Z.leb_le in E0.
      rewrite (walk_loop_mono 2 _ _ _ _ (Hzero E0) fuel Hfuel). reflexivity.
    + apply Z.leb_gt in E0.
      destruct (max_delegations (config self) =? 1)%Z eqn:E1.
      * apply Z.eqb_eq in E1. destruct (Hone E1) as (st1 & Ht1 & Hloop).
        rewrite (walk_loop_mono 2 _ _ _ _ Hloop fuel Hfuel), Ht1. reflexivity.
      * apply Z.eqb_neq in E1.
        rewrite (walk_loop_mono 2 _ _ _ _ (Hrun ltac:(lia)) fuel Hfuel).
        reflexivity.
  - intros Hmax. split.
    + apply (walk_loop_mono 2); [exact (Hrun Hmax)|exact Hfuel].
    + intros D _ Hne Hin.
      apply elem_of_union in Hin. destruct Hin as [Hin|Hin].
      * apply elem_of_union in Hin. destruct Hin as [Hin|Hin]; [set_solver|].
        apply elem_of_singleton in Hin. discriminate.
      * apply elem_of_singleton in Hin. congruence.
Qed.

(** C10. The walk always ends, and when it ends without an exception
    [get_one_valid_targetinfo] returns the dictionary whose [filepath]
    is the path asked for and whose [fileinfo] is the walk's [target]:
    [None] exactly when the loop stopped without a target, which happens
    only with the budget spent or the stack empty. *)
Theorem get_one_valid_targetinfo_returns_dict
    (target_path : string) (s : state W) :
  (exists fuel r,
      forall fuel', fuel <= fuel' ->
        get_one_valid_targetinfo urljoin fnmatch self fuel' target_path s
        = Some r)
  /\ (forall fuel r s',
        get_one_valid_targetinfo urljoin fnmatch self fuel target_path s
        = Some (Ok r s') ->
        filepath r = target_path
        /\ exists st,
             loop fuel target_path (walk_init self) s = Some (Ok st s')
             /\ fileinfo r = target st
             /\ (fileinfo r = None ->
                 (number_of_delegations st <= 0)%Z \/ role_names st = []))
  /\ (forall fuel st s',
        loop fuel target_path (walk_init self) s = Some (Ok st s') ->
        target st = None ->
        get_one_valid_targetinfo urljoin fnmatch self fuel target_path s
        = Some (Ok {| filepath := target_path; fileinfo := None |} s')).
Proof.
  unfold get_one_valid_targetinfo, _preorder_depth_first_walk, walk_from.
  split; [|split].
  - destruct (walk_loop_terminates target_path (walk_init self) s)
      as (fuel & r & Hr).
    exists fuel.
    exists (match r with
            | Ok st' s' =>
                Ok {| filepath := target_path; fileinfo := target st' |} s'
            | Raise e s' => Raise e s'
            end).
    intros fuel' Hle. rewrite (walk_loop_mono _ _ _ _ _ Hr fuel' Hle).
    destruct r; reflexivity.
  - intros fuel r s' Hrun.
    destruct (loop fuel target_path (walk_init self) s) as [[st1 s1|e s1]|] eqn:Hloop;
      try discriminate.
    injection Hrun as <- <-. split; [reflexivity|].
    exists st1. split; [reflexivity|]. split; [reflexivity|].
    simpl. intros Hnone. apply walk_loop_exit in Hloop.
    unfold walk_cond in Hloop. rewrite Hnone in Hloop.
    apply andb_false_iff in Hloop. destruct Hloop as [Hn|Hl].
    + left. apply Z.ltb_ge in Hn. assumption.
    + right. apply Z.ltb_ge in Hl. destruct (role_names st1); [reflexivity|].
      simpl in Hl. lia.
  - intros fuel st s' Hloop Hnone. rewrite Hloop, Hnone. reflexivity.
Qed.

End WalkFacts.

(** ** The walk on the example repositories *)

Example priority_resolution :
  option_map (fun r => (res_value {| filepath := ""; fileinfo := None |} r,
                        map ev_call (trace (res_state r))))
    (get_one_valid_targetinfo Toy.urljoin Toy.fnmatch Toy.updater 10 "a.txt"
       (Toy.start Scenario.priority))
  = Some ({| filepath := "a.txt"; fileinfo := Some Scenario.fi_abc |},
          [OpenRead "/meta/targets.json";
           UpdateDelegatedTargets (Toy.bytes "targets") "targets" "root"]).
Proof. vm_compute. reflexivity. Qed.

Example truncated_resolution :
  option_map (fun r => (res_value {| filepath := ""; fileinfo := None |} r,
                        map ev_call (trace (res_state r))))
    (get_one_valid_targetinfo Toy.urljoin Toy.fnmatch Toy.updater 10 "x.txt"
       (Toy.start Scenario.truncated))
  = Some ({| filepath := "x.txt"; fileinfo := None |},
          [OpenRead "/meta/targets.json";
           UpdateDelegatedTargets (Toy.bytes "targets") "targets" "root";
           OpenRead "/meta/C.json";
           UpdateDelegatedTargets (Toy.bytes "C") "C" "targets"]).
Proof. vm_compute. reflexivity. Qed.

Lemma found_in_visited_role_ends_walk_witness :
  get_one_valid_targetinfo Toy.urljoin Toy.fnmatch Toy.updater 1 "a.txt"
    (Toy.start Scenario.priority)
  = Some (Ok {| filepath := "a.txt"; fileinfo := Some Scenario.fi_abc |}
            (Scenario.loaded "targets" "root" (Toy.start Scenario.priority))).
Proof.
  apply (proj2 (found_in_visited_role_ends_walk Toy.urljoin Toy.fnmatch
                  Toy.updater "a.txt")
           (Toy.start Scenario.priority)
           (Scenario.loaded "targets" "root" (Toy.start Scenario.priority))
           (Scenario.delegating {[ "a.txt" := Scenario.fi_abc ]}
              [Scenario.delegated "B" false ["a.txt"]])
           Scenario.fi_abc 0).
  - vm_compute. reflexivity.
  - vm_compute. reflexivity.
  - vm_compute. reflexivity.
  - vm_compute. reflexivity.
Defined.

Lemma budget_charged_on_first_visit_only_witness :
  exists init role parent,
    role_names (res_value (walk_init Toy.updater) Scenario.diamond_five_pops)
    = init ++ [(role, parent)]
    /\ _load_targets Toy.urljoin Toy.updater role parent
         (res_state Scenario.diamond_five_pops)
       = Ok tt (res_state Scenario.diamond_sixth_pop)
    /\ if decide ((role, parent)
                  ∈ visited_role_names
                      (res_value (walk_init Toy.updater)
                         Scenario.diamond_five_pops))
       then number_of_delegations
              (res_value (walk_init Toy.updater) Scenario.diamond_sixth_pop)
            = number_of_delegations
                (res_value (walk_init Toy.updater) Scenario.diamond_five_pops)
            /\ visited_role_names
                 (res_value (walk_init Toy.updater) Scenario.diamond_sixth_pop)
               = visited_role_names
                   (res_value (walk_init Toy.updater)
                      Scenario.diamond_five_pops)
            /\ role_names
                 (res_value (walk_init Toy.updater) Scenario.diamond_sixth_pop)
               = init
            /\ target
                 (res_value (walk_init Toy.updater) Scenario.diamond_sixth_pop)
               = target
                   (res_value (walk_init Toy.updater)
                      Scenario.diamond_five_pops)
       else number_of_delegations
              (res_value (walk_init Toy.updater) Scenario.diamond_sixth_pop)
            = (number_of_delegations
                 (res_value (walk_init Toy.updater)
                    Scenario.diamond_five_pops) - 1)%Z
            /\ visited_role_names
                 (res_value (walk_init Toy.updater) Scenario.diamond_sixth_pop)
               = visited_role_names
                   (res_value (walk_init Toy.updater)
                      Scenario.diamond_five_pops)
                 ∪ {[ (role, parent) ]}.
Proof.
  apply (budget_charged_on_first_visit_only Toy.urljoin Toy.fnmatch Toy.updater
           "x.txt"
           (res_value (walk_init Toy.updater) Scenario.diamond_five_pops)
           (res_state Scenario.diamond_five_pops)
           (res_value (walk_init Toy.updater) Scenario.diamond_sixth_pop)
           (res_state Scenario.diamond_sixth_pop)).
  vm_compute. reflexivity.
Defined.

(** C3 as stated fails: in the [diamond] repository the sixth pop takes
    the pair (X, P), already visited, off the stack and leaves the
    budget at 27. *)
Lemma skipped_pop_keeps_budget :
  exists st s st' s',
    Scenario.diamond_five_pops = Ok st s
    /\ walk_cond st = true
    /\ role_names st = [("X", "P")]
    /\ ("X", "P") ∈ visited_role_names st
    /\ number_of_delegations st = 27%Z
    /\ walk_body Toy.urljoin Toy.fnmatch Toy.updater "x.txt" st s = Ok st' s'
    /\ role_names st' = []
    /\ number_of_delegations st' = 27%Z
    /\ number_of_delegations st' <> (number_of_delegations st - 1)%Z.
Proof.
  exists (res_value (walk_init Toy.updater) Scenario.diamond_five_pops),
         (res_state Scenario.diamond_five_pops),
         (res_value (walk_init Toy.updater) Scenario.diamond_sixth_pop),
         (res_state Scenario.diamond_sixth_pop).
  split; [vm_compute; reflexivity|].
  split; [vm_compute; reflexivity|].
  split; [vm_compute; reflexivity|].
  split.
  { refine (bool_decide_unpack _ _). vm_compute. exact I. }
  split; [vm_compute; reflexivity|].
  split; [vm_compute; reflexivity|].
  split; [vm_compute; reflexivity|].
  split; [vm_compute; reflexivity|].
  vm_compute. discriminate.
Qed.

Lemma terminating_child_truncates_walk_witness :
  get_one_valid_targetinfo Toy.urljoin Toy.fnmatch Toy.updater 2 "x.txt"
    (Toy.start Scenario.truncated)
  = Some (Ok {| filepath := "x.txt"; fileinfo := None |}
            (Scenario.loaded "C" "targets"
               (Scenario.loaded "targets" "root"
                  (Toy.start Scenario.truncated))))
  /\ ("D", "targets")
     ∉ (∅ ∪ {[ ("targets", "root") ]} ∪ {[ ("C", "targets") ]}
        : gset (string * string)).
Proof.
  pose proof (proj2 (proj2 (terminating_child_truncates_walk Toy.urljoin
                              Toy.fnmatch Toy.updater "x.txt"))
                (Toy.start Scenario.truncated)
                (Scenario.loaded "targets" "root"
                   (Toy.start Scenario.truncated))
                (Scenario.loaded "C" "targets"
                   (Scenario.loaded "targets" "root"
                      (Toy.start Scenario.truncated)))
                (Scenario.delegating ∅
                   [Scenario.delegated "C" true ["*.txt"];
                    Scenario.delegated "D" false ["*.txt"]])
                (Scenario.leaf ∅)
                [] (Scenario.delegated "C" true ["*.txt"])
                [Scenario.delegated "D" false ["*.txt"]] "C" 2) as H.
  destruct H as (Hget & Hbig).
  - vm_compute. reflexivity.
  - vm_compute. reflexivity.
  - vm_compute. reflexivity.
  - vm_compute. reflexivity.
  - constructor.
  - vm_compute. reflexivity.
  - vm_compute. reflexivity.
  - vm_compute. reflexivity.
  - vm_compute. reflexivity.
  - vm_compute. reflexivity.
  - constructor.
  - lia.
  - split; [exact Hget|].
    destruct Hbig as (_ & Hd); [reflexivity|].
    apply (Hd (Scenario.delegated "D" false ["*.txt"])).
    + left.
    + discriminate.
Defined.

(** C1 as stated fails: in the [earlier_sibling] repository the
    terminating child [C] is authorized for ["x.txt"], does not list it,
    and [D], declared after it, is authorized and lists it; yet after
    the scan the stack holds [A] above [C], and the walk returns the
    entry of [A], not a null result.  In [terminator_delegates], where
    [C] is the first authorized child, the walk goes on below [C] and
    returns the entry of [E]. *)
Lemma terminating_child_not_alone_on_stack :
  _visit_child_role Toy.fnmatch (Scenario.delegated "C" true ["*.txt"]) "x.txt"
  = Val (Some "C")
  /\ (exists st1 s1,
        Scenario.earlier_sibling_first_pop = Ok st1 s1
        /\ role_names st1 = [("C", "targets"); ("A", "targets")]
        /\ role_names st1 <> [("C", "targets")])
  /\ (exists s',
        get_one_valid_targetinfo Toy.urljoin Toy.fnmatch Toy.updater 10 "x.txt"
          (Toy.start Scenario.earlier_sibling)
        = Some (Ok {| filepath := "x.txt";
                      fileinfo := Some Scenario.fi_other |} s'))
  /\ (forall s',
        get_one_valid_targetinfo Toy.urljoin Toy.fnmatch Toy.updater 10 "x.txt"
          (Toy.start Scenario.earlier_sibling)
        <> Some (Ok {| filepath := "x.txt"; fileinfo := None |} s'))
  /\ (exists s',
        get_one_valid_targetinfo Toy.urljoin Toy.fnmatch Toy.updater 10 "x.txt"
          (Toy.start Scenario.terminator_delegates)
        = Some (Ok {| filepath := "x.txt";
                      fileinfo := Some Scenario.fi_other |} s')).
Proof.
  split; [vm_compute; reflexivity|].
  split.
  { exists (res_value (walk_init Toy.updater) Scenario.earlier_sibling_first_pop),
           (res_state Scenario.earlier_sibling_first_pop).
    split; [vm_compute; reflexivity|].
    split; [vm_compute; reflexivity|].
    vm_compute. discriminate. }
  split.
  { exists (Scenario.loaded "A" "targets"
              (Scenario.loaded "targets" "root"
                 (Toy.start Scenario.earlier_sibling))).
    vm_compute. reflexivity. }
  split.
  { intros s' H.
    assert (option_map (fun r => fileinfo
                          (res_value {| filepath := ""; fileinfo := None |} r))
              (get_one_valid_targetinfo Toy.urljoin Toy.fnmatch Toy.updater 10
                 "x.txt" (Toy.start Scenario.earlier_sibling))
            = Some (Some Scenario.fi_other)) as E by (vm_compute; reflexivity).
    rewrite H in E. simpl in E. discriminate. }
  exists (Scenario.loaded "E" "C"
            (Scenario.loaded "C" "targets"
               (Scenario.loaded "targets" "root"
                  (Toy.start Scenario.terminator_delegates)))).
  vm_compute. reflexivity.
Qed.

(** * The refresh steps *)

Lemma range_seq (lo hi : Z) (k : nat) :
  k <= Z.to_nat (hi - lo) ->
  take k (range lo hi) = map (fun i => (lo + Z.of_nat i)%Z) (seq 0 k).
Proof.
  intros Hk. unfold range. rewrite List.firstn_map. f_equal.
  rewrite take_seq. f_equal. lia.
Qed.

Section RefreshFacts.

Context {W : Type}.
Context `{!LocalFiles W, !FetcherInterface W, !TrustedMetadataSet W}.
Variable urljoin : string -> string -> string.
Variable self : Updater.

Local Notation "'root_request' v" :=
  (DownloadBytes
     (urljoin (_metadata_base_url self) (pretty v +:+ "." +:+ "root" +:+ ".json"))
     (root_max_length (config self))) (at level 10, v at level 9).
Local Notation "'root_file'" := (os_path_join (_dir self) ("root" +:+ ".json")).
Local Notation "'round'" := (load_root_round urljoin self).
Local Notation "'rotate'" := (load_root_loop urljoin self).

Lemma not_found_dec (e : exn) : {not_found e} + {~ not_found e}.
Proof.
  unfold not_found.
  destruct (decide (e = FetcherHTTPError 403)); [left; left; assumption|].
  destruct (decide (e = FetcherHTTPError 404)); [left; right; assumption|].
  right. intros [?|?]; contradiction.
Qed.

Lemma handler_cases (e : exn) (s' : state W) :
  (if is_FetcherHTTPError e
   then match e with
        | FetcherHTTPError status_code =>
            if negb ((status_code =? 403)%Z || (status_code =? 404)%Z)
            then raise e
            else ret true
        | _ => raise e
        end s'
   else Raise e s')
  = if not_found_dec e then Ok true s' else Raise e s'.
Proof.
  destruct (not_found_dec e) as [[->| ->]|Hn]; try reflexivity.
  destruct e; try reflexivity. simpl.
  destruct (status_code =? 403)%Z eqn:E1.
  - apply Z.eqb_eq in E1. subst. exfalso. apply Hn. left. reflexivity.
  - destruct (status_code =? 404)%Z eqn:E2; [|reflexivity].
    apply Z.eqb_eq in E2. subst. exfalso. apply Hn. right. reflexivity.
Qed.

(** The four shapes of one round: the fetch fails; the fetched root is
    rejected; the accepted root cannot be written; or all three calls
    succeed and the loop goes on. *)
Lemma load_root_round_shape (v : Z) (s : state W) :
  exists evs,
    trace (res_state (round v s)) = trace s ++ evs
    /\ ((exists e, evs = [Event (root_request v) (Some e)]
                   /\ round_after_exception urljoin self v s e)
        \/ (exists d e,
              evs = [Event (root_request v) None; Event (UpdateRoot d) (Some e)]
              /\ round_after_exception urljoin self v s e)
        \/ (exists d e,
              evs = [Event (root_request v) None; Event (UpdateRoot d) None;
                     Event (OpenWrite root_file d) (Some e)]
              /\ round_after_exception urljoin self v s e)
        \/ (exists d,
              evs = [Event (root_request v) None; Event (UpdateRoot d) None;
                     Event (OpenWrite root_file d) None]
              /\ exists s', round v s = Ok false s')).
Proof.
  unfold round_after_exception, load_root_round, try_except, bind,
    _download_metadata, _persist_metadata, perform, ret.
  destruct (download_bytes _ _ (world s)) as [[d|e] w1]; cbn [world trace].
  - destruct (update_root d w1) as [[[]|e] w2]; cbn [world trace].
    + destruct (open_write _ d w2) as [[[]|e] w3]; cbn [world trace].
      * eexists. split; [cbn; rewrite <- !app_assoc; reflexivity|].
        right. right. right. exists d. split; [reflexivity|].
        eexists. reflexivity.
      * rewrite handler_cases.
        eexists. split.
        { destruct (not_found_dec e); cbn; rewrite <- !app_assoc; reflexivity. }
        right. right. left. exists d, e. split; [reflexivity|].
        destruct (not_found_dec e); [left|right]; (split; [assumption|]);
          eexists; reflexivity.
    + rewrite handler_cases.
      eexists. split.
      { destruct (not_found_dec e); cbn; rewrite <- !app_assoc; reflexivity. }
      right. left. exists d, e. split; [reflexivity|].
      destruct (not_found_dec e); [left|right]; (split; [assumption|]);
        eexists; reflexivity.
  - rewrite handler_cases.
    eexists. split.
    { destruct (not_found_dec e); cbn; reflexivity. }
    left. exists e. split; [reflexivity|].
    destruct (not_found_dec e); [left|right]; (split; [assumption|]);
      eexists; reflexivity.
Qed.

Local Notation "'root_url' v" :=
  (urljoin (_metadata_base_url self) (pretty v +:+ "." +:+ "root" +:+ ".json"),
   root_max_length (config self)) (at level 10, v at level 9).

Lemma load_root_loop_spec (versions : list Z) (s : state W) :
  rotation_spec urljoin self versions s.
Proof.
  revert s. induction versions as [|v versions IH]; intros s.
  - exists []. simpl. rewrite app_nil_r.
    split; [reflexivity|]. split; [exists 0; split; [lia|reflexivity]|].
    split; [intros i c e Hi; destruct i; discriminate|].
    split; [intros i d Hi; destruct i; discriminate|].
    split; [constructor|]. intros _. eexists. reflexivity.
  - destruct (load_root_round_shape v s) as (evs & Htrace & Hshape).
    assert (forall e, round_after_exception urljoin self v s e ->
              trace (res_state (rotate (v :: versions) s)) = trace s ++ evs
              /\ (not_found e -> exists s', rotate (v :: versions) s = Ok tt s')
              /\ (~ not_found e ->
                  exists s', rotate (v :: versions) s = Raise e s')) as Hstop.
    { intros e [[Hnf (s' & Hr)]|[Hnf (s' & Hr)]];
        cbn [load_root_loop]; unfold bind; rewrite Hr in *; cbn in Htrace |- *.
      - split; [assumption|]. split; [intros _; eexists; reflexivity|].
        intros Hn; contradiction.
      - split; [assumption|]. split; [intros Hn; contradiction|].
        intros _. eexists. reflexivity. }
    destruct Hshape as [(e & -> & He)|[(d & e & -> & He)|[(d & e & -> & He)
                        |(d & -> & s' & Hr)]]].
    + destruct (Hstop e He) as (Ht & Hok & Hraise).
      exists [Event (root_request v) (Some e)].
      split; [assumption|].
      split; [exists 1; split; [simpl; lia|reflexivity]|].
      split.
      { intros [|i] c e0 Hi; [|destruct i; discriminate].
        injection Hi as <- <-. auto. }
      split; [intros [|[|i]] d0 Hi; discriminate|].
      split; [repeat constructor; discriminate|].
      intros Hnone. exfalso. eapply (Hnone 0). reflexivity.
    + destruct (Hstop e He) as (Ht & Hok & Hraise).
      exists [Event (root_request v) None; Event (UpdateRoot d) (Some e)].
      split; [assumption|].
      split; [exists 1; split; [simpl; lia|reflexivity]|].
      split.
      { intros [|[|i]] c e0 Hi; [discriminate| |destruct i; discriminate].
        injection Hi as <- <-. auto. }
      split; [intros [|[|[|i]]] d0 Hi; discriminate|].
      split; [repeat constructor; discriminate|].
      intros Hnone. exfalso. eapply (Hnone 1). reflexivity.
    + destruct (Hstop e He) as (Ht & Hok & Hraise).
      exists [Event (root_request v) None; Event (UpdateRoot d) None;
              Event (OpenWrite root_file d) (Some e)].
      split; [assumption|].
      split; [exists 1; split; [simpl; lia|reflexivity]|].
      split.
      { intros [|[|[|i]]] c e0 Hi;
          [discriminate|discriminate| |destruct i; discriminate].
        injection Hi as <- <-. auto. }
      split.
      { intros [|[|[|[|i]]]] d0 Hi; try discriminate.
        injection Hi as <-. eexists. reflexivity. }
      split; [repeat constructor; discriminate|].
      intros Hnone. exfalso. eapply (Hnone 2). reflexivity.
    + destruct (IH s') as (evs' & Ht' & (k & Hk & Hd) & Hfail & Hpersist
                           & Hnoruf & Hclean).
      rewrite Hr in Htrace. cbn [res_state] in Htrace.
      assert (rotate (v :: versions) s = rotate versions s') as Hgo.
      { cbn [load_root_loop]. unfold bind. rewrite Hr. reflexivity. }
      unfold rotation_spec. rewrite Hgo.
      exists ([Event (root_request v) None; Event (UpdateRoot d) None;
               Event (OpenWrite root_file d) None] ++ evs').
      split; [rewrite Ht', Htrace, <- app_assoc; reflexivity|].
      split.
      { exists (S k). split; [simpl; lia|].
        unfold downloads in *. cbn. rewrite Hd. reflexivity. }
      split.
      { intros [|[|[|i]]] c e0 Hi; try discriminate.
        cbn in Hi |- *. apply (Hfail i c e0 Hi). }
      split.
      { intros [|[|[|i]]] d0 Hi; try discriminate.
        - injection Hi as <-. eexists. reflexivity.
        - cbn in Hi |- *. apply (Hpersist i d0 Hi). }
      split; [repeat constructor; try discriminate; assumption|].
      intros Hnone. apply Hclean. intros i c e0 Hi.
      apply (Hnone (S (S (S i))) c e0). exact Hi.
Qed.

Lemma filter_finished_none (evs : list event) :
  Forall (fun e => ev_call e <> RootUpdateFinished) evs ->
  filter (fun e => ev_call e = RootUpdateFinished) evs = [].
Proof.
  induction 1 as [|e evs He _ IH]; [reflexivity|].
  rewrite filter_cons. destruct (decide (ev_call e = RootUpdateFinished));
    [contradiction|assumption].
Qed.

(** The calls of [_load_root], one by one: which versions are asked
    for, what follows a call that raises, and what follows an accepted
    root. *)
Lemma load_root_calls (s : state W) :
  let lower_bound := (root_version (world s) + 1)%Z in
  exists evs,
    trace (res_state (_load_root urljoin self s)) = trace s ++ evs
    /\ (exists k,
          k <= Z.to_nat (max_root_rotations (config self))
          /\ downloads evs
             = map (fun i => root_url (lower_bound + Z.of_nat i)%Z) (seq 0 k))
    /\ (forall i url len c,
          evs !! i
          = Some (Event (DownloadBytes url len) (Some (FetcherHTTPError c))) ->
          c = 403%Z \/ c = 404%Z ->
          exists x,
            drop (S i) evs = [Event RootUpdateFinished x]
            /\ match x with
               | None => exists s', _load_root urljoin self s = Ok tt s'
               | Some e => exists s', _load_root urljoin self s = Raise e s'
               end)
    /\ (forall i url len e,
          evs !! i = Some (Event (DownloadBytes url len) (Some e)) ->
          e <> FetcherHTTPError 403 -> e <> FetcherHTTPError 404 ->
          drop (S i) evs = []
          /\ exists s', _load_root urljoin self s = Raise e s')
    /\ (forall i d,
          evs !! i = Some (Event (UpdateRoot d) None) ->
          exists x, evs !! (S i) = Some (Event (OpenWrite root_file d) x))
    /\ ((exists s', _load_root urljoin self s = Ok tt s') ->
        length (filter (fun e => ev_call e = RootUpdateFinished) evs) = 1
        /\ last evs = Some (Event RootUpdateFinished None)).
Proof.
  intros lower_bound. unfold _load_root. fold lower_bound.
  set (upper_bound := (lower_bound + max_root_rotations (config self))%Z).
  destruct (load_root_loop_spec (range lower_bound upper_bound) s)
    as (evs & Htrace & (k & Hk & Hd) & Hfail & Hpersist & Hnoruf & _).
  assert (k <= Z.to_nat (max_root_rotations (config self))) as Hk'.
  { unfold range in Hk. rewrite length_map, length_seq in Hk.
    unfold upper_bound in Hk. lia. }
  assert (downloads evs
          = map (fun i => root_url (lower_bound + Z.of_nat i)%Z) (seq 0 k))
    as Hd'.
  { rewrite Hd, range_seq by (unfold upper_bound; lia).
    rewrite map_map. reflexivity. }
  unfold bind.
  destruct (rotate (range lower_bound upper_bound) s) as [[] s1|e1 s1] eqn:Hrot;
    cbn [res_state] in Htrace.
  - assert (exists x,
              trace (res_state (perform RootUpdateFinished root_update_finished s1))
              = trace s ++ evs ++ [Event RootUpdateFinished x]
              /\ match x with
                 | None => exists s',
                     perform RootUpdateFinished root_update_finished s1 = Ok tt s'
                 | Some e => exists s',
                     perform RootUpdateFinished root_update_finished s1
                     = Raise e s'
                 end) as (x & Hx & Hres).
    { unfold perform.
      destruct (root_update_finished (world s1)) as [[[]|e] w'];
        [exists None|exists (Some e)]; cbn; rewrite Htrace, <- app_assoc;
        (split; [reflexivity|eexists; reflexivity]). }
    exists (evs ++ [Event RootUpdateFinished x]).
    split; [assumption|].
    split.
    { exists k. split; [assumption|].
      unfold downloads in *. rewrite omap_app, Hd'. cbn. apply app_nil_r. }
    assert (forall i url len e,
              (evs ++ [Event RootUpdateFinished x]) !! i
              = Some (Event (DownloadBytes url len) (Some e)) ->
              evs !! i = Some (Event (DownloadBytes url len) (Some e))
              /\ S i = length evs) as Hin.
    { intros i url len e Hi. apply lookup_app_Some in Hi.
      destruct Hi as [Hi|[_ Hi]].
      - split; [assumption|].
        pose proof (lookup_lt_Some _ _ _ Hi) as Hlt.
        destruct (Hfail i _ _ Hi) as (Hdrop & _).
        apply (f_equal length) in Hdrop. rewrite length_drop in Hdrop.
        simpl in Hdrop. lia.
      - destruct (i - length evs) as [|j]; [discriminate|].
        destruct j; discriminate. }
    split.
    { intros i url len c Hi Hc. destruct (Hin _ _ _ _ Hi) as (Hi' & Hlen).
      exists x. split; [apply drop_app_length'; assumption|exact Hres]. }
    split.
    { intros i url len e Hi H403 H404. destruct (Hin _ _ _ _ Hi) as (Hi' & _).
      destruct (Hfail i _ _ Hi') as (_ & _ & Hraise).
      destruct Hraise as (s' & Hs'); [|congruence].
      intros [?|?]; contradiction. }
    split.
    { intros i d Hi. apply lookup_app_Some in Hi. destruct Hi as [Hi|[_ Hi]].
      - destruct (Hpersist i d Hi) as (y & Hy). exists y.
        apply lookup_app_Some. left. assumption.
      - destruct (i - length evs) as [|j]; [discriminate|].
        destruct j; discriminate. }
    intros (s' & Hok). destruct x as [e|].
    + destruct Hres as (s'' & Hres). congruence.
    + split; [|apply last_snoc].
      rewrite filter_app, filter_finished_none by assumption. reflexivity.
  - exists evs. split; [assumption|].
    split; [exists k; split; assumption|].
    split.
    { intros i url len c Hi Hc. destruct (Hfail i _ _ Hi) as (_ & Hok & _).
      destruct Hok as (s' & Hs'); [|congruence].
      destruct Hc as [-> | ->]; [left|right]; reflexivity. }
    split.
    { intros i url len e Hi H403 H404.
      destruct (Hfail i _ _ Hi) as (Hdrop & _ & Hraise).
      split; [assumption|].
      destruct Hraise as (s' & Hs').
      - intros [?|?]; contradiction.
      - exists s1. congruence. }
    split; [exact Hpersist|].
    intros (s' & Hok). discriminate.
Qed.

Lemma consecutive_cons (v : Z) (n : nat) :
  map (fun i => (v + Z.of_nat i)%Z) (seq 0 (S n))
  = v :: map (fun i => (v + 1 + Z.of_nat i)%Z) (seq 0 n).
Proof.
  cbn [seq map]. f_equal; [lia|].
  rewrite <- seq_shift, map_map. apply map_ext. intros i. lia.
Qed.

(** A round goes on to the next version only when its three calls
    returned. *)
Lemma load_root_round_continues (v : Z) (s s' : state W) :
  round v s = Ok false s' ->
  exists d w1 w2,
    download_bytes
      (urljoin (_metadata_base_url self)
         (pretty v +:+ "." +:+ "root" +:+ ".json"))
      (root_max_length (config self)) (world s) = (Val d, w1)
    /\ update_root d w1 = (Val tt, w2)
    /\ open_write (os_path_join (_dir self) ("root" +:+ ".json")) d w2
       = (Val tt, world s')
    /\ trace s' = trace s ++ accepted_round urljoin self v d.
Proof.
  unfold load_root_round, try_except, bind, _download_metadata,
    _persist_metadata, perform, ret.
  destruct (download_bytes _ _ (world s)) as [[d|e] w1] eqn:Hdl;
    cbn [world trace].
  - destruct (update_root d w1) as [[[]|e] w2] eqn:Hup; cbn [world trace].
    + destruct (open_write _ d w2) as [[[]|e] w3] eqn:Hwr; cbn [world trace].
      * intros [= <-]. exists d, w1, w2. cbn [world trace].
        unfold accepted_round. rewrite <- !app_assoc. auto.
      * rewrite handler_cases. destruct (not_found_dec e); discriminate.
    + rewrite handler_cases. destruct (not_found_dec e); discriminate.
  - rewrite handler_cases. destruct (not_found_dec e); discriminate.
Qed.

(** The loop over [n] consecutive versions from [v]: rounds that accept
    a root, until the versions are used up or a call raises. *)
Lemma load_root_loop_rounds (n : nat) (v : Z) (s : state W) :
  let versions := map (fun i => (v + Z.of_nat i)%Z) (seq 0 n) in
  exists ds stop,
    trace (res_state (rotate versions s))
    = trace s ++ accepted_rounds urljoin self v ds ++ stop
    /\ fetched_in_turn urljoin self v ds (world s)
    /\ ((length ds = n /\ stop = []
         /\ exists s', rotate versions s = Ok tt s')
        \/ (length ds < n
            /\ exists e,
                 stopped_round urljoin self (v + Z.of_nat (length ds)) e stop
                 /\ ((not_found e /\ exists s', rotate versions s = Ok tt s')
                     \/ (~ not_found e
                         /\ exists s', rotate versions s = Raise e s')))).
Proof.
  cbv zeta. revert v s. induction n as [|n IH]; intros v s.
  - exists [], []. cbn. rewrite app_nil_r. split; [reflexivity|].
    split; [exact I|].
    left. split; [reflexivity|]. split; [reflexivity|]. eexists. reflexivity.
  - rewrite consecutive_cons.
    set (rest := map (fun i => (v + 1 + Z.of_nat i)%Z) (seq 0 n)).
    destruct (load_root_round_shape v s) as (evs & Htrace & Hshape).
    assert (forall e,
              round_after_exception urljoin self v s e ->
              trace (res_state (rotate (v :: rest) s)) = trace s ++ evs
              /\ ((not_found e /\ exists s', rotate (v :: rest) s = Ok tt s')
                  \/ (~ not_found e
                      /\ exists s', rotate (v :: rest) s = Raise e s')))
      as Hstop.
    { intros e [[Hnf (s' & Hr)]|[Hnf (s' & Hr)]];
        cbn [load_root_loop]; unfold bind; rewrite Hr in *;
        cbn [res_state ret] in *; (split; [assumption|]);
        [left|right]; (split; [assumption|]); eexists; reflexivity. }
    assert (forall e,
              stopped_round urljoin self v e evs ->
              round_after_exception urljoin self v s e ->
              exists ds stop,
                trace (res_state (rotate (v :: rest) s))
                = trace s ++ accepted_rounds urljoin self v ds ++ stop
                /\ fetched_in_turn urljoin self v ds (world s)
                /\ ((length ds = S n /\ stop = []
                     /\ exists s', rotate (v :: rest) s = Ok tt s')
                    \/ (length ds < S n
                        /\ exists e,
                             stopped_round urljoin self
                               (v + Z.of_nat (length ds)) e stop
                             /\ ((not_found e
                                  /\ exists s', rotate (v :: rest) s = Ok tt s')
                                 \/ (~ not_found e
                                     /\ exists s',
                                          rotate (v :: rest) s = Raise e s')))))
      as Hfirst.
    { intros e Hstopped Hafter. destruct (Hstop e Hafter) as (Ht & Hout).
      exists [], evs. cbn [accepted_rounds app length].
      split; [assumption|]. split; [exact I|]. right. split; [lia|]. exists e.
      replace (v + Z.of_nat 0)%Z with v by lia. split; assumption. }
    destruct Hshape as [(e & -> & He)|[(d & e & -> & He)|[(d & e & -> & He)
                        |(d & -> & s' & Hr)]]].
    + apply (Hfirst e); [|assumption]. left. reflexivity.
    + apply (Hfirst e); [|assumption]. right. left. exists d. reflexivity.
    + apply (Hfirst e); [|assumption]. right. right. exists d. reflexivity.
    + clear Hstop Hfirst. rewrite Hr in Htrace. cbn [res_state] in Htrace.
      assert (rotate (v :: rest) s = rotate rest s') as Hgo.
      { cbn [load_root_loop]. unfold bind. rewrite Hr. reflexivity. }
      rewrite Hgo.
      destruct (IH (v + 1)%Z s') as (ds & stop & Ht & Hfetched & Hcases).
      fold rest in Ht, Hcases.
      destruct (load_root_round_continues v s s' Hr)
        as (d' & w1 & w2 & Hdl & Hup & Hwr & Htr).
      rewrite Htrace in Htr. apply app_inv_head in Htr.
      injection Htr as Hd. subst d'.
      exists (d :: ds), stop. cbn [accepted_rounds length].
      split.
      { rewrite Ht, Htrace. unfold accepted_round.
        rewrite <- !app_assoc. reflexivity. }
      split; [exists w1, w2, (world s'); auto|].
      replace (v + Z.of_nat (S (length ds)))%Z
        with (v + 1 + Z.of_nat (length ds))%Z by lia.
      destruct Hcases as [(Hlen & Hs & Hok)|(Hlen & Hrest)].
      * left. split; [lia|]. split; assumption.
      * right. split; [lia|]. assumption.
Qed.

(** The shape of a whole [_load_root]. *)
Lemma load_root_rounds (s : state W) :
  let lower_bound := (root_version (world s) + 1)%Z in
  let cap := Z.to_nat (max_root_rotations (config self)) in
  exists ds stop fin,
    trace (res_state (_load_root urljoin self s))
    = trace s ++ accepted_rounds urljoin self lower_bound ds ++ stop ++ fin
    /\ fetched_in_turn urljoin self lower_bound ds (world s)
    /\ length ds <= cap
    /\ ((((length ds = cap /\ stop = [])
          \/ (length ds < cap
              /\ exists e,
                   stopped_round urljoin self
                     (lower_bound + Z.of_nat (length ds)) e stop
                   /\ not_found e))
         /\ exists x,
              fin = [Event RootUpdateFinished x]
              /\ match x with
                 | None => exists s', _load_root urljoin self s = Ok tt s'
                 | Some e => exists s', _load_root urljoin self s = Raise e s'
                 end)
        \/ (length ds < cap
            /\ fin = []
            /\ exists e,
                 stopped_round urljoin self
                   (lower_bound + Z.of_nat (length ds)) e stop
                 /\ ~ not_found e
                 /\ exists s', _load_root urljoin self s = Raise e s')).
Proof.
  intros lower_bound cap. unfold _load_root. fold lower_bound.
  unfold range.
  replace (lower_bound + max_root_rotations (config self) - lower_bound)%Z
    with (max_root_rotations (config self)) by lia.
  fold cap.
  destruct (load_root_loop_rounds cap lower_bound s)
    as (ds & stop & Ht & Hfetched & Hcases).
  set (versions := map (fun i => (lower_bound + Z.of_nat i)%Z) (seq 0 cap)) in *.
  unfold bind.
  assert (forall s1,
            rotate versions s = Ok tt s1 ->
            exists x,
              trace (res_state (perform RootUpdateFinished root_update_finished s1))
              = trace s1 ++ [Event RootUpdateFinished x]
              /\ match x with
                 | None => exists s',
                     perform RootUpdateFinished root_update_finished s1 = Ok tt s'
                 | Some e => exists s',
                     perform RootUpdateFinished root_update_finished s1
                     = Raise e s'
                 end) as Hfin.
  { intros s1 _. unfold perform.
    destruct (root_update_finished (world s1)) as [[[]|e] w'];
      [exists None|exists (Some e)]; cbn;
      (split; [reflexivity|eexists; reflexivity]). }
  destruct (rotate versions s) as [[] s1|e1 s1] eqn:Hrot;
    cbn [res_state] in Ht.
  - destruct (Hfin s1 eq_refl) as (x & Hx & Hres).
    exists ds, stop, [Event RootUpdateFinished x].
    split; [rewrite Hx, Ht, <- !app_assoc; reflexivity|].
    split; [assumption|].
    destruct Hcases as [(Hlen & Hs & _)|(Hlen & e & Hstopped & Hout)].
    + split; [lia|]. left. split; [left; split; assumption|].
      exists x. split; [reflexivity|assumption].
    + split; [lia|]. left.
      destruct Hout as [(Hnf & _)|(_ & s' & Hs')]; [|discriminate].
      split; [right; split; [assumption|]; exists e; split; assumption|].
      exists x. split; [reflexivity|assumption].
  - exists ds, stop, []. rewrite app_nil_r.
    split; [assumption|]. split; [assumption|].
    destruct Hcases as [(_ & _ & s' & Hs')|(Hlen & e & Hstopped & Hout)];
      [discriminate|].
    split; [lia|]. right. split; [assumption|]. split; [reflexivity|].
    destruct Hout as [(_ & s' & Hs')|(Hnf & s' & Hs')]; [discriminate|].
    injection Hs' as <- <-.
    exists e1. split; [assumption|]. split; [assumption|].
    eexists. reflexivity.
Qed.

Lemma accepted_rounds_not_finished (v : Z) (ds : list (list byte)) :
  filter (fun e => ev_call e = RootUpdateFinished)
    (accepted_rounds urljoin self v ds) = [].
Proof.
  revert v. induction ds as [|d ds IH]; intros v; [reflexivity|].
  cbn [accepted_rounds]. rewrite filter_app, IH. reflexivity.
Qed.

Lemma stopped_round_not_finished (v : Z) (e : exn) (stop : list event) :
  stopped_round urljoin self v e stop ->
  filter (fun e => ev_call e = RootUpdateFinished) stop = [].
Proof. intros [->|[(d & ->)|(d & ->)]]; reflexivity. Qed.

(** C4. [_load_root] runs one round after the other for the versions
    that follow the trusted root's: a round asks the fetcher for the
    next version (at most [root_max_length] bytes), hands what it got to
    [update_root] and writes the accepted root to the local directory;
    only then is the next version asked for.  The rounds go on until
    [max_root_rotations] roots have been accepted or a call raises.
    When the call raises HTTP 403 or 404 the loop ends normally, and
    whenever the loop ends normally [root_update_finished] is called,
    once and as the last call, and its outcome is the outcome of
    [_load_root].  Any other exception is raised as it is by
    [_load_root], the call that raised it is the last one, and
    [root_update_finished] is not called. *)
Theorem load_root_rotation (s : state W) :
  let lower_bound := (root_version (world s) + 1)%Z in
  let cap := Z.to_nat (max_root_rotations (config self)) in
  exists evs,
    trace (res_state (_load_root urljoin self s)) = trace s ++ evs
    /\ (exists ds stop fin,
          evs = accepted_rounds urljoin self lower_bound ds ++ stop ++ fin
          /\ fetched_in_turn urljoin self lower_bound ds (world s)
          /\ length ds <= cap
          /\ length (filter (fun e => ev_call e = RootUpdateFinished) evs)
             = length fin
          /\ ((((length ds = cap /\ stop = [])
                \/ (length ds < cap
                    /\ exists e,
                         stopped_round urljoin self
                           (lower_bound + Z.of_nat (length ds)) e stop
                         /\ not_found e))
               /\ exists x,
                    fin = [Event RootUpdateFinished x]
                    /\ match x with
                       | None =>
                           exists s', _load_root urljoin self s = Ok tt s'
                       | Some e =>
                           exists s', _load_root urljoin self s = Raise e s'
                       end)
              \/ (length ds < cap
                  /\ fin = []
                  /\ exists e,
                       stopped_round urljoin self
                         (lower_bound + Z.of_nat (length ds)) e stop
                       /\ ~ not_found e
                       /\ exists s', _load_root urljoin self s = Raise e s')))
    /\ (exists k,
          k <= cap
          /\ downloads evs
             = map (fun i => root_url (lower_bound + Z.of_nat i)%Z) (seq 0 k))
    /\ (forall i url len c,
          evs !! i
          = Some (Event (DownloadBytes url len) (Some (FetcherHTTPError c))) ->
          c = 403%Z \/ c = 404%Z ->
          exists x,
            drop (S i) evs = [Event RootUpdateFinished x]
            /\ match x with
               | None => exists s', _load_root urljoin self s = Ok tt s'
               | Some e => exists s', _load_root urljoin self s = Raise e s'
               end)
    /\ (forall i url len e,
          evs !! i = Some (Event (DownloadBytes url len) (Some e)) ->
          e <> FetcherHTTPError 403 -> e <> FetcherHTTPError 404 ->
          drop (S i) evs = []
          /\ exists s', _load_root urljoin self s = Raise e s')
    /\ (forall i d,
          evs !! i = Some (Event (UpdateRoot d) None) ->
          exists x, evs !! (S i) = Some (Event (OpenWrite root_file d) x))
    /\ ((exists s', _load_root urljoin self s = Ok tt s') ->
        length (filter (fun e => ev_call e = RootUpdateFinished) evs) = 1
        /\ last evs = Some (Event RootUpdateFinished None)).
Proof.
  intros lower_bound cap.
  destruct (load_root_calls s) as (evs & Ht & Hcalls).
  fold lower_bound in Hcalls. fold cap in Hcalls.
  exists evs. split; [assumption|]. split; [|exact Hcalls].
  destruct (load_root_rounds s)
    as (ds & stop & fin & Ht' & Hfetched & Hlen & Hcases).
  fold lower_bound in Ht', Hcases. fold cap in Hlen, Hcases.
  rewrite Ht in Ht'. apply app_inv_head in Ht'.
  exists ds, stop, fin. split; [assumption|]. split; [assumption|].
  split; [assumption|]. split; [|exact Hcases].
  rewrite Ht', !filter_app, accepted_rounds_not_finished.
  assert (filter (fun e => ev_call e = RootUpdateFinished) stop = []) as ->.
  { destruct Hcases as [[[(_ & ->)|(_ & e & Hst & _)] _]|(_ & _ & e & Hst & _)];
      [reflexivity|apply (stopped_round_not_finished _ _ _ Hst)..]. }
  destruct Hcases as [[_ (x & -> & _)]|(_ & -> & _)]; reflexivity.
Qed.

Local Notation "'timestamp_url'" :=
  (urljoin (_metadata_base_url self) ("timestamp" +:+ ".json")).
Local Notation "'timestamp_file'" :=
  (os_path_join (_dir self) ("timestamp" +:+ ".json")).
Local Notation "'snapshot_file'" :=
  (os_path_join (_dir self) ("snapshot" +:+ ".json")).

(** Reading and accepting a local copy asks nothing of the fetcher. *)
Lemma local_timestamp_trace (s : state W) :
  exists evs,
    trace (res_state (local_timestamp self s)) = trace s ++ evs
    /\ downloads evs = [].
Proof.
  unfold local_timestamp, bind, _load_local_metadata, perform.
  destruct (open_read _ (world s)) as [d|e]; cbn [world trace].
  - destruct (update_timestamp d (world s)) as [[[]|e] w'];
      eexists; (split; [cbn; rewrite <- app_assoc; reflexivity|reflexivity]).
  - eexists. split; reflexivity.
Qed.

Lemma local_snapshot_trace (s : state W) :
  exists evs,
    trace (res_state (local_snapshot self s)) = trace s ++ evs
    /\ downloads evs = [].
Proof.
  unfold local_snapshot, bind, _load_local_metadata, perform.
  destruct (open_read _ (world s)) as [d|e]; cbn [world trace].
  - destruct (update_snapshot d (world s)) as [[[]|e] w'];
      eexists; (split; [cbn; rewrite <- app_assoc; reflexivity|reflexivity]).
  - eexists. split; reflexivity.
Qed.

(** C6. A local timestamp that cannot be read or is rejected with an
    [OSError] or a repository error does not end [_load_timestamp]:
    whether the local copy was accepted or not, the next call fetches
    [timestamp.json] (at most [timestamp_max_length] bytes); the bytes
    fetched go to [update_timestamp] and, once accepted, to the local
    file; the outcome of [_load_timestamp] is the outcome of these
    three calls. *)
Theorem load_timestamp_always_fetches (s : state W) :
  (forall e s', local_timestamp self s = Raise e s' ->
                e = OSError \/ e = RepositoryError) ->
  let s1 := res_state (local_timestamp self s) in
  let request :=
    DownloadBytes timestamp_url (timestamp_max_length (config self)) in
  exists evs,
    trace (res_state (_load_timestamp urljoin self s)) = trace s1 ++ evs
    /\ ((exists e s',
           evs = [Event request (Some e)]
           /\ _load_timestamp urljoin self s = Raise e s')
        \/ (exists data,
              fst (download_bytes timestamp_url
                     (timestamp_max_length (config self)) (world s1))
              = Val data
              /\ ((exists e s',
                     evs = [Event request None;
                            Event (UpdateTimestamp data) (Some e)]
                     /\ _load_timestamp urljoin self s = Raise e s')
                  \/ (exists e s',
                        evs = [Event request None;
                               Event (UpdateTimestamp data) None;
                               Event (OpenWrite timestamp_file data) (Some e)]
                        /\ _load_timestamp urljoin self s = Raise e s')
                  \/ (exists s',
                        evs = [Event request None;
                               Event (UpdateTimestamp data) None;
                               Event (OpenWrite timestamp_file data) None]
                        /\ _load_timestamp urljoin self s = Ok tt s')))).
Proof.
  intros Hlocal s1 request.
  assert (_load_timestamp urljoin self s
          = (data <- _download_metadata urljoin self "timestamp"
                       (timestamp_max_length (config self)) None ;;
             perform (UpdateTimestamp data) (update_timestamp data) ;;
             _persist_metadata self "timestamp" data) s1) as Hgo.
  { unfold _load_timestamp, s1. unfold bind at 1. unfold try_except.
    destruct (local_timestamp self s) as [[] s'|e s'] eqn:Hl; [reflexivity|].
    destruct (Hlocal e s' eq_refl) as [-> | ->]; reflexivity. }
  rewrite Hgo. clearbody s1. clear Hgo Hlocal.
  unfold bind, _download_metadata, _persist_metadata, perform.
  destruct (download_bytes _ _ (world s1)) as [[d|e] w1]; cbn [world trace fst].
  - destruct (update_timestamp d w1) as [[[]|e] w2]; cbn [world trace].
    + destruct (open_write _ d w2) as [[[]|e] w3]; cbn [world trace res_state];
        eexists; (split; [rewrite <- !app_assoc; reflexivity|]);
        right; exists d; (split; [reflexivity|]); right;
        [right|left]; repeat eexists.
    + eexists. split; [cbn; rewrite <- !app_assoc; reflexivity|].
      right. exists d. split; [reflexivity|]. left. repeat eexists.
  - eexists. split; [reflexivity|]. left. repeat eexists.
Qed.

(** C5.  The attempt on the local snapshot asks nothing of the
    fetcher; when it succeeds [_load_snapshot] is done; when it raises
    anything but an [OSError] or a repository error that exception is
    raised.  When it raises one of these two, the next call fetches the
    snapshot: under the versioned name if and only if the trusted root
    has [consistent_snapshot] set, and with the length of the
    timestamp's snapshot reference or, when that is absent,
    [snapshot_max_length]; nothing else is fetched.  The reference is a
    [MetaFile], whose length is absent or positive. *)
Theorem load_snapshot_local_then_remote (s : state W) :
  let s1 := res_state (local_snapshot self s) in
  (exists evs, trace s1 = trace s ++ evs /\ downloads evs = [])
  /\ (local_snapshot self s = Ok tt s1 ->
      _load_snapshot urljoin self s = Ok tt s1)
  /\ (forall e,
        local_snapshot self s = Raise e s1 ->
        e <> OSError -> e <> RepositoryError ->
        _load_snapshot urljoin self s = Raise e s1)
  /\ (forall e metainfo,
        local_snapshot self s = Raise e s1 ->
        e = OSError \/ e = RepositoryError ->
        timestamp_meta "snapshot.json" (world s1) = Val metainfo ->
        valid_length metainfo ->
        let filename :=
          if root_consistent_snapshot (world s1)
          then pretty (mf_version metainfo) +:+ "." +:+ "snapshot" +:+ ".json"
          else "snapshot" +:+ ".json" in
        let length :=
          match mf_length metainfo with
          | Some l => l
          | None => snapshot_max_length (config self)
          end in
        exists r rest,
          trace (res_state (_load_snapshot urljoin self s))
          = trace s1
              ++ Event (DownloadBytes
                          (urljoin (_metadata_base_url self) filename) length) r
              :: rest
          /\ downloads rest = [])
  /\ (forall evs,
        trace (res_state (_load_snapshot urljoin self s)) = trace s ++ evs ->
        downloads evs <> [] ->
        exists e, local_snapshot self s = Raise e s1
                  /\ (e = OSError \/ e = RepositoryError)).
Proof.
  intros s1.
  destruct (local_snapshot_trace s) as (evs0 & Ht0 & Hd0). fold s1 in Ht0.
  assert (local_snapshot self s = Ok tt s1 ->
          _load_snapshot urljoin self s = Ok tt s1) as Hok.
  { intros Hl. unfold _load_snapshot, try_except. rewrite Hl. reflexivity. }
  assert (forall e,
            local_snapshot self s = Raise e s1 ->
            e <> OSError -> e <> RepositoryError ->
            _load_snapshot urljoin self s = Raise e s1) as Hother.
  { intros e Hl H1 H2. unfold _load_snapshot, try_except. rewrite Hl.
    destruct e; try reflexivity; contradiction. }
  assert (forall e metainfo,
        local_snapshot self s = Raise e s1 ->
        e = OSError \/ e = RepositoryError ->
        timestamp_meta "snapshot.json" (world s1) = Val metainfo ->
        valid_length metainfo ->
        let filename :=
          if root_consistent_snapshot (world s1)
          then pretty (mf_version metainfo) +:+ "." +:+ "snapshot" +:+ ".json"
          else "snapshot" +:+ ".json" in
        let length :=
          match mf_length metainfo with
          | Some l => l
          | None => snapshot_max_length (config self)
          end in
        exists r rest,
          trace (res_state (_load_snapshot urljoin self s))
          = trace s1
              ++ Event (DownloadBytes
                          (urljoin (_metadata_base_url self) filename) length) r
              :: rest
          /\ downloads rest = []) as Hremote.
  { intros e metainfo Hl He Hmeta Hvalid filename length.
    assert (length = py_or (mf_length metainfo)
                       (snapshot_max_length (config self))) as Hlength.
    { unfold length, py_or. unfold valid_length in Hvalid.
      destruct (mf_length metainfo) as [l|]; [|reflexivity].
      destruct (Z.eqb_spec l 0); [lia|reflexivity]. }
    clearbody length. subst length.
    unfold _load_snapshot, try_except. rewrite Hl.
    replace (is_OSError_or_RepositoryError e) with true
      by (destruct He as [-> | ->]; reflexivity).
    unfold bind at 1. unfold attribute. rewrite Hmeta.
    unfold bind, _download_metadata, _persist_metadata, perform.
    assert ((if root_consistent_snapshot (world s1)
             then pretty (mf_version metainfo) +:+ "." +:+ "snapshot" +:+ ".json"
             else "snapshot" +:+ ".json")
            = match (if root_consistent_snapshot (world s1)
                     then Some (mf_version metainfo) else None) with
              | Some v => pretty v +:+ "." +:+ "snapshot" +:+ ".json"
              | None => "snapshot" +:+ ".json"
              end) as Hname
      by (destruct (root_consistent_snapshot (world s1)); reflexivity).
    unfold filename. rewrite Hname.
    destruct (download_bytes _ _ (world s1)) as [[d|e1] w1]; cbn [world trace].
    - destruct (update_snapshot d w1) as [[[]|e2] w2]; cbn [world trace].
      + destruct (open_write _ d w2) as [[[]|e3] w3]; cbn [world trace res_state];
          eexists; eexists; (split; [rewrite <- !app_assoc; reflexivity|]);
          reflexivity.
      + eexists. eexists.
        split; [cbn; rewrite <- !app_assoc; reflexivity|]. reflexivity.
    - eexists. eexists. split; [cbn; reflexivity|]. reflexivity. }
  split; [exists evs0; split; assumption|].
  split; [exact Hok|]. split; [exact Hother|]. split; [exact Hremote|].
  intros evs Htrace Hdl.
  destruct (local_snapshot self s) as [[] s'|e s'] eqn:Hl.
  - exfalso. unfold s1 in *. cbn [res_state] in *.
    rewrite (Hok eq_refl) in Htrace. cbn [res_state] in Htrace.
    rewrite Ht0 in Htrace. apply app_inv_head in Htrace. subst evs.
    contradiction.
  - exists e. unfold s1. cbn [res_state]. split; [reflexivity|].
    destruct (decide (e = OSError)) as [|H1]; [left; assumption|].
    destruct (decide (e = RepositoryError)) as [|H2]; [right; assumption|].
    exfalso. unfold s1 in *. cbn [res_state] in *.
    rewrite (Hother e eq_refl H1 H2) in Htrace. cbn [res_state] in Htrace.
    rewrite Ht0 in Htrace. apply app_inv_head in Htrace. subst evs.
    contradiction.
Qed.

End RefreshFacts.

(** * [updated_targets] *)

Lemma first_per_path_spec (dest : string) (seen : list string)
    (ts : list TargetInfo) :
  let res := first_per_path dest seen ts in
  NoDup (destination dest <$> res)
  /\ (forall t, t ∈ res -> t ∈ ts /\ destination dest t ∉ seen)
  /\ (forall t, t ∈ ts ->
        destination dest t ∈ seen
        \/ destination dest t ∈ destination dest <$> res)
  /\ res `sublist_of` ts.
Proof.
  revert seen. induction ts as [|t ts IH]; intros seen; simpl.
  - split; [constructor|]. split; [intros t Ht; inversion Ht|].
    split; [intros t Ht; inversion Ht|constructor].
  - destruct (decide (destination dest t ∈ seen)) as [Hin|Hnin].
    + destruct (IH seen) as (Hnd & Hsub & Hcov & Hsl).
      split; [assumption|]. split.
      { intros t' Ht'. destruct (Hsub t' Ht'). split; [right|]; assumption. }
      split.
      { intros t' Ht'. apply elem_of_cons in Ht'. destruct Ht' as [->|Ht'].
        - left. assumption.
        - apply Hcov. assumption. }
      apply sublist_cons. assumption.
    + destruct (IH (seen ++ [destination dest t])) as (Hnd & Hsub & Hcov & Hsl).
      split.
      { simpl. constructor; [|assumption].
        intros Hin. apply list_elem_of_fmap in Hin.
        destruct Hin as (t' & Heq & Ht'). destruct (Hsub t' Ht') as [_ Hn].
        apply Hn. rewrite <- Heq. apply elem_of_app. right. left. }
      split.
      { intros t' Ht'. apply elem_of_cons in Ht'. destruct Ht' as [->|Ht'].
        - split; [left|assumption].
        - destruct (Hsub t' Ht') as [Hts Hn]. split; [right; assumption|].
          intros Hs. apply Hn. apply elem_of_app. left. assumption. }
      split.
      { intros t' Ht'. apply elem_of_cons in Ht'. destruct Ht' as [->|Ht'].
        - right. simpl. left.
        - destruct (Hcov t' Ht') as [Hs|Hr].
          + apply elem_of_app in Hs. destruct Hs as [Hs|Hs];
              [left; assumption|].
            apply list_elem_of_singleton in Hs. right. simpl. rewrite Hs. left.
          + right. simpl. right. assumption. }
      apply sublist_skip. assumption.
Qed.

Section UpdatedTargetsFacts.

Context {W : Type}.
Context `{!LocalFiles W}.
Variable verify_length_and_hashes : TargetFile -> list byte -> Except unit.

Local Notation "'needs'" := (needs_update verify_length_and_hashes).
Local Notation "'caught'" := (check_is_caught verify_length_and_hashes).

(** The check of one target, run in the monad. *)
Lemma check_target_file_outcome (dest : string) (t : TargetInfo) (s : state W) :
  exists s',
    world s' = world s
    /\ check_target_file verify_length_and_hashes (destination dest t)
         (fileinfo t) s
       = match check_outcome verify_length_and_hashes (world s) dest t with
         | Val _ => Ok tt s'
         | Exc e => Raise e s'
         end.
Proof.
  unfold check_target_file, check_outcome, bind, perform, destination.
  destruct (open_read _ (world s)) as [data|e].
  - destruct (fileinfo t) as [fi|]; cbn.
    + unfold lift. destruct (verify_length_and_hashes fi data) as [[]|e];
        eexists; (split; [|reflexivity]); reflexivity.
    + eexists. split; [|reflexivity]. reflexivity.
  - eexists. split; [|reflexivity]. reflexivity.
Qed.

Lemma updated_targets_loop_spec (dest : string) (targets : list TargetInfo) :
  forall (updated : list TargetInfo) (seen : list string) (s : state W),
    (forall t, t ∈ targets -> caught (world s) dest t) ->
    exists s',
      world s' = world s
      /\ updated_targets_loop verify_length_and_hashes targets dest updated
           seen s
         = Ok (updated
               ++ first_per_path dest seen
                    (filter (fun t => needs (world s) dest t = true) targets))
              s'.
Proof.
  induction targets as [|t targets IH]; intros updated seen s Hc.
  - exists s. split; [reflexivity|]. simpl. rewrite app_nil_r. reflexivity.
  - assert (forall t', t' ∈ targets -> caught (world s) dest t') as Hc'
      by (intros t' Ht'; apply Hc; right; assumption).
    pose proof (Hc t ltac:(left)) as Ht.
    cbn [updated_targets_loop]. fold (destination dest t).
    rewrite filter_cons.
    destruct (decide (destination dest t ∈ seen)) as [Hin|Hnin].
    + destruct (IH updated seen s Hc') as (s' & Hw & Hrun).
      exists s'. split; [assumption|]. rewrite Hrun.
      destruct (decide (needs (world s) dest t = true)); [|reflexivity].
      cbn [first_per_path].
      destruct (decide (destination dest t ∈ seen)); [reflexivity|contradiction].
    + unfold bind at 1. unfold try_except. unfold bind at 1.
      destruct (check_target_file_outcome dest t s) as (s1 & Hw1 & Hchk).
      rewrite Hchk. unfold check_is_caught in Ht.
      assert (needs (world s) dest t
              = match check_outcome verify_length_and_hashes (world s) dest t with
                | Exc e => is_OSError_or_LengthOrHashMismatchError e
                | Val _ => false
                end) as Hneeds by reflexivity.
      destruct (check_outcome verify_length_and_hashes (world s) dest t)
        as [[]|e].
      * cbn. destruct (IH updated seen s1) as (s' & Hw & Hrun).
        { rewrite Hw1. assumption. }
        exists s'. split; [congruence|]. rewrite Hrun, Hw1.
        destruct (decide (needs (world s) dest t = true)); [congruence|].
        reflexivity.
      * rewrite Ht. cbn.
        destruct (IH (updated ++ [t]) (seen ++ [destination dest t]) s1)
          as (s' & Hw & Hrun).
        { rewrite Hw1. assumption. }
        exists s'. split; [congruence|]. rewrite Hrun, Hw1.
        destruct (decide (needs (world s) dest t = true)); [|congruence].
        cbn [first_per_path].
        destruct (decide (destination dest t ∈ seen)); [contradiction|].
        rewrite <- app_assoc. reflexivity.
Qed.

(** C9. When no check raises an exception other than the two caught,
    [updated_targets] returns the input targets whose destination file
    is missing, unreadable or fails the length-and-hashes check, in
    input order, the first one only for each destination path: every
    target returned is an input target that needs an update, every
    input target that needs an update has its destination path in the
    result (and is itself in the result when no other input target
    shares that path), and no destination path occurs twice. *)
Theorem updated_targets_lists_stale_once
    (targets : list TargetInfo) (destination_directory : string)
    (s : state W) :
  (forall t, t ∈ targets -> caught (world s) destination_directory t) ->
  exists res s',
    updated_targets verify_length_and_hashes targets destination_directory s
    = Ok res s'
    /\ world s' = world s
    /\ res = filter_updated verify_length_and_hashes (world s)
               destination_directory targets
    /\ (forall t, t ∈ res ->
          t ∈ targets /\ needs (world s) destination_directory t = true)
    /\ (forall t, t ∈ targets ->
          needs (world s) destination_directory t = true ->
          destination destination_directory t
          ∈ destination destination_directory <$> res)
    /\ (forall t, t ∈ targets ->
          needs (world s) destination_directory t = true ->
          (forall t', t' ∈ targets ->
             destination destination_directory t'
             = destination destination_directory t -> t' = t) ->
          t ∈ res)
    /\ NoDup (destination destination_directory <$> res)
    /\ res `sublist_of` targets.
Proof.
  intros Hc.
  destruct (updated_targets_loop_spec destination_directory targets [] [] s Hc)
    as (s' & Hw & Hrun).
  simpl in Hrun. unfold updated_targets.
  eexists. exists s'. split; [exact Hrun|]. split; [assumption|].
  split; [reflexivity|].
  set (stale := filter (fun t => needs (world s) destination_directory t = true)
                  targets) in *.
  destruct (first_per_path_spec destination_directory [] stale)
    as (Hnd & Hsub & Hcov & Hsl).
  assert (forall t, t ∈ first_per_path destination_directory [] stale ->
            t ∈ targets /\ needs (world s) destination_directory t = true)
    as Hsound.
  { intros t Ht. destruct (Hsub t Ht) as [Hst _].
    apply list_elem_of_filter in Hst. tauto. }
  assert (forall t, t ∈ targets ->
            needs (world s) destination_directory t = true ->
            destination destination_directory t
            ∈ destination destination_directory
                <$> first_per_path destination_directory [] stale) as Hcomplete.
  { intros t Ht Hn.
    destruct (Hcov t) as [Hs|Hr]; [|inversion Hs|assumption].
    apply list_elem_of_filter. split; assumption. }
  split; [exact Hsound|]. split; [exact Hcomplete|].
  split.
  { intros t Ht Hn Huniq.
    pose proof (Hcomplete t Ht Hn) as Hin.
    apply list_elem_of_fmap in Hin. destruct Hin as (t' & Heq & Ht').
    destruct (Hsound t' Ht') as [Hts _].
    rewrite <- (Huniq t' Hts (eq_sym Heq)). assumption. }
  split; [assumption|].
  etransitivity; [exact Hsl|]. apply sublist_filter.
Qed.

End UpdatedTargetsFacts.

(** ** The refresh steps and [updated_targets] on the examples *)

Example rotation_to_latest_root :
  (map ev_call
     (trace (res_state (_load_root Toy.urljoin Toy.updater
                          (Toy.start Scenario.rotating)))),
   root_version
     (world (res_state (_load_root Toy.urljoin Toy.updater
                          (Toy.start Scenario.rotating)))))
  = ([DownloadBytes "https://repo/metadata/2.root.json" 512000;
      UpdateRoot (Toy.bytes "root-v2");
      OpenWrite "/meta/root.json" (Toy.bytes "root-v2");
      DownloadBytes "https://repo/metadata/3.root.json" 512000;
      UpdateRoot (Toy.bytes "root-v3");
      OpenWrite "/meta/root.json" (Toy.bytes "root-v3");
      DownloadBytes "https://repo/metadata/4.root.json" 512000;
      RootUpdateFinished], 3%Z).
Proof. vm_compute. reflexivity. Qed.

(** The same run as rounds: versions 2 and 3 are accepted, the
    request for version 4 is answered with 404. *)
Example rotation_rounds :
  trace (res_state (_load_root Toy.urljoin Toy.updater
                      (Toy.start Scenario.rotating)))
  = accepted_rounds Toy.urljoin Toy.updater 2
      [Toy.bytes "root-v2"; Toy.bytes "root-v3"]
    ++ [Event (DownloadBytes "https://repo/metadata/4.root.json" 512000)
          (Some (FetcherHTTPError 404))]
    ++ [Event RootUpdateFinished None].
Proof. vm_compute. reflexivity. Qed.

(** With [max_root_rotations = 2] version 4 is not asked for. *)
Example rotation_capped :
  trace (res_state (_load_root Toy.urljoin Deployment.two_rotations
                      (Toy.start Scenario.rotating)))
  = accepted_rounds Toy.urljoin Deployment.two_rotations 2
      [Toy.bytes "root-v2"; Toy.bytes "root-v3"]
    ++ [Event RootUpdateFinished None].
Proof. vm_compute. reflexivity. Qed.

Example rotation_fatal_fetch :
  _load_root Toy.urljoin Toy.updater (Toy.start Scenario.broken_remote)
  = Raise (FetcherHTTPError 500)
      (State Scenario.broken_remote
         [Event (DownloadBytes "https://repo/metadata/2.root.json" 512000)
            (Some (FetcherHTTPError 500))]).
Proof. vm_compute. reflexivity. Qed.

Lemma load_timestamp_always_fetches_witness :
  let s := Toy.start Scenario.first_run in
  let s1 := res_state (local_timestamp Toy.updater s) in
  let request := DownloadBytes "https://repo/metadata/timestamp.json" 16384 in
  local_timestamp Toy.updater s = Raise OSError s1
  /\ exists evs,
       trace (res_state (_load_timestamp Toy.urljoin Toy.updater s))
       = trace s1 ++ evs
       /\ ((exists e s',
              evs = [Event request (Some e)]
              /\ _load_timestamp Toy.urljoin Toy.updater s = Raise e s')
           \/ (exists data,
                 fst (download_bytes "https://repo/metadata/timestamp.json"
                        16384 (world s1)) = Val data
                 /\ ((exists e s',
                        evs = [Event request None;
                               Event (UpdateTimestamp data) (Some e)]
                        /\ _load_timestamp Toy.urljoin Toy.updater s
                           = Raise e s')
                     \/ (exists e s',
                           evs = [Event request None;
                                  Event (UpdateTimestamp data) None;
                                  Event (OpenWrite "/meta/timestamp.json" data)
                                    (Some e)]
                           /\ _load_timestamp Toy.urljoin Toy.updater s
                              = Raise e s')
                     \/ (exists s',
                           evs = [Event request None;
                                  Event (UpdateTimestamp data) None;
                                  Event (OpenWrite "/meta/timestamp.json" data)
                                    None]
                           /\ _load_timestamp Toy.urljoin Toy.updater s
                              = Ok tt s')))).
Proof.
  intros s s1 request. split; [vm_compute; reflexivity|].
  apply (load_timestamp_always_fetches Toy.urljoin Toy.updater s).
  intros e s' H. vm_compute in H. injection H as <- _. left. reflexivity.
Defined.

Example first_run_timestamp :
  map ev_call
    (trace (res_state (_load_timestamp Toy.urljoin Toy.updater
                         (Toy.start Scenario.first_run))))
  = [OpenRead "/meta/timestamp.json";
     DownloadBytes "https://repo/metadata/timestamp.json" 16384;
     UpdateTimestamp (Toy.bytes "ts-5");
     OpenWrite "/meta/timestamp.json" (Toy.bytes "ts-5")].
Proof. vm_compute. reflexivity. Qed.

Example cached_snapshot_not_fetched :
  map ev_call
    (trace (res_state (_load_snapshot Toy.urljoin Toy.updater
                         (Toy.start Scenario.snapshot_cached))))
  = [OpenRead "/meta/snapshot.json"; UpdateSnapshot (Toy.bytes "snap-3")].
Proof. vm_compute. reflexivity. Qed.

Example versioned_snapshot_fetched :
  downloads
    (trace (res_state (_load_snapshot Toy.urljoin Toy.updater
                         (Toy.start (Scenario.snapshot_wanted true (Some 1234%Z))))))
  = [("https://repo/metadata/3.snapshot.json", 1234%Z)].
Proof. vm_compute. reflexivity. Qed.

Example unversioned_snapshot_fetched :
  downloads
    (trace (res_state (_load_snapshot Toy.urljoin Toy.updater
                         (Toy.start (Scenario.snapshot_wanted false None)))))
  = [("https://repo/metadata/snapshot.json", 2000000%Z)].
Proof. vm_compute. reflexivity. Qed.

Lemma updated_targets_lists_stale_once_witness :
  exists res s',
    updated_targets Toy.verify
      [Scenario.t_fresh; Scenario.t_missing; Scenario.t_missing;
       Scenario.t_changed] "/dest" (Toy.start Scenario.downloaded)
    = Ok res s'
    /\ res = [Scenario.t_missing; Scenario.t_changed].
Proof.
  destruct (updated_targets_lists_stale_once Toy.verify
              [Scenario.t_fresh; Scenario.t_missing; Scenario.t_missing;
               Scenario.t_changed] "/dest" (Toy.start Scenario.downloaded))
    as (res & s' & Hrun & _ & Hres & _).
  - intros t Ht.
    repeat (apply elem_of_cons in Ht; destruct Ht as [->|Ht]);
      [vm_compute; exact I | vm_compute; reflexivity | vm_compute; reflexivity
       | vm_compute; reflexivity | inversion Ht].
  - exists res, s'. split; [exact Hrun|].
    rewrite Hres. vm_compute. reflexivity.
Defined.

Example updated_targets_run :
  res_value [] (updated_targets Toy.verify
                  [Scenario.t_fresh; Scenario.t_missing; Scenario.t_missing;
                   Scenario.t_changed] "/dest" (Toy.start Scenario.downloaded))
  = [Scenario.t_missing; Scenario.t_changed].
Proof. vm_compute. reflexivity. Qed.

(** * What the runs add to the trace *)

Section Emits.

Context {W : Type}.

(** A property of event lists indexed by a bound: the empty trace has
    it at 0, it is kept by concatenation (bounds add up) and by raising
    the bound. *)
Variable P : nat -> list event -> Prop.
Hypothesis P_nil : P 0 [].
Hypothesis P_app :
  forall n1 n2 e1 e2, P n1 e1 -> P n2 e2 -> P (n1 + n2) (e1 ++ e2).
Hypothesis P_mono : forall n m e, n <= m -> P n e -> P m e.

Lemma emits_silent {A} (m : M W A) :
  (forall s, res_state (m s) = s) -> emits (P 0) m.
Proof.
  intros Hm s. exists []. rewrite Hm, app_nil_r. split; [reflexivity|apply P_nil].
Qed.

Lemma emits_ret {A} (a : A) : emits (P 0) (ret (W := W) a).
Proof. apply emits_silent. reflexivity. Qed.

Lemma emits_raise {A} (e : exn) : emits (P 0) (raise (W := W) (A := A) e).
Proof. apply emits_silent. reflexivity. Qed.

Lemma emits_attribute {A} (read : W -> Except A) : emits (P 0) (attribute read).
Proof.
  apply emits_silent. intros s. unfold attribute.
  destruct (read (world s)); reflexivity.
Qed.

Lemma emits_lift {A} (r : Except A) : emits (P 0) (lift (W := W) r).
Proof. apply emits_silent. intros s. destruct r; reflexivity. Qed.

Lemma emits_perform {A} (n : nat) (c : call) (op : W -> Except A * W) :
  (forall x, P n [Event c x]) -> emits (P n) (perform c op).
Proof.
  intros Hc s. unfold perform.
  destruct (op (world s)) as [[a|e] w]; eexists; (split; [reflexivity|apply Hc]).
Qed.

Lemma emits_weaken {A} (n m : nat) (c : M W A) :
  n <= m -> emits (P n) c -> emits (P m) c.
Proof.
  intros Hle Hc s. destruct (Hc s) as (evs & Ht & Hp).
  exists evs. split; [assumption|]. apply (P_mono n); assumption.
Qed.

Lemma emits_bind {A B} (n1 n2 : nat) (m : M W A) (k : A -> M W B) :
  emits (P n1) m -> (forall a, emits (P n2) (k a)) ->
  emits (P (n1 + n2)) (bind m k).
Proof.
  intros Hm Hk s. destruct (Hm s) as (e1 & Ht1 & Hp1). unfold bind.
  destruct (m s) as [a s1|e s1]; cbn [res_state] in *.
  - destruct (Hk a s1) as (e2 & Ht2 & Hp2).
    exists (e1 ++ e2). split; [rewrite Ht2, Ht1, app_assoc; reflexivity|].
    apply P_app; assumption.
  - exists e1. split; [assumption|].
    apply (P_mono n1); [lia|assumption].
Qed.

Lemma emits_try {A} (n1 n2 : nat) (body : M W A) (classes : exn -> bool)
    (handler : exn -> M W A) :
  emits (P n1) body -> (forall e, emits (P n2) (handler e)) ->
  emits (P (n1 + n2)) (try_except body classes handler).
Proof.
  intros Hb Hh s. destruct (Hb s) as (e1 & Ht1 & Hp1). unfold try_except.
  destruct (body s) as [a s1|e s1]; cbn [res_state] in *.
  - exists e1. split; [assumption|]. apply (P_mono n1); [lia|assumption].
  - destruct (classes e).
    + destruct (Hh e s1) as (e2 & Ht2 & Hp2).
      exists (e1 ++ e2). split; [rewrite Ht2, Ht1, app_assoc; reflexivity|].
      apply P_app; assumption.
    + exists e1. split; [assumption|]. apply (P_mono n1); [lia|assumption].
Qed.

End Emits.

(** The two instances: a bound on the number of requests to the
    fetcher, and writes that follow acceptance. *)
Lemma at_most_fetches_nil : at_most_fetches 0 [].
Proof. unfold at_most_fetches. simpl. lia. Qed.

Lemma at_most_fetches_app n1 n2 e1 e2 :
  at_most_fetches n1 e1 -> at_most_fetches n2 e2 ->
  at_most_fetches (n1 + n2) (e1 ++ e2).
Proof.
  unfold at_most_fetches, downloads. rewrite omap_app, length_app. lia.
Qed.

Lemma at_most_fetches_mono n m e :
  n <= m -> at_most_fetches n e -> at_most_fetches m e.
Proof. unfold at_most_fetches. lia. Qed.

Lemma writes_follow_acceptance_nil dir : writes_follow_acceptance dir [].
Proof. intros i path d x Hi. destruct i; discriminate. Qed.

Lemma writes_follow_acceptance_app dir e1 e2 :
  writes_follow_acceptance dir e1 -> writes_follow_acceptance dir e2 ->
  writes_follow_acceptance dir (e1 ++ e2).
Proof.
  intros H1 H2 i path d x Hi. apply lookup_app_Some in Hi.
  destruct Hi as [Hi|[Hge Hi]].
  - destruct (H1 i path d x Hi) as (j & c & r & -> & Hj & Hacc & Hp).
    exists j, c, r. split; [reflexivity|]. split; [|split; assumption].
    apply lookup_app_Some. left. assumption.
  - destruct (H2 _ path d x Hi) as (j & c & r & Hij & Hj & Hacc & Hp).
    exists (length e1 + j), c, r. split; [lia|]. split; [|split; assumption].
    apply lookup_app_Some. right. split; [lia|].
    replace (length e1 + j - length e1) with j by lia. assumption.
Qed.

Lemma writes_follow_acceptance_single dir c x :
  (forall path d, c <> OpenWrite path d) ->
  writes_follow_acceptance dir [Event c x].
Proof.
  intros Hc i path d y Hi. destruct i as [|i]; [|destruct i; discriminate].
  injection Hi as -> _. exfalso. eapply Hc. reflexivity.
Qed.

Lemma writes_follow_targets_acceptance_nil dir :
  writes_follow_targets_acceptance dir [].
Proof. intros i path d x Hi. destruct i; discriminate. Qed.

Lemma writes_follow_targets_acceptance_app dir e1 e2 :
  writes_follow_targets_acceptance dir e1 ->
  writes_follow_targets_acceptance dir e2 ->
  writes_follow_targets_acceptance dir (e1 ++ e2).
Proof.
  intros H1 H2 i path d x Hi. apply lookup_app_Some in Hi.
  destruct Hi as [Hi|[Hge Hi]].
  - destruct (H1 i path d x Hi) as (j & r & p & -> & Hj & Hp).
    exists j, r, p. split; [reflexivity|]. split; [|assumption].
    apply lookup_app_Some. left. assumption.
  - destruct (H2 _ path d x Hi) as (j & r & p & Hij & Hj & Hp).
    exists (length e1 + j), r, p. split; [lia|]. split; [|assumption].
    apply lookup_app_Some. right. split; [lia|].
    replace (length e1 + j - length e1) with j by lia. assumption.
Qed.

Lemma writes_follow_targets_acceptance_single dir c x :
  (forall path d, c <> OpenWrite path d) ->
  writes_follow_targets_acceptance dir [Event c x].
Proof.
  intros Hc i path d y Hi. destruct i as [|i]; [|destruct i; discriminate].
  injection Hi as -> _. exfalso. eapply Hc. reflexivity.
Qed.

(** * Strings and the resolver's path patterns *)

Lemma list_ascii_of_string_app (s t : string) :
  String.list_ascii_of_string (s +:+ t)
  = String.list_ascii_of_string s ++ String.list_ascii_of_string t.
Proof. induction s as [|c s IH]; simpl; [reflexivity|]. rewrite IH. reflexivity. Qed.

Lemma endswith_app_slash (s : string) : endswith (s +:+ "/") "/" = true.
Proof.
  unfold endswith. rewrite list_ascii_of_string_app, rev_app_distr. simpl.
  destruct (ascii_dec "/" "/"); [|contradiction].
  destruct (String.string_of_list_ascii (rev (String.list_ascii_of_string s)));
    reflexivity.
Qed.

Lemma ensure_trailing_slash_ends (url : string) :
  endswith (_ensure_trailing_slash url) "/" = true.
Proof.
  unfold _ensure_trailing_slash. destruct (endswith url "/") eqn:E;
    [assumption|apply endswith_app_slash].
Qed.

(** X1. [_ensure_trailing_slash] returns a URL that ends in a slash; it
    leaves alone a URL that already does, appends one slash otherwise,
    and applying it twice is applying it once. *)
Theorem ensure_trailing_slash_ends_in_slash (url : string) :
  endswith (_ensure_trailing_slash url) "/" = true
  /\ (endswith url "/" = true -> _ensure_trailing_slash url = url)
  /\ (endswith url "/" = false -> _ensure_trailing_slash url = url +:+ "/")
  /\ _ensure_trailing_slash (_ensure_trailing_slash url)
     = _ensure_trailing_slash url.
Proof.
  pose proof (ensure_trailing_slash_ends url) as Hends.
  split; [assumption|].
  split; [intros H; unfold _ensure_trailing_slash; rewrite H; reflexivity|].
  split; [intros H; unfold _ensure_trailing_slash; rewrite H; reflexivity|].
  unfold _ensure_trailing_slash at 1. rewrite Hends. reflexivity.
Qed.

Section PathPatterns.

Variable fnmatch : string -> string -> bool.

Lemma visit_paths_Some child_role_name target_filepath patterns r :
  visit_paths fnmatch child_role_name target_filepath patterns = Some r ->
  r = child_role_name
  /\ exists p, p ∈ patterns
               /\ fnmatch (lstrip target_filepath os_sep) (lstrip p os_sep) = true.
Proof.
  induction patterns as [|p rest IH]; simpl; [discriminate|].
  destruct (fnmatch _ (lstrip p os_sep)) eqn:Hp.
  - intros [= <-]. split; [reflexivity|]. exists p. split; [left|assumption].
  - intros H. destruct (IH H) as [-> (q & Hq & Hm)].
    split; [reflexivity|]. exists q. split; [right|]; assumption.
Qed.

Lemma visit_paths_None child_role_name target_filepath patterns :
  visit_paths fnmatch child_role_name target_filepath patterns = None <->
  forall p, p ∈ patterns ->
    fnmatch (lstrip target_filepath os_sep) (lstrip p os_sep) = false.
Proof.
  induction patterns as [|p rest IH]; simpl.
  - split; [|reflexivity]. intros _ q Hq. inversion Hq.
  - destruct (fnmatch _ (lstrip p os_sep)) eqn:Hp.
    + split; [discriminate|]. intros H. rewrite (H p) in Hp; [discriminate|left].
    + rewrite IH. split.
      * intros H q Hq. inversion Hq; subst; auto.
      * intros H q Hq. apply H. right. assumption.
Qed.

(** X2. A child role that declares [paths] and no hash prefixes is
    authorized exactly when the target path, without its leading
    separators, matches one of the patterns, without theirs; otherwise
    [None] is returned, and no exception is raised. *)
Theorem visit_child_role_paths
    (child_role : DelegatedRole) (target_filepath : string)
    (patterns : list string) :
  path_hash_prefixes child_role = None ->
  paths child_role = Some patterns ->
  (_visit_child_role fnmatch child_role target_filepath
   = Val (Some (name child_role))
   <-> exists p, p ∈ patterns
                 /\ fnmatch (lstrip target_filepath os_sep) (lstrip p os_sep)
                    = true)
  /\ (_visit_child_role fnmatch child_role target_filepath = Val None
      <-> forall p, p ∈ patterns ->
            fnmatch (lstrip target_filepath os_sep) (lstrip p os_sep) = false)
  /\ (exists r, _visit_child_role fnmatch child_role target_filepath = Val r).
Proof.
  intros Hh Hp. unfold _visit_child_role. rewrite Hh, Hp.
  split; [|split].
  - split.
    + intros [= H]. apply visit_paths_Some in H. tauto.
    + intros (p & Hin & Hm).
      destruct (visit_paths fnmatch (name child_role) target_filepath patterns)
        as [r|] eqn:E.
      * apply visit_paths_Some in E. destruct E as [-> _]. reflexivity.
      * rewrite visit_paths_None in E. rewrite (E p Hin) in Hm. discriminate.
  - rewrite <- visit_paths_None. split.
    + intros [= H]. exact H.
    + intros ->. reflexivity.
  - eexists. reflexivity.
Qed.

Lemma visit_paths_lstrip child_role_name p1 p2 patterns :
  lstrip p1 os_sep = lstrip p2 os_sep ->
  visit_paths fnmatch child_role_name p1 patterns
  = visit_paths fnmatch child_role_name p2 patterns.
Proof.
  intros Heq. induction patterns as [|p rest IH]; simpl; [reflexivity|].
  rewrite Heq, IH. reflexivity.
Qed.

(** X3. For a child role matched by [paths], leading path separators
    of the target path do not count: two target paths that differ only
    in them get the same answer, so a path and the same path behind a
    separator do. *)
Theorem visit_child_role_ignores_leading_separators
    (child_role : DelegatedRole) (p1 p2 : string) :
  path_hash_prefixes child_role = None ->
  lstrip p1 os_sep = lstrip p2 os_sep ->
  _visit_child_role fnmatch child_role p1
  = _visit_child_role fnmatch child_role p2
  /\ _visit_child_role fnmatch child_role (os_sep +:+ p1)
     = _visit_child_role fnmatch child_role p1.
Proof.
  intros Hh Heq. unfold _visit_child_role. rewrite Hh.
  destruct (paths child_role) as [patterns|]; [|split; reflexivity].
  split; f_equal.
  - apply visit_paths_lstrip. assumption.
  - apply visit_paths_lstrip. reflexivity.
Qed.

End PathPatterns.



Section LoadTargetsFacts.

Context {W : Type}.
Context `{!LocalFiles W, !FetcherInterface W, !TrustedMetadataSet W}.
Variable urljoin : string -> string -> string.
Variable self : Updater.

(** The body of the [try] of [_load_targets]. *)
Local Notation "'local_targets' role parent" :=
  (data <- _load_local_metadata self role ;;
   perform (UpdateDelegatedTargets data role parent)
     (update_delegated_targets data role parent))
  (at level 10, role at level 9, parent at level 9).


End LoadTargetsFacts.

Section LoadFacts.

Context {W : Type}.
Context `{!LocalFiles W, !FetcherInterface W, !TrustedMetadataSet W}.
Variable urljoin : string -> string -> string.
Variable fnmatch : string -> string -> bool.
Variable self : Updater.

Local Notation "'WF'" := (fun _ : nat => writes_follow_acceptance (_dir self)).
Local Notation "'FB'" := at_most_fetches.

Ltac wf_bind :=
  apply (emits_bind WF
           (fun _ _ _ _ H1 H2 => writes_follow_acceptance_app _ _ _ H1 H2)
           (fun _ _ _ _ H => H) 0 0).
Ltac wf_try :=
  apply (emits_try WF
           (fun _ _ _ _ H1 H2 => writes_follow_acceptance_app _ _ _ H1 H2)
           (fun _ _ _ _ H => H) 0 0).
Ltac wf_silent :=
  first [ apply (emits_ret WF (writes_follow_acceptance_nil _))
        | apply (emits_raise WF (writes_follow_acceptance_nil _))
        | apply (emits_attribute WF (writes_follow_acceptance_nil _))
        | apply (emits_lift WF (writes_follow_acceptance_nil _)) ].
Ltac wf_single :=
  apply (emits_perform WF 0); intros x;
  apply writes_follow_acceptance_single; intros path d; discriminate.

(** Accepting some bytes and writing them: the write follows the
    acceptance, and is left out when the bytes are rejected. *)
Lemma accept_then_persist_writes (c : call) (rolename : string)
    (data : list byte) (op : W -> Except unit * W) :
  accepted_as c rolename data ->
  (forall path d, c <> OpenWrite path d) ->
  emits (WF 0) (perform c op ;; _persist_metadata self rolename data).
Proof.
  intros Hacc Hc s. unfold bind, perform, _persist_metadata.
  destruct (op (world s)) as [[[]|e] w1]; cbn [world trace res_state].
  - unfold perform. cbn [world trace].
    assert (forall x,
              writes_follow_acceptance (_dir self)
                [Event c None;
                 Event (OpenWrite (os_path_join (_dir self) (rolename +:+ ".json"))
                          data) x]) as Hw.
    { intros x [|[|i]] path d y Hi; try discriminate.
      - injection Hi as -> _. exfalso. eapply Hc. reflexivity.
      - injection Hi as <- <- <-. exists 0, c, rolename. auto. }
    destruct (open_write _ data w1) as [[[]|e] w2]; cbn [res_state trace];
      eexists; (split; [rewrite <- app_assoc; reflexivity|apply Hw]).
  - eexists. split; [reflexivity|].
    apply writes_follow_acceptance_single. assumption.
Qed.

Lemma download_metadata_writes rolename len version :
  emits (WF 0) (_download_metadata urljoin self rolename len version).
Proof. unfold _download_metadata. wf_single. Qed.

Lemma load_local_metadata_writes rolename :
  emits (WF 0) (_load_local_metadata self rolename).
Proof. unfold _load_local_metadata. wf_single. Qed.

Lemma fetch_accept_persist_writes (rolename : string) (len : Z)
    (version : option Z) (c : list byte -> call)
    (op : list byte -> W -> Except unit * W) :
  (forall data, accepted_as (c data) rolename data) ->
  (forall data path d, c data <> OpenWrite path d) ->
  emits (WF 0)
    (data <- _download_metadata urljoin self rolename len version ;;
     perform (c data) (op data) ;;
     _persist_metadata self rolename data).
Proof.
  intros Hacc Hc. wf_bind; [apply download_metadata_writes|]. intros data.
  apply accept_then_persist_writes; [apply Hacc|apply Hc].
Qed.

Lemma load_root_round_writes v : emits (WF 0) (load_root_round urljoin self v).
Proof.
  unfold load_root_round. wf_try.
  - wf_bind; [apply download_metadata_writes|]. intros data.
    change (emits (WF 0)
              (perform (UpdateRoot data) (update_root data) ;;
               (_persist_metadata self "root" data ;; ret false))).
    intros s.
    destruct (accept_then_persist_writes (UpdateRoot data) "root" data
                (update_root data) (conj eq_refl eq_refl)
                ltac:(intros; discriminate) s) as (evs & Ht & Hw).
    exists evs. split; [|assumption]. rewrite <- Ht.
    unfold bind, ret.
    destruct (perform (UpdateRoot data) (update_root data) s) as [[] s1|e s1];
      [|reflexivity].
    destruct (_persist_metadata self "root" data s1) as [[] s2|e s2]; reflexivity.
  - intros e. destruct e; try wf_silent.
    destruct (negb _); wf_silent.
Qed.

Lemma load_root_loop_writes versions :
  emits (WF 0) (load_root_loop urljoin self versions).
Proof.
  induction versions as [|v versions IH]; cbn [load_root_loop]; [wf_silent|].
  wf_bind; [apply load_root_round_writes|].
  intros [|]; [wf_silent|exact IH].
Qed.

Lemma load_root_writes : emits (WF 0) (_load_root urljoin self).
Proof.
  intros s. unfold _load_root. cbv zeta.
  generalize (range (root_version (world s) + 1)
                (root_version (world s) + 1 + max_root_rotations (config self))).
  intros versions. revert s.
  change (emits (WF 0)
            (load_root_loop urljoin self versions ;;
             perform RootUpdateFinished root_update_finished)).
  wf_bind; [apply load_root_loop_writes|]. intros _. wf_single.
Qed.

Lemma load_timestamp_writes : emits (WF 0) (_load_timestamp urljoin self).
Proof.
  unfold _load_timestamp, local_timestamp. wf_bind.
  - wf_try; [|intros e; wf_silent].
    wf_bind; [apply load_local_metadata_writes|]. intros data. wf_single.
  - intros _.
    apply (fetch_accept_persist_writes "timestamp" _ None UpdateTimestamp
             update_timestamp);
      [intros; split; reflexivity|intros; discriminate].
Qed.

Lemma load_snapshot_writes : emits (WF 0) (_load_snapshot urljoin self).
Proof.
  unfold _load_snapshot, local_snapshot. wf_try.
  - wf_bind; [apply load_local_metadata_writes|]. intros data. wf_single.
  - intros e. wf_bind; [wf_silent|]. intros metainfo s. cbv zeta.
    apply (fetch_accept_persist_writes "snapshot" _ _ UpdateSnapshot
             update_snapshot);
      [intros; split; reflexivity|intros; discriminate].
Qed.

Lemma load_targets_writes role parent :
  emits (WF 0) (_load_targets urljoin self role parent).
Proof.
  unfold _load_targets. wf_try.
  - wf_bind; [apply load_local_metadata_writes|]. intros data. wf_single.
  - intros e. wf_bind; [wf_silent|]. intros metainfo s. cbv zeta.
    apply (fetch_accept_persist_writes role _ _
             (fun data => UpdateDelegatedTargets data role parent)
             (fun data => update_delegated_targets data role parent));
      [intros; split; reflexivity|intros; discriminate].
Qed.

(** X6. Whatever [refresh] writes to the local directory, it writes
    right after the trusted set accepted the same bytes, and to the file
    of the role they were accepted for: bytes that were rejected, or not
    yet checked, are never written. *)
Theorem refresh_writes_accepted_metadata (s : state W) :
  exists evs,
    trace (res_state (refresh urljoin self s)) = trace s ++ evs
    /\ writes_follow_acceptance (_dir self) evs.
Proof.
  revert s. change (emits (WF 0) (refresh urljoin self)). unfold refresh.
  wf_bind; [apply load_root_writes|]. intros _.
  wf_bind; [apply load_timestamp_writes|]. intros _.
  wf_bind; [apply load_snapshot_writes|]. intros _.
  apply load_targets_writes.
Qed.

Local Notation "'WT'" :=
  (fun _ : nat => writes_follow_targets_acceptance (_dir self)).

Ltac wt_bind :=
  apply (emits_bind WT
           (fun _ _ _ _ H1 H2 =>
              writes_follow_targets_acceptance_app _ _ _ H1 H2)
           (fun _ _ _ _ H => H) 0 0).
Ltac wt_try :=
  apply (emits_try WT
           (fun _ _ _ _ H1 H2 =>
              writes_follow_targets_acceptance_app _ _ _ H1 H2)
           (fun _ _ _ _ H => H) 0 0).
Ltac wt_silent :=
  first [ apply (emits_ret WT (writes_follow_targets_acceptance_nil _))
        | apply (emits_raise WT (writes_follow_targets_acceptance_nil _))
        | apply (emits_attribute WT (writes_follow_targets_acceptance_nil _))
        | apply (emits_lift WT (writes_follow_targets_acceptance_nil _)) ].
Ltac wt_single :=
  apply (emits_perform WT 0); intros x;
  apply writes_follow_targets_acceptance_single; intros path d; discriminate.

(** Accepting the bytes of a role and writing them. *)
Lemma accept_targets_then_persist (role parent : string) (data : list byte) :
  emits (WT 0)
    (perform (UpdateDelegatedTargets data role parent)
       (update_delegated_targets data role parent) ;;
     _persist_metadata self role data).
Proof.
  intros s. unfold bind, perform, _persist_metadata.
  destruct (update_delegated_targets data role parent (world s))
    as [[[]|e] w1]; cbn [world trace res_state].
  - unfold perform. cbn [world trace].
    assert (forall x,
              writes_follow_targets_acceptance (_dir self)
                [Event (UpdateDelegatedTargets data role parent) None;
                 Event (OpenWrite (os_path_join (_dir self) (role +:+ ".json"))
                          data) x]) as Hw.
    { intros x [|[|i]] path d y Hi; try discriminate.
      injection Hi as <- <- <-. exists 0, role, parent. auto. }
    destruct (open_write _ data w1) as [[[]|e] w2]; cbn [res_state trace];
      eexists; (split; [rewrite <- app_assoc; reflexivity|apply Hw]).
  - eexists. split; [reflexivity|].
    apply writes_follow_targets_acceptance_single. intros; discriminate.
Qed.

Lemma fetch_accept_targets_persist (role parent : string) (len : Z)
    (version : option Z) :
  emits (WT 0)
    (data <- _download_metadata urljoin self role len version ;;
     perform (UpdateDelegatedTargets data role parent)
       (update_delegated_targets data role parent) ;;
     _persist_metadata self role data).
Proof.
  wt_bind; [unfold _download_metadata; wt_single|]. intros data.
  apply accept_targets_then_persist.
Qed.

Lemma load_targets_writes_accepted role parent :
  emits (WT 0) (_load_targets urljoin self role parent).
Proof.
  unfold _load_targets. wt_try.
  - wt_bind; [unfold _load_local_metadata; wt_single|]. intros data. wt_single.
  - intros e. wt_bind; [wt_silent|]. intros metainfo s. cbv zeta.
    apply fetch_accept_targets_persist.
Qed.

Lemma walk_body_writes_accepted target_filepath st :
  emits (WT 0) (walk_body urljoin fnmatch self target_filepath st).
Proof.
  unfold walk_body.
  destruct (pop (role_names st)) as [[init [role parent]]|]; [|wt_silent].
  wt_bind; [apply load_targets_writes_accepted|]. intros _.
  destruct (decide _); [wt_silent|].
  wt_bind; [wt_silent|]. intros md.
  destruct (targets md !! target_filepath); [wt_silent|].
  wt_bind; [wt_silent|]. intros [rn crv]. wt_silent.
Qed.

(** X7. Whatever [get_one_valid_targetinfo] writes to the local
    directory while it loads the metadata of [targets] and of delegated
    roles, it writes right after [update_delegated_targets] accepted
    the same bytes for that role, and to the file of that role. *)
Theorem walk_writes_accepted_metadata (fuel : nat) (target_path : string)
    (s : state W) (r : Res W TargetInfo) :
  get_one_valid_targetinfo urljoin fnmatch self fuel target_path s = Some r ->
  exists evs,
    trace (res_state r) = trace s ++ evs
    /\ writes_follow_targets_acceptance (_dir self) evs.
Proof.
  unfold get_one_valid_targetinfo, _preorder_depth_first_walk, walk_from.
  assert (forall fuel st s r,
            walk_loop urljoin fnmatch self fuel target_path st s = Some r ->
            exists evs,
              trace (res_state r) = trace s ++ evs
              /\ writes_follow_targets_acceptance (_dir self) evs) as Hloop.
  { clear. intros fuel. induction fuel as [|fuel IH]; intros st s r; simpl;
      destruct (walk_cond st); try discriminate.
    - intros [= <-]. exists []. rewrite app_nil_r.
      split; [reflexivity|apply writes_follow_targets_acceptance_nil].
    - destruct (walk_body_writes_accepted target_path st s) as (e1 & Ht1 & Hw1).
      destruct (walk_body urljoin fnmatch self target_path st s) as [st1 s1|e s1];
        cbn [res_state] in Ht1.
      + intros Hr. destruct (IH _ _ _ Hr) as (e2 & Ht2 & Hw2).
        exists (e1 ++ e2). split; [rewrite Ht2, Ht1, app_assoc; reflexivity|].
        apply writes_follow_targets_acceptance_app; assumption.
      + intros [= <-]. exists e1. split; assumption.
    - intros [= <-]. exists []. rewrite app_nil_r.
      split; [reflexivity|apply writes_follow_targets_acceptance_nil]. }
  destruct (walk_loop urljoin fnmatch self fuel target_path (walk_init self) s)
    as [[st1 s1|e s1]|] eqn:Hrun; try discriminate;
    intros [= <-]; apply (Hloop _ _ _ _ Hrun).
Qed.

End LoadFacts.

Section FetchBounds.

Context {W : Type}.
Context `{!LocalFiles W, !FetcherInterface W, !TrustedMetadataSet W}.
Variable urljoin : string -> string -> string.
Variable self : Updater.

Local Notation "'FB'" := at_most_fetches.

Ltac fb_bind n1 n2 :=
  apply (emits_weaken FB at_most_fetches_mono (n1 + n2)); [lia|];
  apply (emits_bind FB at_most_fetches_app at_most_fetches_mono n1 n2).
Ltac fb_try n1 n2 :=
  apply (emits_weaken FB at_most_fetches_mono (n1 + n2)); [lia|];
  apply (emits_try FB at_most_fetches_app at_most_fetches_mono n1 n2).
Ltac fb_silent :=
  first [ apply (emits_ret FB at_most_fetches_nil)
        | apply (emits_raise FB at_most_fetches_nil)
        | apply (emits_attribute FB at_most_fetches_nil)
        | apply (emits_lift FB at_most_fetches_nil) ].
Ltac fb_call :=
  apply (emits_perform FB); intros x; unfold at_most_fetches; simpl; lia.

Lemma download_metadata_fetches rolename len version :
  emits (FB 1) (_download_metadata urljoin self rolename len version).
Proof. unfold _download_metadata. fb_call. Qed.

Lemma load_local_metadata_fetches rolename :
  emits (FB 0) (_load_local_metadata self rolename).
Proof. unfold _load_local_metadata. fb_call. Qed.

Lemma persist_metadata_fetches rolename data :
  emits (FB 0) (_persist_metadata self rolename data).
Proof. unfold _persist_metadata. fb_call. Qed.

Lemma load_root_round_fetches v : emits (FB 1) (load_root_round urljoin self v).
Proof.
  unfold load_root_round. fb_try 1 0.
  - fb_bind 1 0; [apply download_metadata_fetches|]. intros data.
    fb_bind 0 0; [fb_call|]. intros _.
    fb_bind 0 0; [apply persist_metadata_fetches|]. intros _. fb_silent.
  - intros e. destruct e; try fb_silent. destruct (negb _); fb_silent.
Qed.

Lemma load_root_loop_fetches versions :
  emits (FB (length versions)) (load_root_loop urljoin self versions).
Proof.
  induction versions as [|v versions IH]; cbn [load_root_loop length];
    [fb_silent|].
  fb_bind 1 (length versions); [apply load_root_round_fetches|].
  intros [|]; [|exact IH].
  apply (emits_weaken FB at_most_fetches_mono 0); [lia|fb_silent].
Qed.

Lemma load_root_fetches :
  emits (FB (Z.to_nat (max_root_rotations (config self))))
    (_load_root urljoin self).
Proof.
  intros s. unfold _load_root. cbv zeta.
  assert (length (range (root_version (world s) + 1)
                    (root_version (world s) + 1
                     + max_root_rotations (config self)))
          = Z.to_nat (max_root_rotations (config self))) as Hlen.
  { unfold range. rewrite length_map, length_seq. lia. }
  revert Hlen.
  generalize (range (root_version (world s) + 1)
                (root_version (world s) + 1 + max_root_rotations (config self))).
  intros versions <-. revert s.
  change (emits (FB (length versions))
            (load_root_loop urljoin self versions ;;
             perform RootUpdateFinished root_update_finished)).
  fb_bind (length versions) 0; [apply load_root_loop_fetches|].
  intros _. fb_call.
Qed.

Lemma fetch_accept_persist_fetches (rolename : string) (len : Z)
    (version : option Z) (c : list byte -> call)
    (op : list byte -> W -> Except unit * W) :
  (forall data url l, c data <> DownloadBytes url l) ->
  emits (FB 1)
    (data <- _download_metadata urljoin self rolename len version ;;
     perform (c data) (op data) ;;
     _persist_metadata self rolename data).
Proof.
  intros Hc. fb_bind 1 0; [apply download_metadata_fetches|]. intros data.
  fb_bind 0 0; [|intros _; apply persist_metadata_fetches].
  apply (emits_perform FB). intros x. unfold at_most_fetches, downloads. simpl.
  destruct (c data) eqn:E; simpl; try lia. exfalso. eapply Hc. exact E.
Qed.

Lemma load_timestamp_fetches : emits (FB 1) (_load_timestamp urljoin self).
Proof.
  unfold _load_timestamp, local_timestamp. fb_bind 0 1.
  - fb_try 0 0; [|intros e; fb_silent].
    fb_bind 0 0; [apply load_local_metadata_fetches|]. intros data. fb_call.
  - intros _.
    apply (fetch_accept_persist_fetches "timestamp" _ None UpdateTimestamp
             update_timestamp). intros; discriminate.
Qed.

Lemma load_snapshot_fetches : emits (FB 1) (_load_snapshot urljoin self).
Proof.
  unfold _load_snapshot, local_snapshot. fb_try 0 1.
  - fb_bind 0 0; [apply load_local_metadata_fetches|]. intros data. fb_call.
  - intros e. fb_bind 0 1; [fb_silent|]. intros metainfo s. cbv zeta.
    apply (fetch_accept_persist_fetches "snapshot" _ _ UpdateSnapshot
             update_snapshot). intros; discriminate.
Qed.

Lemma load_targets_fetches role parent :
  emits (FB 1) (_load_targets urljoin self role parent).
Proof.
  unfold _load_targets. fb_try 0 1.
  - fb_bind 0 0; [apply load_local_metadata_fetches|]. intros data. fb_call.
  - intros e. fb_bind 0 1; [fb_silent|]. intros metainfo s. cbv zeta.
    apply (fetch_accept_persist_fetches role _ _
             (fun data => UpdateDelegatedTargets data role parent)
             (fun data => update_delegated_targets data role parent)).
    intros; discriminate.
Qed.

(** X8. One [refresh] asks the fetcher for at most
    [max_root_rotations] root versions and three more files (timestamp,
    snapshot, targets), however it ends. *)
Theorem refresh_fetches_bounded (s : state W) :
  exists evs,
    trace (res_state (refresh urljoin self s)) = trace s ++ evs
    /\ length (downloads evs)
       <= Z.to_nat (max_root_rotations (config self)) + 3.
Proof.
  revert s.
  change (emits (FB (Z.to_nat (max_root_rotations (config self)) + 3))
            (refresh urljoin self)).
  unfold refresh.
  fb_bind (Z.to_nat (max_root_rotations (config self))) 3;
    [apply load_root_fetches|]. intros _.
  fb_bind 1 2; [apply load_timestamp_fetches|]. intros _.
  fb_bind 1 1; [apply load_snapshot_fetches|]. intros _.
  apply load_targets_fetches.
Qed.

End FetchBounds.

Section WalkMore.

Context {W : Type}.
Context `{!LocalFiles W, !FetcherInterface W, !TrustedMetadataSet W}.
Variable urljoin : string -> string -> string.
Variable fnmatch : string -> string -> bool.
Variable self : Updater.

Local Notation "'loop'" := (walk_loop urljoin fnmatch self).

Lemma walk_loop_budget fuel target_filepath st s st' s' :
  loop fuel target_filepath st s = Some (Ok st' s') ->
  (number_of_delegations st' + Z.of_nat (size (visited_role_names st'))
   = number_of_delegations st + Z.of_nat (size (visited_role_names st)))%Z
  /\ (Z.min 0 (number_of_delegations st) <= number_of_delegations st')%Z.
Proof.
  revert st s. induction fuel as [|fuel IH]; intros st s; simpl;
    destruct (walk_cond st) eqn:Hc; try discriminate.
  - intros [= <- <-]. split; [reflexivity|lia].
  - destruct (walk_body urljoin fnmatch self target_filepath st s)
      as [st1 s1|e s1] eqn:Hbody; [|discriminate].
    intros Hrun. destruct (IH _ _ Hrun) as [Heq Hmin].
    unfold walk_cond in Hc. destruct (target st); [discriminate|].
    apply andb_prop in Hc. destruct Hc as [Hpos _]. apply Z.ltb_lt in Hpos.
    apply walk_body_Ok in Hbody.
    destruct Hbody as (init & role & parent & _ & _ & [[_ ->]|[Hnin Hv]]).
    + simpl in *. split; [assumption|lia].
    + destruct Hv as (md & _ & _ & Hvis & Hnum & _).
      rewrite Hvis, Hnum in Heq. rewrite Hnum in Hmin.
      rewrite size_union in Heq by (apply disjoint_singleton_r; assumption).
      rewrite size_singleton in Heq. split; lia.
  - intros [= <- <-]. split; [reflexivity|lia].
Qed.

(** X9. A walk whose loop ends without an exception has consulted at
    most [max_delegations] distinct (role, parent) pairs, and the budget
    it is left with is [max_delegations] less the number of pairs
    consulted. *)
Theorem walk_consults_within_budget
    (fuel : nat) (target_filepath : string) (s : state W)
    (st' : WalkState) (s' : state W) :
  loop fuel target_filepath (walk_init self) s = Some (Ok st' s') ->
  (Z.of_nat (size (visited_role_names st'))
   <= Z.max 0 (max_delegations (config self)))%Z
  /\ (number_of_delegations st'
      = max_delegations (config self)
        - Z.of_nat (size (visited_role_names st')))%Z.
Proof.
  intros Hrun. apply walk_loop_budget in Hrun.
  cbn [walk_init visited_role_names number_of_delegations] in Hrun.
  rewrite size_empty in Hrun. lia.
Qed.

Lemma walk_loop_target fuel target_filepath st s st' s' fi :
  loop fuel target_filepath st s = Some (Ok st' s') ->
  target st = None ->
  target st' = Some fi ->
  exists role parent md,
    (role, parent) ∈ visited_role_names st'
    /\ trusted_targets role (world s') = Val md
    /\ targets md !! target_filepath = Some fi.
Proof.
  revert st s. induction fuel as [|fuel IH]; intros st s; simpl;
    destruct (walk_cond st) eqn:Hc; try discriminate.
  - intros [= <- <-] Hn Hs. congruence.
  - destruct (walk_body urljoin fnmatch self target_filepath st s)
      as [st1 s1|e s1] eqn:Hbody; [|discriminate].
    intros Hrun Hnone Hsome.
    apply walk_body_Ok in Hbody.
    destruct Hbody as (init & role & parent & _ & _ & [[_ Hst1]|[Hnin Hv]]).
    + apply (IH _ _ Hrun); [subst st1; assumption|assumption].
    + destruct Hv as (md & Hmd & Htgt & Hvis & _ & _).
      destruct (target st1) as [fi1|] eqn:Ht1.
      * assert (walk_cond st1 = false) as Hc1
          by (unfold walk_cond; rewrite Ht1; reflexivity).
        destruct fuel; simpl in Hrun; rewrite Hc1 in Hrun;
          injection Hrun as <- <-;
          (exists role, parent, md;
           split; [rewrite Hvis; apply elem_of_union_r, elem_of_singleton;
                   reflexivity|];
           split; [assumption|congruence]).
      * apply (IH _ _ Hrun); [assumption|assumption].
  - intros [= <- <-] Hn Hs. congruence.
Qed.

(** X10. A fileinfo returned by [get_one_valid_targetinfo] is the entry
    for the requested path in the metadata the trusted set holds, when
    the walk returns, for some role. *)
Theorem resolved_fileinfo_is_trusted
    (fuel : nat) (target_path : string) (s : state W)
    (r : TargetInfo) (s' : state W) (fi : TargetFile) :
  get_one_valid_targetinfo urljoin fnmatch self fuel target_path s
  = Some (Ok r s') ->
  fileinfo r = Some fi ->
  exists role md,
    trusted_targets role (world s') = Val md
    /\ targets md !! target_path = Some fi.
Proof.
  unfold get_one_valid_targetinfo, _preorder_depth_first_walk, walk_from.
  destruct (loop fuel target_path (walk_init self) s) as [[st1 s1|e s1]|] eqn:Hrun;
    try discriminate.
  intros [= <- <-] Hfi. simpl in Hfi.
  destruct (walk_loop_target _ _ _ _ _ _ fi Hrun eq_refl Hfi)
    as (role & parent & md & _ & Hmd & Ht).
  exists role, md. split; assumption.
Qed.

(** X11. With a budget of one only the top-level [targets] is
    consulted: when the walk returns, it returns what [targets] itself
    lists for the path, in the state its load left, whatever it
    delegates. *)
Theorem budget_of_one_stops_at_targets
    (fuel : nat) (target_path : string) (s s1 : state W) (md : Targets)
    (r : TargetInfo) (s' : state W) :
  max_delegations (config self) = 1%Z ->
  _load_targets urljoin self "targets" "root" s = Ok tt s1 ->
  trusted_targets "targets" (world s1) = Val md ->
  get_one_valid_targetinfo urljoin fnmatch self fuel target_path s
  = Some (Ok r s') ->
  r = {| filepath := target_path; fileinfo := targets md !! target_path |}
  /\ s' = s1.
Proof.
  intros Hmax Hload Hmd.
  unfold get_one_valid_targetinfo, _preorder_depth_first_walk, walk_from.
  assert (walk_cond (walk_init self) = true) as Hc.
  { unfold walk_cond, walk_init. simpl. rewrite Hmax. reflexivity. }
  destruct fuel as [|fuel]; simpl; rewrite Hc; [discriminate|].
  rewrite (walk_body_visit urljoin fnmatch self target_path (walk_init self) s
             [] "targets" "root" s1 md eq_refl ltac:(simpl; set_solver)
             Hload Hmd).
  destruct (targets md !! target_path) as [fi|] eqn:Hfi.
  - destruct fuel; simpl; intros [= <- <-]; split; reflexivity.
  - destruct (scan_child_roles fnmatch (child_roles_of md) target_path "targets"
                [] []) as [[rn crv]|e]; [|discriminate].
    match goal with |- context [walk_loop _ _ _ _ _ ?st _] => set (st1 := st) end.
    assert (walk_cond st1 = false) as Hc1.
    { unfold walk_cond, st1, walk_init. simpl. rewrite Hmax. reflexivity. }
    destruct fuel; simpl; rewrite Hc1; intros [= <- <-]; split; reflexivity.
Qed.

End WalkMore.

(** * More on [updated_targets], [download_target] and [__init__] *)

Lemma filter_all {A} (P : A -> Prop) `{!forall x, Decision (P x)} (l : list A) :
  (forall x, x ∈ l -> P x) -> filter P l = l.
Proof.
  induction l as [|a l IH]; intros Hall; [reflexivity|].
  rewrite filter_cons. destruct (decide (P a)) as [_|Hn].
  - f_equal. apply IH. intros x Hx. apply Hall. right. assumption.
  - exfalso. apply Hn, Hall. left.
Qed.

Lemma first_per_path_distinct (dest : string) (ts : list TargetInfo) :
  forall seen,
    NoDup (destination dest <$> ts) ->
    (forall t, t ∈ ts -> destination dest t ∉ seen) ->
    first_per_path dest seen ts = ts.
Proof.
  induction ts as [|t ts IH]; intros seen Hnd Hseen; [reflexivity|].
  cbn [first_per_path].
  destruct (decide (destination dest t ∈ seen)) as [Hin|_].
  - exfalso. apply (Hseen t); [left|assumption].
  - f_equal. rewrite fmap_cons in Hnd. apply NoDup_cons in Hnd.
    destruct Hnd as [Hnot Hnd]. apply IH; [assumption|].
    intros t' Ht' Hin. apply elem_of_app in Hin. destruct Hin as [Hin|Hin].
    + apply (Hseen t'); [right|]; assumption.
    + apply list_elem_of_singleton in Hin. apply Hnot. rewrite <- Hin.
      apply list_elem_of_fmap_2. assumption.
Qed.

Section UpdatedTargetsMore.

Context {W : Type}.
Context `{!LocalFiles W}.
Variable verify_length_and_hashes : TargetFile -> list byte -> Except unit.

Local Notation "'needs'" := (needs_update verify_length_and_hashes).
Local Notation "'caught'" := (check_is_caught verify_length_and_hashes).

(** X12. What [updated_targets] returns is a fixed point: when the
    checks raise nothing but the two exceptions that are caught, calling
    it again on its own result, in the state it left, returns the same
    list. *)
Theorem updated_targets_idempotent
    (targets : list TargetInfo) (destination_directory : string)
    (s : state W) (res : list TargetInfo) (s' : state W) :
  (forall t, t ∈ targets -> caught (world s) destination_directory t) ->
  updated_targets verify_length_and_hashes targets destination_directory s
  = Ok res s' ->
  exists s'',
    updated_targets verify_length_and_hashes res destination_directory s'
    = Ok res s''.
Proof.
  intros Hc Hrun.
  destruct (updated_targets_loop_spec verify_length_and_hashes
              destination_directory targets [] [] s Hc) as (s1 & Hw & Hrun1).
  unfold updated_targets in *. rewrite Hrun1 in Hrun.
  injection Hrun as <- <-. cbn [app].
  set (stale := filter (fun t => needs (world s) destination_directory t = true)
                  targets) in *.
  destruct (first_per_path_spec destination_directory [] stale)
    as (Hnd & Hsub & _ & _).
  set (res := first_per_path destination_directory [] stale) in *.
  assert (forall t, t ∈ res ->
            t ∈ targets /\ needs (world s) destination_directory t = true)
    as Hsound.
  { intros t Ht. destruct (Hsub t Ht) as [Hst _].
    apply list_elem_of_filter in Hst. tauto. }
  destruct (updated_targets_loop_spec verify_length_and_hashes
              destination_directory res [] [] s1) as (s2 & _ & Hrun2).
  { intros t Ht. rewrite Hw. apply Hc. apply Hsound. assumption. }
  exists s2. rewrite Hrun2, Hw. cbn [app]. f_equal.
  rewrite filter_all by (intros t Ht; apply Hsound; assumption).
  apply first_per_path_distinct; [assumption|].
  intros t _ Hin. inversion Hin.
Qed.

(** X13. A targetinfo without fileinfo, as the walk returns for an
    unresolved path, is not filtered out: when its destination file
    cannot be opened it is reported as updated, and when the file opens
    the call on the missing fileinfo raises [AttributeError]. *)
Theorem updated_targets_unresolved_targetinfo
    (t : TargetInfo) (destination_directory : string) (s : state W) :
  fileinfo t = None ->
  (open_read (destination destination_directory t) (world s) = Exc OSError ->
   exists s',
     updated_targets verify_length_and_hashes [t] destination_directory s
     = Ok [t] s')
  /\ (forall data,
        open_read (destination destination_directory t) (world s) = Val data ->
        exists s',
          updated_targets verify_length_and_hashes [t] destination_directory s
          = Raise (OtherError "AttributeError") s').
Proof.
  intros Hfi.
  unfold updated_targets, destination. cbn [updated_targets_loop].
  destruct (decide (_ ∈ [])) as [Hin|_]; [inversion Hin|].
  unfold check_target_file, try_except, perform, bind. rewrite Hfi.
  cbv beta. split.
  - intros Hopen. rewrite Hopen. cbn. eexists. reflexivity.
  - intros data Hopen. rewrite Hopen. cbn. eexists. reflexivity.
Qed.

End UpdatedTargetsMore.

Section DownloadFacts.

Context {W : Type}.
Context `{!LocalFiles W, !TargetFiles W, !TrustedSetFactory W}.
Variable urljoin : string -> string -> string.
Variable verify_length_and_hashes : TargetFile -> list byte -> Except unit.
Variable default_config : UpdaterConfig.

Local Notation "'fetch'" := (download_target urljoin verify_length_and_hashes).


(** X15. A [download_target] that returns has fetched the file from the
    target path joined to the base URL (the one given, with a trailing
    slash, or else the constructor's), asking for no more bytes than
    the fileinfo's length, has checked the bytes against the fileinfo
    and has written those bytes under the destination directory.  When
    the check raises a length-or-hash mismatch, the call raises a
    repository error and writes nothing. *)
Theorem download_target_persists_verified_file
    (self : Updater) (targetinfo : TargetInfo) (destination_directory : string)
    (target_base_url : option string) (s : state W) :
  (forall s',
      fetch self targetinfo destination_directory target_base_url s = Ok tt s' ->
      exists base fi data w1,
        match target_base_url with
        | Some given => base = _ensure_trailing_slash given
        | None => _target_base_url self = Some base
        end
        /\ fileinfo targetinfo = Some fi
        /\ download_file (urljoin base (filepath targetinfo)) (tf_length fi)
             (world s) = (Val data, w1)
        /\ verify_length_and_hashes fi data = Val tt
        /\ persist_temp_file data
             (os_path_join destination_directory (filepath targetinfo)) w1
           = (Val tt, world s')
        /\ trace s' = trace s)
  /\ (forall base fi data w1,
        match target_base_url with
        | Some given => base = _ensure_trailing_slash given
        | None => _target_base_url self = Some base
        end ->
        fileinfo targetinfo = Some fi ->
        download_file (urljoin base (filepath targetinfo)) (tf_length fi)
          (world s) = (Val data, w1) ->
        verify_length_and_hashes fi data = Exc LengthOrHashMismatchError ->
        fetch self targetinfo destination_directory target_base_url s
        = Raise RepositoryError (State w1 (trace s))).
Proof.
  split.
  - intros s' Hrun. unfold download_target, bind in Hrun.
    assert (exists base,
              match target_base_url with
              | Some given => base = _ensure_trailing_slash given
              | None => _target_base_url self = Some base
              end
              /\ match target_base_url, _target_base_url self with
                 | None, None => raise (OtherError "ValueError")
                 | None, Some own => ret own
                 | Some given, _ => ret (_ensure_trailing_slash given)
                 end s = Ok base s) as (base & Hbase & Hres).
    { destruct target_base_url as [given|].
      - eexists. split; reflexivity.
      - destruct (_target_base_url self) as [own|]; [|discriminate].
        eexists. split; reflexivity. }
    rewrite Hres in Hrun. clear Hres.
    destruct (fileinfo targetinfo) as [fi|] eqn:Hfi; [|discriminate].
    unfold effect, try_except, lift in Hrun.
    destruct (download_file _ _ (world s)) as [[data|e] w1] eqn:Hdl;
      [|discriminate].
    cbn [world trace] in Hrun.
    destruct (verify_length_and_hashes fi data) as [[]|e] eqn:Hv.
    + cbn [world trace] in Hrun.
      destruct (persist_temp_file data _ w1) as [[[]|e] w2] eqn:Hp;
        [|discriminate].
      injection Hrun as <-.
      exists base, fi, data, w1. cbn [world trace]. auto 10.
    + destruct (is_LengthOrHashMismatchError e); discriminate.
  - intros base fi data w1 Hbase Hfi Hdl Hv.
    unfold download_target, bind.
    assert (match target_base_url, _target_base_url self with
            | None, None => raise (OtherError "ValueError")
            | None, Some own => ret own
            | Some given, _ => ret (_ensure_trailing_slash given)
            end s = Ok base s) as ->.
    { destruct target_base_url as [given|]; [subst base; reflexivity|].
      rewrite Hbase. reflexivity. }
    rewrite Hfi. unfold effect, try_except, lift. rewrite Hdl. cbn [world trace].
    rewrite Hv. reflexivity.
Qed.

(** X16. Where a file written by [persist_temp_file] can be read back,
    a target that [download_target] has just downloaded is no longer
    reported by [updated_targets]. *)
Theorem downloaded_target_is_up_to_date
    (self : Updater) (targetinfo : TargetInfo) (destination_directory : string)
    (target_base_url : option string) (s s' : state W) :
  (forall data path w w',
      persist_temp_file data path w = (Val tt, w') ->
      open_read path w' = Val data) ->
  fetch self targetinfo destination_directory target_base_url s = Ok tt s' ->
  exists s'',
    updated_targets verify_length_and_hashes [targetinfo]
      destination_directory s'
    = Ok [] s''.
Proof.
  intros Hfs Hrun.
  unfold download_target, bind in Hrun.
  destruct (match target_base_url, _target_base_url self with
            | None, None => raise (OtherError "ValueError")
            | None, Some own => ret own
            | Some given, _ => ret (_ensure_trailing_slash given)
            end s) as [base s0|e s0]; [|discriminate].
  destruct (fileinfo targetinfo) as [fi|] eqn:Hfi; [|discriminate].
  unfold effect, try_except, lift in Hrun.
  destruct (download_file _ _ (world s0)) as [[data|e] w1]; [|discriminate].
  cbn [world trace] in Hrun.
  destruct (verify_length_and_hashes fi data) as [[]|e] eqn:Hv;
    [|destruct (is_LengthOrHashMismatchError e); discriminate].
  cbn [world trace] in Hrun.
  destruct (persist_temp_file data _ w1) as [[[]|e] w2] eqn:Hp; [|discriminate].
  injection Hrun as <-.
  apply Hfs in Hp.
  unfold updated_targets. cbn [updated_targets_loop].
  destruct (decide (_ ∈ [])) as [Hin|_]; [inversion Hin|].
  unfold check_target_file, try_except, perform, bind. cbv beta.
  cbn [world trace]. rewrite Hp, Hfi. unfold lift. rewrite Hv. cbn. eexists. reflexivity.
Qed.

(** X17. An updater that [__init__] returns keeps the directory it was
    given and has base URLs that end in a slash; the local [root.json]
    was read and handed to the trusted set.  When [root.json] cannot be
    read, [__init__] raises that exception and no trusted set is
    built. *)
Theorem init_reads_root_and_normalizes_urls
    (repository_dir metadata_base_url : string)
    (target_base_url : option string) (config : option UpdaterConfig)
    (s : state W) :
  let root_file := os_path_join repository_dir ("root" +:+ ".json") in
  (forall self s',
      __init__ default_config repository_dir metadata_base_url target_base_url
        config s = Ok self s' ->
      _dir self = repository_dir
      /\ endswith (_metadata_base_url self) "/" = true
      /\ (forall url, _target_base_url self = Some url ->
                      endswith url "/" = true)
      /\ (_target_base_url self = None <-> target_base_url = None)
      /\ exists data,
           open_read root_file (world s) = Val data
           /\ new_trusted_set data (world s) = (Val tt, world s')
           /\ trace s' = trace s ++ [Event (OpenRead root_file) None])
  /\ (forall e,
        open_read root_file (world s) = Exc e ->
        __init__ default_config repository_dir metadata_base_url target_base_url
          config s
        = Raise e (State (world s)
                     (trace s ++ [Event (OpenRead root_file) (Some e)]))).
Proof.
  intros root_file. unfold __init__, bind, _load_local_metadata, perform, effect.
  cbn [_dir]. fold root_file. split.
  - intros self s' Hrun.
    destruct (open_read root_file (world s)) as [data|e]; [|discriminate].
    cbn [world trace] in Hrun.
    destruct (new_trusted_set data (world s)) as [[[]|e] w1] eqn:Hnew;
      [|discriminate].
    injection Hrun as <- <-. cbn.
    split; [reflexivity|].
    split; [apply ensure_trailing_slash_ends|].
    split.
    { intros url Hurl. destruct target_base_url as [given|]; [|discriminate].
      injection Hurl as <-. apply ensure_trailing_slash_ends. }
    split.
    { destruct target_base_url; split; intros; try reflexivity; discriminate. }
    exists data. auto.
  - intros e Hopen. rewrite Hopen. reflexivity.
Qed.

End DownloadFacts.

(** * What a [refresh] that returns has done *)

Section RefreshOrder.

Context {W : Type}.
Context `{!LocalFiles W, !FetcherInterface W, !TrustedMetadataSet W}.
Variable urljoin : string -> string -> string.
Variable self : Updater.

Lemma accepted_single (c : call) (before after : list event) :
  accepted_in_order [c] (before ++ Event c None :: after).
Proof.
  unfold accepted_in_order. cbn.
  apply sublist_inserts_l. apply sublist_skip. apply sublist_nil_l.
Qed.

Lemma accepted_app (cs1 cs2 : list call) (e1 e2 : list event) :
  accepted_in_order cs1 e1 -> accepted_in_order cs2 e2 ->
  accepted_in_order (cs1 ++ cs2) (e1 ++ e2).
Proof.
  unfold accepted_in_order. intros H1 H2. rewrite fmap_app.
  apply sublist_app; assumption.
Qed.

Lemma accepted_after (cs : list call) (e1 e2 : list event) :
  accepted_in_order cs e2 -> accepted_in_order cs (e1 ++ e2).
Proof. unfold accepted_in_order. apply sublist_inserts_l. Qed.

(** The local copy was read and accepted. *)
Lemma local_accept_Ok (rolename : string) (c : list byte -> call)
    (op : list byte -> W -> Except unit * W) (s s' : state W) :
  (data <- _load_local_metadata self rolename ;;
   perform (c data) (op data)) s = Ok tt s' ->
  exists data evs,
    trace s' = trace s ++ evs /\ accepted_in_order [c data] evs.
Proof.
  unfold bind, _load_local_metadata, perform. cbn [world trace].
  destruct (open_read _ (world s)) as [data|e]; [|discriminate].
  cbn [world trace].
  destruct (op data (world s)) as [[[]|e] w1]; [|discriminate].
  intros [= <-]. cbn [trace].
  exists data, [Event (OpenRead (os_path_join (_dir self) (rolename +:+ ".json")))
                  None; Event (c data) None].
  split; [rewrite <- app_assoc; reflexivity|].
  apply (accepted_single (c data) [_] []).
Qed.

(** The remote copy was fetched, accepted and written. *)
Lemma fetch_accept_persist_Ok (rolename : string) (len : Z)
    (version : option Z) (c : list byte -> call)
    (op : list byte -> W -> Except unit * W) (s s' : state W) :
  (data <- _download_metadata urljoin self rolename len version ;;
   perform (c data) (op data) ;;
   _persist_metadata self rolename data) s = Ok tt s' ->
  exists data evs,
    trace s' = trace s ++ evs /\ accepted_in_order [c data] evs.
Proof.
  unfold bind, _download_metadata, _persist_metadata, perform.
  cbn [world trace].
  destruct (download_bytes _ len (world s)) as [[data|e] w1]; [|discriminate].
  cbn [world trace].
  destruct (op data w1) as [[[]|e] w2]; [|discriminate].
  cbn [world trace].
  destruct (open_write _ data w2) as [[[]|e] w3]; [|discriminate].
  intros [= <-]. cbn [trace].
  eexists data, [_; Event (c data) None; _].
  split; [rewrite <- !app_assoc; reflexivity|].
  apply (accepted_single (c data) [_] [_]).
Qed.

Lemma load_root_Ok (s s' : state W) :
  _load_root urljoin self s = Ok tt s' ->
  exists evs,
    trace s' = trace s ++ evs /\ accepted_in_order [RootUpdateFinished] evs.
Proof.
  unfold _load_root. cbv zeta.
  generalize (range (root_version (world s) + 1)
                (root_version (world s) + 1 + max_root_rotations (config self))).
  intros versions. unfold bind.
  destruct (load_root_loop_writes urljoin self versions s) as (e1 & Ht1 & _).
  destruct (load_root_loop urljoin self versions s) as [[] s1|e s1];
    [|discriminate].
  cbn [res_state] in Ht1. unfold perform.
  destruct (root_update_finished (world s1)) as [[[]|e] w1]; [|discriminate].
  intros [= <-]. cbn [trace]. exists (e1 ++ [Event RootUpdateFinished None]).
  split; [rewrite Ht1, app_assoc; reflexivity|].
  apply (accepted_single RootUpdateFinished e1 []).
Qed.

Lemma local_accept_grows (rolename : string) (c : list byte -> call)
    (op : list byte -> W -> Except unit * W) (s : state W) :
  exists evs,
    trace (res_state ((data <- _load_local_metadata self rolename ;;
                       perform (c data) (op data)) s))
    = trace s ++ evs.
Proof.
  unfold bind, _load_local_metadata, perform.
  destruct (open_read _ (world s)) as [d|e]; cbn [world trace].
  - destruct (op d (world s)) as [[[]|e] w'];
      eexists; cbn; rewrite <- app_assoc; reflexivity.
  - eexists. reflexivity.
Qed.

Lemma load_timestamp_Ok (s s' : state W) :
  _load_timestamp urljoin self s = Ok tt s' ->
  exists data evs,
    trace s' = trace s ++ evs /\ accepted_in_order [UpdateTimestamp data] evs.
Proof.
  unfold _load_timestamp, local_timestamp.
  change (bind ?m ?k s) with (match m s with
                              | Ok a s1 => k a s1
                              | Raise e s1 => Raise e s1
                              end).
  unfold try_except at 1.
  destruct (local_accept_grows "timestamp" UpdateTimestamp update_timestamp s)
    as (e1 & Ht1).
  match goal with
  | |- context [match ?m s with Ok _ _ => _ | Raise _ _ => _ end] =>
      destruct (m s) as [[] s1|e s1]
  end; cbn [res_state] in Ht1.
  2: destruct (is_OSError_or_RepositoryError e); [cbn [ret]|discriminate].
  all: intros Hrem;
    apply (fetch_accept_persist_Ok "timestamp" _ None UpdateTimestamp
             update_timestamp) in Hrem as (data & evs & Ht & Hacc);
    exists data, (e1 ++ evs);
    (split; [rewrite Ht, Ht1, app_assoc; reflexivity|]);
    apply accepted_after; assumption.
Qed.

(** A local load, or else a fetch under the name and length the handler
    works out, as in [_load_snapshot] and [_load_targets]. *)
Lemma local_or_remote_Ok (rolename key : string) (c : list byte -> call)
    (op : list byte -> W -> Except unit * W)
    (meta : string -> W -> Except MetaFile) (max_length : Z)
    (s s' : state W) :
  try_except
    (data <- _load_local_metadata self rolename ;;
     perform (c data) (op data))
    is_OSError_or_RepositoryError
    (fun e =>
       metainfo <- attribute (meta key) ;;
       let length := py_or (mf_length metainfo) max_length in
       fun s =>
         let version :=
           if root_consistent_snapshot (world s)
           then Some (mf_version metainfo) else None in
         (data <- _download_metadata urljoin self rolename length version ;;
          perform (c data) (op data) ;;
          _persist_metadata self rolename data) s) s = Ok tt s' ->
  exists data evs,
    trace s' = trace s ++ evs /\ accepted_in_order [c data] evs.
Proof.
  unfold try_except.
  destruct (local_accept_grows rolename c op s) as (e1 & Ht1).
  destruct ((data <- _load_local_metadata self rolename ;;
             perform (c data) (op data)) s) as [[] s1|e s1] eqn:Hlocal.
  - intros [= <-]. apply local_accept_Ok in Hlocal. assumption.
  - cbn [res_state] in Ht1.
    destruct (is_OSError_or_RepositoryError e); [|discriminate].
    unfold bind at 1, attribute.
    destruct (meta key (world s1)) as [metainfo|e']; [|discriminate].
    cbv zeta. intros Hrem.
    apply fetch_accept_persist_Ok in Hrem as (data & evs & Ht & Hacc).
    exists data, (e1 ++ evs). split; [rewrite Ht, Ht1, app_assoc; reflexivity|].
    apply accepted_after. assumption.
Qed.

(** X18. A [refresh] that returns has had the trusted set accept, in
    this order and each without an exception, the end of the root
    update, a timestamp, a snapshot and the top-level targets (as
    [targets] under [root]). *)
Theorem refresh_returns_after_accepting_all (s s' : state W) :
  refresh urljoin self s = Ok tt s' ->
  exists evs timestamp snapshot targets,
    trace s' = trace s ++ evs
    /\ accepted_in_order
         [RootUpdateFinished; UpdateTimestamp timestamp;
          UpdateSnapshot snapshot;
          UpdateDelegatedTargets targets "targets" "root"] evs.
Proof.
  unfold refresh.
  change (bind ?m ?k s) with (match m s with
                              | Ok a s1 => k a s1
                              | Raise e s1 => Raise e s1
                              end).
  destruct (_load_root urljoin self s) as [[] s1|e s1] eqn:Hroot;
    [|discriminate].
  unfold bind at 1.
  destruct (_load_timestamp urljoin self s1) as [[] s2|e s2] eqn:Hts;
    [|discriminate].
  unfold bind at 1.
  destruct (_load_snapshot urljoin self s2) as [[] s3|e s3] eqn:Hsn;
    [|discriminate].
  intros Htg.
  apply load_root_Ok in Hroot as (e1 & Ht1 & Ha1).
  apply load_timestamp_Ok in Hts as (dts & e2 & Ht2 & Ha2).
  apply (local_or_remote_Ok "snapshot" "snapshot.json" UpdateSnapshot
           update_snapshot timestamp_meta) in Hsn as (dsn & e3 & Ht3 & Ha3).
  apply (local_or_remote_Ok "targets" ("targets" +:+ ".json")
           (fun d => UpdateDelegatedTargets d "targets" "root")
           (fun d => update_delegated_targets d "targets" "root")
           snapshot_meta) in Htg as (dtg & e4 & Ht4 & Ha4).
  exists (e1 ++ e2 ++ e3 ++ e4), dts, dsn, dtg.
  split.
  - rewrite Ht4, Ht3, Ht2, Ht1, <- !app_assoc. reflexivity.
  - apply (accepted_app [_] [_; _; _]); [assumption|].
    apply (accepted_app [_] [_; _]); [assumption|].
    apply (accepted_app [_] [_]); assumption.
Qed.

End RefreshOrder.

Example whole_repo_refreshes :
  map ev_call (trace (res_state Deployment.refreshed))
  = [DownloadBytes "https://repo/metadata/2.root.json" 512000;
     RootUpdateFinished;
     OpenRead "/meta/timestamp.json";
     DownloadBytes "https://repo/metadata/timestamp.json" 16384;
     UpdateTimestamp (Toy.bytes "ts-5");
     OpenWrite "/meta/timestamp.json" (Toy.bytes "ts-5");
     OpenRead "/meta/snapshot.json";
     DownloadBytes "https://repo/metadata/snapshot.json" 2000000;
     UpdateSnapshot (Toy.bytes "snap-3");
     OpenWrite "/meta/snapshot.json" (Toy.bytes "snap-3");
     OpenRead "/meta/targets.json";
     DownloadBytes "https://repo/metadata/targets.json" 5000000;
     UpdateDelegatedTargets (Toy.bytes "targets-1") "targets" "root";
     OpenWrite "/meta/targets.json" (Toy.bytes "targets-1")].
Proof. vm_compute. reflexivity. Qed.

Lemma refresh_returns_after_accepting_all_witness :
  exists evs timestamp snapshot targets,
    trace (res_state Deployment.refreshed)
    = trace (Toy.start Deployment.whole_repo) ++ evs
    /\ accepted_in_order
         [RootUpdateFinished; UpdateTimestamp timestamp;
          UpdateSnapshot snapshot;
          UpdateDelegatedTargets targets "targets" "root"] evs.
Proof.
  apply (refresh_returns_after_accepting_all Toy.urljoin ToyTargets.updater
           (Toy.start Deployment.whole_repo)).
  vm_compute. reflexivity.
Defined.

(** A first run from end to end: refresh, resolve ["a.txt"], download
    it, and find nothing left to update. *)
Example first_run_end_to_end :
  let s1 := res_state Deployment.refreshed in
  let found :=
    Deployment.finished (Deployment.out_of_fuel Deployment.whole_repo)
      (get_one_valid_targetinfo Toy.urljoin Toy.fnmatch ToyTargets.updater 10
         "a.txt" s1) in
  let s2 := res_state found in
  let s3 :=
    res_state (download_target Toy.urljoin Toy.verify ToyTargets.updater
                 Scenario.t_fresh "/dest" None s2) in
  res_value {| filepath := "?"; fileinfo := None |} found = Scenario.t_fresh
  /\ res_value [Scenario.t_fresh]
       (updated_targets Toy.verify [Scenario.t_fresh] "/dest" s2)
     = [Scenario.t_fresh]
  /\ res_value [Scenario.t_fresh]
       (updated_targets Toy.verify [Scenario.t_fresh] "/dest" s3)
     = [].
Proof. vm_compute. repeat split; reflexivity. Qed.

(** ** The added properties on the examples *)

Lemma visit_child_role_paths_witness :
  _visit_child_role Toy.fnmatch (Scenario.delegated "B" false ["/*.tgz"])
    "foo.tgz"
  = Val (Some "B").
Proof.
  apply (proj1 (visit_child_role_paths Toy.fnmatch
                  (Scenario.delegated "B" false ["/*.tgz"]) "foo.tgz"
                  ["/*.tgz"] eq_refl eq_refl)).
  exists "/*.tgz". split; [left|]. vm_compute. reflexivity.
Defined.

Lemma visit_child_role_ignores_leading_separators_witness :
  _visit_child_role Toy.fnmatch (Scenario.delegated "B" false ["*.tgz"])
    "//foo.tgz"
  = _visit_child_role Toy.fnmatch (Scenario.delegated "B" false ["*.tgz"])
      "foo.tgz".
Proof.
  apply (proj1 (visit_child_role_ignores_leading_separators Toy.fnmatch
                  (Scenario.delegated "B" false ["*.tgz"]) "//foo.tgz" "foo.tgz"
                  eq_refl eq_refl)).
Defined.


Example remote_walk_trace :
  map ev_call
    (trace (res_state (Deployment.finished (Deployment.out_of_fuel Deployment.remote_repo)
                         Deployment.remote_walk)))
  = [OpenRead "/meta/targets.json";
     DownloadBytes "https://repo/metadata/targets.json" 5000000;
     UpdateDelegatedTargets (Toy.bytes "targets-1") "targets" "root";
     OpenWrite "/meta/targets.json" (Toy.bytes "targets-1");
     OpenRead "/meta/B.json";
     DownloadBytes "https://repo/metadata/B.json" 100;
     UpdateDelegatedTargets (Toy.bytes "B-1") "B" "targets";
     OpenWrite "/meta/B.json" (Toy.bytes "B-1")].
Proof. vm_compute. reflexivity. Qed.

Lemma walk_writes_accepted_metadata_witness :
  exists evs,
    trace (res_state (Deployment.finished
                        (Deployment.out_of_fuel Deployment.remote_repo)
                        Deployment.remote_walk))
    = trace (Toy.start Deployment.remote_repo) ++ evs
    /\ writes_follow_targets_acceptance "/meta" evs.
Proof.
  apply (walk_writes_accepted_metadata Toy.urljoin Toy.fnmatch Toy.updater 10
           "a.txt" (Toy.start Deployment.remote_repo)).
  vm_compute. reflexivity.
Defined.

Lemma walk_consults_within_budget_witness :
  (Z.of_nat (size (visited_role_names
                     (res_value (walk_init Toy.updater) Deployment.diamond_loop)))
   <= Z.max 0 32)%Z
  /\ (number_of_delegations
        (res_value (walk_init Toy.updater) Deployment.diamond_loop)
      = 32 - Z.of_nat (size (visited_role_names
                               (res_value (walk_init Toy.updater)
                                  Deployment.diamond_loop))))%Z.
Proof.
  apply (walk_consults_within_budget Toy.urljoin Toy.fnmatch Toy.updater 10
           "x.txt" (Toy.start Scenario.diamond)
           (res_value (walk_init Toy.updater) Deployment.diamond_loop)
           (res_state Deployment.diamond_loop)).
  vm_compute. reflexivity.
Defined.

Lemma resolved_fileinfo_is_trusted_witness :
  exists role md,
    trusted_targets role
      (world (res_state (Deployment.finished
                           (Deployment.out_of_fuel Deployment.remote_repo)
                           Deployment.remote_walk)))
    = Val md
    /\ targets md !! "a.txt" = Some Scenario.fi_abc.
Proof.
  apply (resolved_fileinfo_is_trusted Toy.urljoin Toy.fnmatch Toy.updater 10
           "a.txt" (Toy.start Deployment.remote_repo)
           {| filepath := "a.txt"; fileinfo := Some Scenario.fi_abc |}).
  - vm_compute. reflexivity.
  - reflexivity.
Defined.

Lemma budget_of_one_stops_at_targets_witness :
  {| filepath := "x.txt"; fileinfo := None |}
  = {| filepath := "x.txt";
       fileinfo :=
         targets (Scenario.delegating ∅
                    [Scenario.delegated "C" true ["*.txt"];
                     Scenario.delegated "D" false ["*.txt"]]) !! "x.txt" |}
  /\ res_state (_load_targets Toy.urljoin Deployment.frugal "targets" "root"
                  (Toy.start Scenario.truncated))
     = res_state (_load_targets Toy.urljoin Deployment.frugal "targets" "root"
                    (Toy.start Scenario.truncated)).
Proof.
  apply (budget_of_one_stops_at_targets Toy.urljoin Toy.fnmatch Deployment.frugal
           5 "x.txt" (Toy.start Scenario.truncated)).
  - reflexivity.
  - vm_compute. reflexivity.
  - vm_compute. reflexivity.
  - vm_compute. reflexivity.
Defined.

Lemma updated_targets_idempotent_witness :
  exists s'',
    updated_targets Toy.verify [Scenario.t_missing; Scenario.t_changed] "/dest"
      (res_state (updated_targets Toy.verify
                    [Scenario.t_fresh; Scenario.t_missing; Scenario.t_missing;
                     Scenario.t_changed] "/dest"
                    (Toy.start Scenario.downloaded)))
    = Ok [Scenario.t_missing; Scenario.t_changed] s''.
Proof.
  apply (updated_targets_idempotent Toy.verify
           [Scenario.t_fresh; Scenario.t_missing; Scenario.t_missing;
            Scenario.t_changed] "/dest" (Toy.start Scenario.downloaded)).
  - intros t Ht.
    repeat (apply elem_of_cons in Ht; destruct Ht as [->|Ht]);
      [vm_compute; exact I | vm_compute; reflexivity | vm_compute; reflexivity
       | vm_compute; reflexivity | inversion Ht].
  - vm_compute. reflexivity.
Defined.

Lemma updated_targets_unresolved_targetinfo_witness :
  exists s',
    updated_targets Toy.verify [Deployment.t_unresolved] "/dest"
      (Toy.start Scenario.downloaded)
    = Ok [Deployment.t_unresolved] s'.
Proof.
  apply (proj1 (updated_targets_unresolved_targetinfo Toy.verify
                  Deployment.t_unresolved "/dest"
                  (Toy.start Scenario.downloaded) eq_refl)).
  vm_compute. reflexivity.
Defined.

Lemma downloaded_target_is_up_to_date_witness :
  exists s'',
    updated_targets Toy.verify [Scenario.t_fresh] "/dest"
      (res_state (download_target Toy.urljoin Toy.verify ToyTargets.updater
                    Scenario.t_fresh "/dest" None
                    (Toy.start ToyTargets.target_server)))
    = Ok [] s''.
Proof.
  apply (downloaded_target_is_up_to_date Toy.urljoin Toy.verify
           ToyTargets.updater Scenario.t_fresh "/dest" None
           (Toy.start ToyTargets.target_server)).
  - intros data path w w' Hp. injection Hp as <-.
    cbn. destruct (decide (path = path)); [reflexivity|contradiction].
  - vm_compute. reflexivity.
Defined.

Example tampered_target_not_written :
  download_target Toy.urljoin Toy.verify ToyTargets.updater
    Scenario.t_missing "/dest" None (Toy.start ToyTargets.target_server)
  = Raise RepositoryError (Toy.start ToyTargets.target_server).
Proof. vm_compute. reflexivity. Qed.

Example init_on_installed_directory :
  option_map _metadata_base_url
    (match __init__ Toy.cfg "/meta" "https://repo/metadata" None None
             (Toy.start ToyTargets.installed) with
     | Ok self _ => Some self
     | Raise _ _ => None
     end)
  = Some "https://repo/metadata/".
Proof. vm_compute. reflexivity. Qed.

Example refresh_first_run_requests :
  downloads (trace (res_state (refresh Toy.urljoin Toy.updater
                                 (Toy.start Scenario.first_run))))
  = [("https://repo/metadata/2.root.json", 512000%Z);
     ("https://repo/metadata/timestamp.json", 16384%Z);
     ("https://repo/metadata/snapshot.json", 2000000%Z)].
Proof. vm_compute. reflexivity. Qed.
